(** * Ohpus: a shallow embedding of the conversion core and tag transcription

    The development follows the Python sources
      - [ohopus/core/convert.py]  (ConversionJob, ConversionManager)
      - [ohopus/tagging/tags.py]  (TagHandler)
      - [ohopus/engines/base.py], [ffmpeg_engine.py], [opusenc_engine.py]
      - [ohopus/core/settings.py] (Settings)
      - [ohopus/ui/app.py], [ohopus/ui/widgets.py]  (the window and its panels)
    Python [int] is [Z] or [nat] (counters and lengths), Python [float] is
    idealised as an exact rational [Q] for the progress fractions and is
    binary64 for the bitrate boost, [str] is [string], a raised exception
    is the [Raise] branch of [result], dictionaries are [gmap]s and the
    ordered class-level [TAG_MAPPING] is an association list. *)

From Stdlib Require Import ZArith QArith Qminmax Qabs Ascii Floats Uint63 Lia.
From stdpp Require Import base option list gmap strings pretty.

Set Warnings "-register-all".

Local Open Scope Z_scope.

(* ===================================================================== *)
(** * Python primitives *)
(* ===================================================================== *)

Module Py.

(** Exceptions the modelled code can meet.  All of them derive from
    [Exception], so every [except Exception] and every bare [except] of the
    sources catches each of them. *)
Inductive exn :=
| ZeroDivisionError
| IndexError
| AttributeError
| ValueError (msg : string)
| RuntimeError (msg : string)
| UnboundLocalError (msg : string)
| OverflowError (msg : string)
| OSError (msg : string)
| Exception (msg : string).

#[global] Instance exn_eq_dec : EqDecision exn.
Proof. solve_decision. Defined.

(** [str(e)] *)
Definition str_exn (e : exn) : string :=
  match e with
  | ZeroDivisionError => "division by zero"
  | IndexError => "list index out of range"
  | AttributeError => "object has no attribute 'text'"
  | ValueError m | RuntimeError m | UnboundLocalError m
  | OverflowError m | OSError m | Exception m => m
  end.

Inductive result (A : Type) :=
| Ok (a : A)
| Raise (e : exn).
Arguments Ok {A} a.
Arguments Raise {A} e.

#[global] Instance result_ret : MRet result := fun A a => Ok a.
#[global] Instance result_bind : MBind result := fun A B f m =>
  match m with
  | Ok a => f a
  | Raise e => Raise e
  end.

(** [try: body  except Exception as e: handler e] *)
Definition try_except {A} (body : result A) (handler : exn -> result A) : result A :=
  match body with
  | Ok a => Ok a
  | Raise e => handler e
  end.

Definition raises {A} (r : result A) : bool :=
  match r with Ok _ => false | Raise _ => true end.

(** ** Strings *)

Definition lower_ascii (c : ascii) : ascii :=
  let n := nat_of_ascii c in
  if ((65 <=? n)%nat && (n <=? 90)%nat)%bool then ascii_of_nat (n + 32) else c.

Definition upper_ascii (c : ascii) : ascii :=
  let n := nat_of_ascii c in
  if ((97 <=? n)%nat && (n <=? 122)%nat)%bool then ascii_of_nat (n - 32) else c.

(** [s.lower()] and [s.upper()], on the ASCII range *)
Fixpoint lower (s : string) : string :=
  match s with
  | EmptyString => EmptyString
  | String c s' => String (lower_ascii c) (lower s')
  end.

Fixpoint upper (s : string) : string :=
  match s with
  | EmptyString => EmptyString
  | String c s' => String (upper_ascii c) (upper s')
  end.

Fixpoint startswith (p s : string) : bool :=
  match p, s with
  | EmptyString, _ => true
  | String a p', String b s' => if Ascii.eqb a b then startswith p' s' else false
  | String _ _, EmptyString => false
  end.

(** [needle in hay] for strings *)
Fixpoint contains (needle hay : string) : bool :=
  if startswith needle hay then true
  else match hay with
       | EmptyString => false
       | String _ hay' => contains needle hay'
       end.

(** [s.split(sep, 1)] for a one-character separator: the whole string when
    the separator does not occur, otherwise the text before its first
    occurrence and the text after it. *)
Fixpoint split1 (sep : ascii) (s : string) : list string :=
  match s with
  | EmptyString => [EmptyString]
  | String c s' =>
      if Ascii.eqb c sep then [EmptyString; s']
      else match split1 sep s' with
           | [a; b] => [String c a; b]
           | _ => [s]
           end
  end.

(** ** Numbers *)

(** [int(x)] for a float: truncation toward zero. *)
Definition int_of_float (x : Q) : Z := Z.quot (Qnum x) (Zpos (Qden x)).

(** [float(n)] *)
Definition float_of_int (n : Z) : Q := inject_Z n.

(** *** Binary64

    Where the size of a number matters, a [float] is the IEEE binary64
    number it is.  The bitrate policy multiplies an [int] of any size by
    1.25 and converts the product back; the values it meets are integers
    and quarters of integers, so they are kept as integers here. *)

(** [n] rounded to 53 significant bits, ties to the even significand: the
    value of the binary64 number nearest to the integer [n], were there no
    largest one. *)
Definition round53 (n : Z) : Z :=
  let a := Z.abs n in
  if a <? 2 ^ 53 then n
  else
    let e := Z.log2 a - 52 in
    let q := a / 2 ^ e in
    let r := a mod 2 ^ e in
    let q' :=
      if ((2 ^ e <? 2 * r) || ((2 * r =? 2 ^ e) && Z.odd q))%bool then q + 1 else q in
    Z.sgn n * (q' * 2 ^ e).

(** The conversion of an [int] operand of a float operation: the nearest
    binary64 number, [OverflowError] when that is beyond the largest finite
    one.  The result has an integer value. *)
Definition binary64_of_int (n : Z) : result Z :=
  let x := round53 n in
  if 2 ^ 1024 <=? Z.abs x
  then Raise (OverflowError "int too large to convert to float")
  else Ok x.

(** [int(x * 1.25)] for a float [x] of integer value.  The exact product
    is [5 * x] quarters; it is rounded to binary64, to an infinity when
    beyond the largest finite number, and [int] truncates it toward zero
    or raises on the infinity. *)
Definition int_of_times_1_25 (x : Z) : result Z :=
  let quarters := round53 (5 * x) in
  if 2 ^ 1026 <=? Z.abs quarters
  then Raise (OverflowError "cannot convert float infinity to integer")
  else Ok (Z.quot quarters 4).

(** [x / y] : true division raises on a zero divisor. *)
Definition truediv (x y : Q) : result Q :=
  if Qeq_bool y 0 then Raise ZeroDivisionError else Ok (x / y)%Q.


End Py.
Import Py.

(* ===================================================================== *)
(** * tagging/tags.py : TagHandler *)
(* ===================================================================== *)

Module TagHandler.

(** An ID3 frame as [_copy_id3_to_vorbis] sees it: either it has a [text]
    attribute (a list of values, already converted with [str]) or it has
    not, and then only [str(value)] is used. *)
Inductive id3_frame :=
| TextFrame (text : list string)
| OtherFrame (str_value : string).

(** A value of a generic (non-ID3) tag container. *)
Inductive tag_value :=
| ListValue (items : list string)
| ScalarValue (str_value : string).

(** What the album-art path finds in the source: [_extract_album_art] and
    [_embed_album_art] run inside the [try] of [_copy_album_art]. *)
Inductive art_outcome :=
| ArtRaises (e : exn)
| ArtNone
| ArtPicture (pic_base64 : string).

(** The object returned by [mutagen.File]. *)
Inductive tag_container :=
| ID3Tags (frames : gmap string id3_frame)
| GenericTags (items : list (string * tag_value)).

Record audio := {
  is_mp3 : bool;                       (* isinstance(source, MP3) *)
  tags : option tag_container;         (* source.tags, None when absent *)
  art : art_outcome
}.

(** Vorbis comments of the destination, key to list of values. *)
Abbreviation vcomment := (gmap string (list string)).

(** Truth value of a container / of a file object (mutagen's FileType has
    the length of its key list). *)
Definition tags_truthy (t : option tag_container) : bool :=
  match t with
  | None => false
  | Some (ID3Tags fr) => negb (bool_decide (fr = ∅))
  | Some (GenericTags it) => negb (bool_decide (it = []))
  end.

Definition TAG_MAPPING : list (string * string) :=
  [ ("TIT2", "TITLE"); ("TPE1", "ARTIST"); ("TPE2", "ALBUMARTIST");
    ("TALB", "ALBUM"); ("TDRC", "DATE"); ("TYER", "DATE"); ("TCON", "GENRE");
    ("TRCK", "TRACKNUMBER"); ("TPOS", "DISCNUMBER"); ("TPE3", "CONDUCTOR");
    ("TPE4", "REMIXER"); ("TCOM", "COMPOSER"); ("TEXT", "LYRICIST");
    ("TIT1", "GROUPING"); ("TIT3", "SUBTITLE"); ("TPUB", "PUBLISHER");
    ("TCOP", "COPYRIGHT"); ("TENC", "ENCODEDBY"); ("TBPM", "BPM");
    ("TMOO", "MOOD"); ("TSRC", "ISRC"); ("COMM", "COMMENT") ].

(** ID3 frames of a source, when it carries ID3 tags. *)
Definition id3_frames (t : option tag_container) : gmap string id3_frame :=
  match t with
  | Some (ID3Tags fr) => fr
  | _ => ∅
  end.

(** [str(frame)]: a text frame prints its values joined by NUL. *)
Definition str_frame (f : id3_frame) : string :=
  match f with
  | TextFrame text => String.concat (String "000"%char EmptyString) text
  | OtherFrame s => s
  end.

(** One iteration of the mapping loop of [_copy_id3_to_vorbis]. *)
Definition copy_mapped (frames : gmap string id3_frame)
    (dest : vcomment) (kv : string * string) : vcomment :=
  let '(id3_key, vorbis_key) := kv in
  match frames !! id3_key with
  | None => dest
  | Some (TextFrame text) =>
      match text with
      | [] => dest
      | [t] => <[vorbis_key := [t]]> dest
      | _ => <[vorbis_key := text]> dest
      end
  | Some (OtherFrame s) => <[vorbis_key := [s]]> dest
  end.

(** [str(source.tags[key].text[0])] *)
Definition first_text (f : id3_frame) : result string :=
  match f with
  | TextFrame (t :: _) => Ok t
  | TextFrame [] => Raise IndexError
  | OtherFrame _ => Raise AttributeError
  end.

(** The body shared by the track and the disc branch of
    [_parse_track_disc_numbers]. *)
Definition parse_number (frames : gmap string id3_frame)
    (id3_key number_key total_key : string) (dest : vcomment) : result vcomment :=
  match frames !! id3_key with
  | None => Ok dest
  | Some f =>
      track ← first_text f;
      if contains "/" track then
        match split1 "/"%char track with
        | [num; total] => Ok (<[total_key := [total]]> (<[number_key := [num]]> dest))
        | _ => Raise (ValueError "not enough values to unpack")
        end
      else Ok (<[number_key := [track]]> dest)
  end.

Definition _parse_track_disc_numbers (frames : gmap string id3_frame)
    (dest : vcomment) : result vcomment :=
  dest1 ← parse_number frames "TRCK" "TRACKNUMBER" "TRACKTOTAL" dest;
  parse_number frames "TPOS" "DISCNUMBER" "DISCTOTAL" dest1.

Definition _copy_id3_to_vorbis (source : audio) (dest : vcomment) : result vcomment :=
  if negb (tags_truthy (tags source)) then Ok dest
  else
    let frames := id3_frames (tags source) in
    _parse_track_disc_numbers frames (foldl (copy_mapped frames) dest TAG_MAPPING).

Definition copy_generic (dest : vcomment) (kv : string * tag_value) : vcomment :=
  match kv with
  | (key, ListValue items) => <[upper key := items]> dest
  | (key, ScalarValue s) => <[upper key := [s]]> dest
  end.

Definition _copy_generic_tags (source : audio) (dest : vcomment) : result vcomment :=
  if negb (tags_truthy (tags source)) then Ok dest
  else
    match tags source with
    | Some (GenericTags items) => Ok (foldl copy_generic dest items)
    | Some (ID3Tags frames) =>
        Ok (foldl (fun d kv => <[upper kv.1 := [str_frame kv.2]]> d)
                  dest (map_to_list frames))
    | None => Ok dest
    end.

(** [_copy_album_art]: extraction and embedding run under their own
    [try ... except Exception], which only logs. *)
Definition _copy_album_art (source : audio) (dest : vcomment) : result vcomment :=
  try_except
    (match art source with
     | ArtRaises e => Raise e
     | ArtNone => Ok dest
     | ArtPicture b64 => Ok (<["METADATA_BLOCK_PICTURE" := [b64]]> dest)
     end)
    (fun _ => Ok dest).

(** What the mutagen calls of [copy_tags] answer for the two paths. *)
Record tag_env := {
  File : result (option audio);          (* File(str(source_path)) *)
  OggOpus : result vcomment;             (* OggOpus(str(dest_path)) *)
  save : vcomment -> result unit         (* dest.save() *)
}.

(** [copy_tags] returns its boolean together with the comments it saved to
    the destination file, if it got that far. *)
Definition copy_tags (env : tag_env) : result (bool * option vcomment) :=
  try_except
    (source ← File env;
     match source with
     | None => Ok (false, None)
     | Some source =>
         if negb (tags_truthy (tags source)) then Ok (false, None)
         else
           dest ← OggOpus env;
           dest1 ← (if is_mp3 source then _copy_id3_to_vorbis source dest
                    else _copy_generic_tags source dest);
           dest2 ← _copy_album_art source dest1;
           _ ← save env dest2;
           Ok (true, Some dest2)
     end)
    (fun _ => Ok (false, None)).

(** ** Predicates of the statements about tags *)

(** A frame that is absent, or whose [text[0]] exists. *)
Definition readable (o : option id3_frame) : Prop :=
  match o with
  | None => True
  | Some (TextFrame (_ :: _)) => True
  | Some _ => False
  end.

(** What the claim says of a number tag with text [text]. *)
Definition number_written (text number_key total_key : string)
    (dest dest' : vcomment) : Prop :=
  (forall n m, text = n +:+ "/" +:+ m -> contains "/" n = false ->
     dest' !! number_key = Some [n] /\ dest' !! total_key = Some [m]) /\
  (contains "/" text = false ->
     dest' !! number_key = Some [text] /\ dest' !! total_key = dest !! total_key).

(** The steps of [copy_tags] all succeed: the source loads and is truthy,
    the destination opens, the tag copy returns and the save returns. *)
Definition all_steps_succeed (env : tag_env) : Prop :=
  exists source dest dest1 dest2,
    File env = Ok (Some source) /\ tags_truthy (tags source) = true /\
    OggOpus env = Ok dest /\
    (if is_mp3 source then _copy_id3_to_vorbis source dest
     else _copy_generic_tags source dest) = Ok dest1 /\
    _copy_album_art source dest1 = Ok dest2 /\
    save env dest2 = Ok tt.

End TagHandler.

(* ===================================================================== *)
(** * core/convert.py : ConversionJob and ConversionManager *)
(* ===================================================================== *)

Module Convert.

(** A [pathlib.Path], as its components below the filesystem root. *)
Abbreviation path := (list string).

(** [p.name] *)
Definition name (p : path) : string := List.last p "".

(** ** The filesystem seen by discovery and by the skip policy *)

Inductive node :=
| FileNode
| DirNode (entries : list (string * node)).

Fixpoint lookup_node (n : node) (p : path) : option node :=
  match p with
  | [] => Some n
  | c :: p' =>
      match n with
      | FileNode => None
      | DirNode entries =>
          (fix find (es : list (string * node)) : option node :=
             match es with
             | [] => None
             | (k, sub) :: es' =>
                 if String.eqb k c then lookup_node sub p' else find es'
             end) entries
      end
  end.

(** [p.exists()] *)
Definition exists_ (fs : node) (p : path) : bool :=
  match lookup_node fs p with Some _ => true | None => false end.

(** [name.endswith(suffix)] *)
Definition endswith (suffix s : string) : bool :=
  startswith (String.rev suffix) (String.rev s).

(** Paths, relative to a directory, of all entries below it whose name
    matches ["*.mp3"]: first the matches of the directory itself, then those
    of its sub-directories, in listing order.  Nothing below a file. *)
Fixpoint rglob_mp3 (n : node) : list path :=
  match n with
  | FileNode => []
  | DirNode entries =>
      (fix here (es : list (string * node)) : list path :=
         match es with
         | [] => []
         | (k, _) :: es' => if endswith ".mp3" k then [k] :: here es' else here es'
         end) entries
      ++
      (fix below (es : list (string * node)) : list path :=
         match es with
         | [] => []
         | (k, sub) :: es' => List.map (cons k) (rglob_mp3 sub) ++ below es'
         end) entries
  end.

(** [Path(root).rglob("*.mp3")], relative to [root]: empty when [root] is
    missing or is not a directory. *)
Definition rglob (fs : node) (root : path) : list path :=
  match lookup_node fs root with
  | Some n => rglob_mp3 n
  | None => []
  end.

(** Index of the last occurrence of [c] in [s] ([s.rfind(c)]). *)
Fixpoint rfind (c : ascii) (s : string) : option nat :=
  match s with
  | EmptyString => None
  | String a s' =>
      match rfind c s' with
      | Some i => Some (S i)
      | None => if Ascii.eqb a c then Some 0%nat else None
      end
  end.

(** [PurePath.with_suffix] on the final component: the old suffix starts at
    the last dot unless that dot is the first or the last character. *)
Definition name_with_suffix (suffix nm : string) : string :=
  match rfind "."%char nm with
  | Some i =>
      if ((0 <? i)%nat && (i <? String.length nm - 1)%nat)%bool
      then String.substring 0 i nm +:+ suffix
      else nm +:+ suffix
  | None => nm +:+ suffix
  end.

Definition with_suffix (suffix : string) (p : path) : path :=
  match List.rev p with
  | [] => []
  | nm :: front => List.rev front ++ [name_with_suffix suffix nm]
  end.

(** ** Settings (core/settings.py), the fields the core reads *)

Record Settings := {
  source_folder : path;
  dest_folder : path;
  engine : string;
  bitrate : Z;
  skip_existing : bool;
  genre_bitrate_boost : bool;
  max_threads : Z;
  replaygain_mode : string
}.

(** ** ConversionJob *)

Inductive status := pending | processing | skipped | completed | error.

#[global] Instance status_eq_dec : EqDecision status.
Proof. solve_decision. Defined.

Record ConversionJob := {
  source_path : path;
  dest_path : path;
  progress : Q;
  job_status : status;
  job_error : option string
}.

(** [ConversionJob.__init__] *)
Definition new_job (src dst : path) : ConversionJob :=
  {| source_path := src; dest_path := dst; progress := 0;
     job_status := pending; job_error := None |}.

Definition set_status (st : status) (j : ConversionJob) : ConversionJob :=
  {| source_path := source_path j; dest_path := dest_path j;
     progress := progress j; job_status := st; job_error := job_error j |}.

Definition set_progress (p : Q) (j : ConversionJob) : ConversionJob :=
  {| source_path := source_path j; dest_path := dest_path j;
     progress := p; job_status := job_status j; job_error := job_error j |}.

Definition set_error (e : string) (j : ConversionJob) : ConversionJob :=
  {| source_path := source_path j; dest_path := dest_path j;
     progress := progress j; job_status := job_status j; job_error := Some e |}.

(** ** What the outside world answers *)

Inductive genre_read :=
| ReadRaises (e : exn)        (* mutagen raised while loading or reading *)
| ReadNoTags                  (* [audio] or [audio.tags] is falsy *)
| ReadGenre (genre : string). (* str(audio.tags.get('TCON', '')) *)

Inductive engine_kind := OpusencEngine | FFmpegEngine.

Inductive encode_result :=
| EncodeReturns (success : bool)
| EncodeRaises (e : exn).

Record env := {
  fs : node;
  scan_fault : option exn;                 (* an OS error while walking *)
  mkdir_fault : path -> option exn;        (* parent.mkdir(parents, exist_ok) *)
  read_genre : path -> genre_read;
  (* engine, source, bitrate: progress callbacks, then the outcome *)
  encode : engine_kind -> path -> Z -> list Q * encode_result;
  tag_env : path -> path -> TagHandler.tag_env;
  opusgain_path : option string;           (* self.discovery.opusgain_path *)
  run_opusgain : path -> option exn        (* subprocess.run(cmd, check=True) *)
}.

(** ** ConversionManager *)

Record executor_state := {
  max_workers : Z;
  shutdown : bool
}.

Record ConversionManager := {
  settings : Settings;
  is_running : bool;
  is_paused : bool;
  should_cancel : bool;
  jobs : list ConversionJob;
  active_engines : list nat;      (* an engine is named by the job it serves *)
  executor : option executor_state;
  converted_count : Z;
  skipped_count : Z;
  error_count : Z
}.

(** [ConversionManager.__init__] *)
Definition new_manager (s : Settings) : ConversionManager :=
  {| settings := s; is_running := false; is_paused := false;
     should_cancel := false; jobs := []; active_engines := [];
     executor := None; converted_count := 0; skipped_count := 0;
     error_count := 0 |}.

(** [_discover_files] *)
Definition _discover_files (e : env) (m : ConversionManager) : result (list ConversionJob) :=
  let source_dir := source_folder (settings m) in
  let dest_dir := dest_folder (settings m) in
  match scan_fault e with
  | Some x => Raise x
  | None =>
      Ok (List.map (fun rel_path =>
                      new_job (source_dir ++ rel_path)
                              (dest_dir ++ with_suffix ".opus" rel_path))
                   (rglob (fs e) source_dir))
  end.

(** [_should_skip] *)
Definition _should_skip (e : env) (m : ConversionManager) (job : ConversionJob) : bool :=
  if negb (skip_existing (settings m)) then false
  else if exists_ (fs e) (dest_path job) then true
  else false.

Definition complex_genres : list string :=
  ["classical"; "edm"; "electronic"; "metal"; "jazz"].

(** [min(int(bitrate * 1.25), 320)], computed in binary64. *)
Definition boosted (bitrate : Z) : result Z :=
  x ← binary64_of_int bitrate;
  v ← int_of_times_1_25 x;
  Ok (Z.min v 320).

(** The loop [for g in complex_genres: if g in genre: return ...]; [None]
    when the loop ends without returning. *)
Fixpoint boost_loop (genres : list string) (genre : string) (bitrate : Z)
    : option (result Z) :=
  match genres with
  | [] => None
  | g :: genres' =>
      if contains g genre then Some (boosted bitrate)
      else boost_loop genres' genre bitrate
  end.

(** [_get_adjusted_bitrate] *)
Definition _get_adjusted_bitrate (e : env) (m : ConversionManager)
    (job : ConversionJob) : result Z :=
  let bitrate := bitrate (settings m) in
  if negb (genre_bitrate_boost (settings m)) then Ok bitrate
  else
    try_except
      (match read_genre e (source_path job) with
       | ReadRaises x => Raise x
       | ReadNoTags => Ok bitrate
       | ReadGenre g =>
           match boost_loop complex_genres (lower g) bitrate with
           | Some returned => returned
           | None => Ok bitrate
           end
       end)
      (fun _ => Ok bitrate).

(** [sum(job.progress for job in self.jobs if job.status == "processing")] *)
Definition in_progress_sum (js : list ConversionJob) : Q :=
  foldl Qplus 0%Q
    (List.map progress
       (List.filter (fun j => bool_decide (job_status j = processing)) js)).

Definition completed_total (m : ConversionManager) : Z :=
  converted_count m + skipped_count m + error_count m.

(** [_calculate_overall_progress] *)
Definition _calculate_overall_progress (m : ConversionManager) : result Q :=
  match jobs m with
  | [] => Ok 0%Q
  | _ =>
      let completed := completed_total m in
      let in_progress := in_progress_sum (jobs m) in
      truediv (float_of_int completed + in_progress)
              (float_of_int (Z.of_nat (length (jobs m))))
  end.

(** [_apply_replaygain]: a missing tool returns at once, and any failure of
    the tool is caught and logged. *)
Definition _apply_replaygain (e : env) (opus_path : path) : result unit :=
  match opusgain_path e with
  | None | Some EmptyString => Ok tt          (* not self.discovery.opusgain_path *)
  | Some _ =>
      try_except
        (match run_opusgain e opus_path with
         | Some x => Raise x
         | None => Ok tt
         end)
        (fun _ => Ok tt)
  end.

(** ** Manager field updates *)

Definition begin_run (m : ConversionManager) : ConversionManager :=
  {| settings := settings m; is_running := true; is_paused := is_paused m;
     should_cancel := false; jobs := jobs m;
     active_engines := active_engines m; executor := executor m;
     converted_count := 0; skipped_count := 0; error_count := 0 |}.

Definition set_is_running (b : bool) (m : ConversionManager) : ConversionManager :=
  {| settings := settings m; is_running := b; is_paused := is_paused m;
     should_cancel := should_cancel m; jobs := jobs m;
     active_engines := active_engines m; executor := executor m;
     converted_count := converted_count m; skipped_count := skipped_count m;
     error_count := error_count m |}.

Definition set_is_paused (b : bool) (m : ConversionManager) : ConversionManager :=
  {| settings := settings m; is_running := is_running m; is_paused := b;
     should_cancel := should_cancel m; jobs := jobs m;
     active_engines := active_engines m; executor := executor m;
     converted_count := converted_count m; skipped_count := skipped_count m;
     error_count := error_count m |}.

Definition set_should_cancel (b : bool) (m : ConversionManager) : ConversionManager :=
  {| settings := settings m; is_running := is_running m; is_paused := is_paused m;
     should_cancel := b; jobs := jobs m;
     active_engines := active_engines m; executor := executor m;
     converted_count := converted_count m; skipped_count := skipped_count m;
     error_count := error_count m |}.

Definition set_jobs (js : list ConversionJob) (m : ConversionManager) : ConversionManager :=
  {| settings := settings m; is_running := is_running m; is_paused := is_paused m;
     should_cancel := should_cancel m; jobs := js;
     active_engines := active_engines m; executor := executor m;
     converted_count := converted_count m; skipped_count := skipped_count m;
     error_count := error_count m |}.

Definition set_active_engines (l : list nat) (m : ConversionManager) : ConversionManager :=
  {| settings := settings m; is_running := is_running m; is_paused := is_paused m;
     should_cancel := should_cancel m; jobs := jobs m;
     active_engines := l; executor := executor m;
     converted_count := converted_count m; skipped_count := skipped_count m;
     error_count := error_count m |}.

Definition set_executor (x : option executor_state) (m : ConversionManager) : ConversionManager :=
  {| settings := settings m; is_running := is_running m; is_paused := is_paused m;
     should_cancel := should_cancel m; jobs := jobs m;
     active_engines := active_engines m; executor := x;
     converted_count := converted_count m; skipped_count := skipped_count m;
     error_count := error_count m |}.

Inductive counter := Converted | Skipped | Errored.

#[global] Instance counter_eq_dec : EqDecision counter.
Proof. solve_decision. Defined.

(** [self.<counter> += 1] *)
Definition increment (c : counter) (m : ConversionManager) : ConversionManager :=
  {| settings := settings m; is_running := is_running m; is_paused := is_paused m;
     should_cancel := should_cancel m; jobs := jobs m;
     active_engines := active_engines m; executor := executor m;
     converted_count := (if c is Converted then converted_count m + 1 else converted_count m);
     skipped_count := (if c is Skipped then skipped_count m + 1 else skipped_count m);
     error_count := (if c is Errored then error_count m + 1 else error_count m) |}.

(** Mutation of the job object [self.jobs[i]]. *)
Definition update_job (i : nat) (f : ConversionJob -> ConversionJob)
    (m : ConversionManager) : ConversionManager :=
  set_jobs (alter f i (jobs m)) m.

(** ** Messages put on the queue *)

Inductive message :=
| LogMsg (text : string) (level : string)
| ProgressMsg (overall current : Q) (file : string)
| CompleteMsg (converted skipped errors : Z)
| ErrorMsg (text : string).

(** ** The threads of a run

    A run has the thread executing [convert_batch], the threads of the
    pool, each executing [_process_job] for one job at a time, and the UI
    thread calling [pause], [resume] and [cancel].  Each thread has a
    program point; one step of the machine executes the statements between
    two program points of one thread. *)

(** Program points of [convert_batch]. *)
Inductive dpc :=
| DEnter                (* lines 64-75: flags, counters, first log *)
| DDiscover             (* lines 77-97: discovery, pool creation *)
| DLoop (i : nat)       (* lines 99-101: next job, cancel check *)
| DPaused (i : nat)     (* lines 104-105: the pause loop *)
| DSkipCheck (i : nat)  (* lines 108-115 *)
| DSubmit (i : nat)     (* lines 118-123 *)
| DProgress (i : nat)   (* lines 126-132 *)
| DWait (k : nat)       (* lines 135-137: next future, cancel check *)
| DResult (k : nat)     (* lines 139-143: future.result() *)
| DComplete             (* lines 146-150 *)
| DFinally              (* lines 158-162 *)
| DReturned.

(** Program points of [_process_job]. *)
Inductive wpc :=
| WBegin                                          (* lines 199-212 *)
| WEncode (callbacks : list Q) (outcome : encode_result)  (* inside engine.encode *)
| WSuccess                                        (* lines 238-252 *)
| WExcept (e : exn) (engine_bound : bool)         (* lines 254-263 *)
| WFinally (engine_bound : bool).                 (* lines 265-267 *)

(** State of a [Future]; a running one records where the pool thread that
    executes its work item is. *)
Inductive fstate :=
| FPending
| FRunning (at_pc : wpc)
| FCancelled
| FDone (raised : option exn).

Record future := { fut_job : nat; fut_state : fstate }.

Definition set_fstate (st : fstate) (f : future) : future :=
  {| fut_job := fut_job f; fut_state := st |}.

Definition is_pending (f : future) : bool :=
  match fut_state f with FPending => true | _ => false end.

Definition is_running_future (f : future) : bool :=
  match fut_state f with FRunning _ => true | _ => false end.

(** Program points of the UI thread: idle, or inside [cancel]. *)
Inductive upc :=
| UIdle
| UCancelEngines      (* lines 346-347 *)
| UCancelShutdown.    (* lines 350-351 *)

Record state := {
  mgr : ConversionManager;
  message_queue : list message;
  pc : dpc;
  futures : list future;       (* the dict [futures], in insertion order;
                                  its pending entries are the work queue,
                                  its running entries the busy threads *)
  pool_size : Z;               (* [_max_workers] of the pool of this run,
                                  which its threads keep once the manager
                                  has dropped its reference; 0 before *)
  ui : upc;
  ledger : list (counter * nat)  (* auxiliary: which job each increment was for *)
}.

Definition set_mgr (m : ConversionManager) (s : state) : state :=
  {| mgr := m; message_queue := message_queue s; pc := pc s;
     futures := futures s; pool_size := pool_size s;
     ui := ui s; ledger := ledger s |}.

Definition on_mgr (f : ConversionManager -> ConversionManager) (s : state) : state :=
  set_mgr (f (mgr s)) s.

(** [message_queue.put(msg)] *)
Definition put (msg : message) (s : state) : state :=
  {| mgr := mgr s; message_queue := message_queue s ++ [msg]; pc := pc s;
     futures := futures s; pool_size := pool_size s;
     ui := ui s; ledger := ledger s |}.

Definition goto (p : dpc) (s : state) : state :=
  {| mgr := mgr s; message_queue := message_queue s; pc := p;
     futures := futures s; pool_size := pool_size s;
     ui := ui s; ledger := ledger s |}.

Definition set_futures (fs : list future) (s : state) : state :=
  {| mgr := mgr s; message_queue := message_queue s; pc := pc s;
     futures := fs; pool_size := pool_size s;
     ui := ui s; ledger := ledger s |}.

Definition set_pool_size (n : Z) (s : state) : state :=
  {| mgr := mgr s; message_queue := message_queue s; pc := pc s;
     futures := futures s; pool_size := n;
     ui := ui s; ledger := ledger s |}.

Definition set_ui (u : upc) (s : state) : state :=
  {| mgr := mgr s; message_queue := message_queue s; pc := pc s;
     futures := futures s; pool_size := pool_size s;
     ui := u; ledger := ledger s |}.

(** A counter increment made on behalf of job [j]. *)
Definition bump (c : counter) (j : nat) (s : state) : state :=
  {| mgr := increment c (mgr s); message_queue := message_queue s; pc := pc s;
     futures := futures s; pool_size := pool_size s;
     ui := ui s; ledger := ledger s ++ [(c, j)] |}.

(** The state in which [convert_batch] is entered on manager [m]. *)
Definition enter (m : ConversionManager) : state :=
  {| mgr := m; message_queue := []; pc := DEnter; futures := [];
     pool_size := 0; ui := UIdle; ledger := [] |}.

(** ** Steps of [convert_batch] *)

(** The handler [except Exception as e] of [convert_batch], followed by the
    jump to [finally]. *)
Definition fail_batch (x : exn) (s : state) : state :=
  goto DFinally (put (ErrorMsg ("Batch conversion failed: " +:+ str_exn x)) s).

(** [future.cancel()]: only a pending future becomes cancelled. *)
Definition cancel_future (f : future) : future :=
  match fut_state f with
  | FPending => set_fstate FCancelled f
  | _ => f
  end.

Definition dispatch_step (e : env) (s : state) : option state :=
  let m := mgr s in
  match pc s with
  | DEnter =>
      Some (goto DDiscover
              (put (LogMsg "Scanning for MP3 files..." "info")
                 (on_mgr begin_run s)))
  | DDiscover =>
      match _discover_files e m with
      | Raise x => Some (fail_batch x s)
      | Ok js =>
          let s1 := on_mgr (set_jobs js) s in
          let total_jobs := length js in
          if (total_jobs =? 0)%nat then
            Some (goto DFinally
                    (put (LogMsg "No MP3 files found in source directory" "warning") s1))
          else
            let s2 :=
              put (LogMsg ("Found " +:+ pretty total_jobs +:+ " MP3 files to convert")
                          "info") s1 in
            let workers := Z.min (max_threads (settings m)) (Z.of_nat total_jobs) in
            if workers <=? 0 then
              Some (fail_batch (ValueError "max_workers must be greater than 0") s2)
            else
              Some (goto (DLoop 0)
                      (set_pool_size workers
                         (on_mgr (set_executor
                                    (Some {| max_workers := workers;
                                             shutdown := false |})) s2)))
      end
  | DLoop i =>
      match jobs m !! i with
      | None => Some (goto (DWait 0) s)
      | Some _ =>
          if should_cancel m then Some (goto (DWait 0) s)
          else Some (goto (DPaused i) s)
      end
  | DPaused i =>
      if (is_paused m && negb (should_cancel m))%bool
      then Some s                                   (* time.sleep(0.1) *)
      else Some (goto (DSkipCheck i) s)
  | DSkipCheck i =>
      match jobs m !! i with
      | None => None
      | Some job =>
          if _should_skip e m job then
            Some (goto (DLoop (S i))
                    (put (LogMsg ("Skipped: " +:+ name (source_path job)) "info")
                       (on_mgr (update_job i (set_status skipped))
                          (bump Skipped i s))))
          else Some (goto (DSubmit i) s)
      end
  | DSubmit i =>
      match jobs m !! i with
      | None => None
      | Some _ =>
          match executor m with
          | None => Some (fail_batch AttributeError s)
          | Some ex =>
              if shutdown ex then
                Some (fail_batch
                        (RuntimeError "cannot schedule new futures after shutdown") s)
              else
                (* the work item holds [job]; it is named by its index *)
                Some (goto (DProgress i)
                        (set_futures
                           (futures s ++ [{| fut_job := i; fut_state := FPending |}]) s))
          end
      end
  | DProgress i =>
      match jobs m !! i with
      | None => None
      | Some job =>
          match truediv (float_of_int (completed_total m))
                        (float_of_int (Z.of_nat (length (jobs m)))) with
          | Raise x => Some (fail_batch x s)
          | Ok overall =>
              Some (goto (DLoop (S i))
                      (put (ProgressMsg overall 0 (name (source_path job))) s))
          end
      end
  | DWait k =>
      match futures s !! k with
      | None => Some (goto DComplete s)
      | Some _ =>
          if should_cancel m then
            Some (goto (DWait (S k))
                    (set_futures (alter cancel_future k (futures s)) s))
          else Some (goto (DResult k) s)
      end
  | DResult k =>
      match futures s !! k with
      | None => None
      | Some f =>
          match fut_state f with
          | FDone None => Some (goto (DWait (S k)) s)
          | FDone (Some _) | FCancelled =>
              Some (goto (DWait (S k)) (bump Errored (fut_job f) s))
          | FPending | FRunning _ => None           (* still blocked *)
          end
      end
  | DComplete =>
      Some (goto DFinally
              (put (CompleteMsg (converted_count m) (skipped_count m)
                                (error_count m)) s))
  | DFinally =>
      Some (goto DReturned
              (on_mgr (fun m => set_executor None (set_is_running false m)) s))
  | DReturned => None
  end.

(** ** Steps of a pool thread *)

(** An idle thread takes the first pending work item; the pool never runs
    more than [_max_workers] items at once. *)
Definition spawn_step (s : state) : option state :=
  if Z.of_nat (length (List.filter is_running_future (futures s))) <? pool_size s then
    match list_find (fun f => is_pending f = true) (futures s) with
    | None => None
    | Some (k, _) =>
        Some (set_futures (alter (set_fstate (FRunning WBegin)) k (futures s)) s)
    end
  else None.

(** [_create_engine] *)
Definition _create_engine (m : ConversionManager) : engine_kind :=
  if String.eqb (engine (settings m)) "opusenc" then OpusencEngine
  else FFmpegEngine.

(** [p.parent] *)
Definition parent (p : path) : path := removelast p.

(** [self.active_engines.remove(engine)]: the first occurrence. *)
Fixpoint remove_first (x : nat) (l : list nat) : list nat :=
  match l with
  | [] => []
  | y :: l' => if (x =? y)%nat then l' else y :: remove_first x l'
  end.

(** One step of the thread that runs the work item of future [k], for job
    [j], from program point [p]. *)
Definition task_step (e : env) (k j : nat) (p : wpc) (s : state) : option state :=
  let at_pc p' s' :=
    set_futures (alter (set_fstate (FRunning p')) k (futures s')) s' in
  let resolve r s' :=
    set_futures (alter (set_fstate (FDone r)) k (futures s')) s' in
  match jobs (mgr s) !! j with
  | None => None
  | Some job =>
      match p with
      | WBegin =>
          let s1 := put (LogMsg ("Converting: " +:+ name (source_path job)) "info") s in
          match mkdir_fault e (parent (dest_path job)) with
          | Some x => Some (at_pc (WExcept x false) s1)
          | None =>
              let s2 := on_mgr (fun m => set_active_engines (active_engines m ++ [j]) m) s1 in
              match _get_adjusted_bitrate e (mgr s2) job with
              | Raise x => Some (at_pc (WExcept x true) s2)
              | Ok rate =>
                  let '(callbacks, outcome) :=
                    encode e (_create_engine (mgr s2)) (source_path job) rate in
                  Some (at_pc (WEncode callbacks outcome) s2)
              end
          end
      | WEncode (q :: callbacks) outcome =>
          (* progress_callback(q), called from the engine's reader loop *)
          let s1 := on_mgr (update_job j (set_progress q)) s in
          match _calculate_overall_progress (mgr s1) with
          | Raise _ =>
              (* caught by the engine, which then reports failure *)
              Some (at_pc (WEncode [] (EncodeReturns false)) s1)
          | Ok overall =>
              Some (at_pc (WEncode callbacks outcome)
                      (put (ProgressMsg overall q (name (source_path job))) s1))
          end
      | WEncode [] (EncodeReturns true) => Some (at_pc WSuccess s)
      | WEncode [] (EncodeReturns false) =>
          Some (at_pc (WExcept (Exception "Encoding failed") true) s)
      | WEncode [] (EncodeRaises x) => Some (at_pc (WExcept x true) s)
      | WSuccess =>
          match TagHandler.copy_tags (tag_env e (source_path job) (dest_path job)) with
          | Raise x => Some (at_pc (WExcept x true) s)
          | Ok _ =>
              match (if String.eqb (replaygain_mode (settings (mgr s))) "off"
                     then Ok tt else _apply_replaygain e (dest_path job)) with
              | Raise x => Some (at_pc (WExcept x true) s)
              | Ok _ =>
                  Some (at_pc (WFinally true)
                          (put (LogMsg ("Completed: " +:+ name (dest_path job)) "success")
                             (on_mgr (update_job j (set_status completed))
                                (bump Converted j s))))
              end
          end
      | WExcept x bound =>
          Some (at_pc (WFinally bound)
                  (put (LogMsg ("Failed: " +:+ name (source_path job) +:+ " - "
                                +:+ str_exn x) "error")
                     (on_mgr (update_job j (fun jb => set_error (str_exn x)
                                                        (set_status error jb)))
                        (bump Errored j s))))
      | WFinally bound =>
          if bound then
            Some (resolve None
                    (on_mgr (fun m => set_active_engines
                                        (remove_first j (active_engines m)) m) s))
          else
            Some (resolve (Some (UnboundLocalError
                                   "local variable 'engine' referenced before assignment")) s)
      end
  end.

(** The pool thread serving job [j] takes a step. *)
Definition work_step (e : env) (j : nat) (s : state) : option state :=
  match list_find (fun f => fut_job f = j /\ is_running_future f = true) (futures s) with
  | Some (k, {| fut_state := FRunning p |}) => task_step e k j p s
  | _ => None
  end.

(** ** Steps of the UI thread *)

(** [engine.cancel()] on the engines of [active]: a running encoder process
    is terminated, so its [encode] reports failure without further
    progress. *)
Definition terminate (active : list nat) (f : future) : future :=
  match fut_state f with
  | FRunning (WEncode _ _) =>
      if bool_decide (fut_job f ∈ active)
      then set_fstate (FRunning (WEncode [] (EncodeReturns false))) f
      else f
  | _ => f
  end.

Definition shutdown_executor (x : option executor_state) : option executor_state :=
  match x with
  | Some ex => Some {| max_workers := max_workers ex; shutdown := true |}
  | None => None
  end.

Inductive action :=
| Dispatch            (* the thread in [convert_batch] *)
| Spawn               (* an idle pool thread dequeues a work item *)
| Work (j : nat)      (* the pool thread serving job [j] *)
| CallPause           (* the UI thread runs [pause()] *)
| CallResume          (* the UI thread runs [resume()] *)
| CallCancel          (* the UI thread enters [cancel()]: line 343 *)
| CancelStep.         (* the UI thread continues inside [cancel()] *)

Definition step (e : env) (a : action) (s : state) : option state :=
  match a with
  | Dispatch => dispatch_step e s
  | Spawn => spawn_step s
  | Work j => work_step e j s
  | CallPause =>
      if ui s is UIdle then Some (on_mgr (set_is_paused true) s) else None
  | CallResume =>
      if ui s is UIdle then Some (on_mgr (set_is_paused false) s) else None
  | CallCancel =>
      if ui s is UIdle
      then Some (set_ui UCancelEngines (on_mgr (set_should_cancel true) s))
      else None
  | CancelStep =>
      match ui s with
      | UIdle => None
      | UCancelEngines =>
          Some (set_ui UCancelShutdown
                  (set_futures (List.map (terminate (active_engines (mgr s))) (futures s)) s))
      | UCancelShutdown =>
          Some (set_ui UIdle
                  (on_mgr (fun m => set_executor (shutdown_executor (executor m)) m) s))
      end
  end.

(** Running a schedule: [None] when some action is not enabled. *)
Fixpoint run (e : env) (acts : list action) (s : state) : option state :=
  match acts with
  | [] => Some s
  | a :: acts' =>
      match step e a s with
      | Some s' => run e acts' s'
      | None => None
      end
  end.

(** The states visited by a schedule, the first one included. *)
Fixpoint trace (e : env) (acts : list action) (s : state) : list state :=
  s :: match acts with
       | [] => []
       | a :: acts' =>
           match step e a s with
           | Some s' => trace e acts' s'
           | None => []
           end
       end.

(** ** Predicates of the statements about the core *)



(** The sum of the fractions of the jobs in progress, as the claim words it. *)
Fixpoint sum_in_progress (js : list ConversionJob) : Q :=
  match js with
  | [] => 0
  | j :: js' =>
      if bool_decide (job_status j = processing)
      then (progress j + sum_in_progress js')%Q
      else sum_in_progress js'
  end.

Definition future_started (f : future) : bool :=
  match fut_state f with FRunning _ | FDone _ => true | _ => false end.

Definition started_in (fs : list future) (j : nat) : Prop :=
  exists f, f ∈ fs /\ fut_job f = j /\ future_started f = true.

(** A pool thread has begun [_process_job] for job [j]. *)
Definition started (s : state) (j : nat) : Prop := started_in (futures s) j.

(** Jobs handed to the pool so far, in submission order. *)
Definition submitted (s : state) : list nat := fut_job <$> futures s.

Definition fresh_jobs (m : ConversionManager) : Prop :=
  Forall (fun j => job_status j = pending) (jobs m).

(** Number of increments of counter [c] recorded in a ledger. *)
Definition count_of (c : counter) (l : list (counter * nat)) : Z :=
  Z.of_nat (length (List.filter (fun x => bool_decide (x.1 = c)) l)).

(** A call of [cancel()] made during this run has returned. *)
Definition cancel_returned (s : state) : Prop :=
  pc s <> DEnter /\ should_cancel (mgr s) = true /\ ui s = UIdle.

Definition discovery_message (r : result (list ConversionJob)) : message :=
  match r with
  | Raise x => ErrorMsg ("Batch conversion failed: " +:+ str_exn x)
  | Ok _ => LogMsg "No MP3 files found in source directory" "warning"
  end.

End Convert.
Import Convert.

(* ===================================================================== *)
(** * Invariants of a run *)
(* ===================================================================== *)

Module Invariants.

Definition before_loop (p : dpc) : bool :=
  match p with DEnter | DDiscover => true | _ => false end.

(** Index of the first future the wait loop has not yet looked at. *)
Definition wait_from (p : dpc) : option nat :=
  match p with
  | DWait k | DResult k => Some k
  | DComplete | DFinally | DReturned => None
  | _ => Some 0%nat
  end.

Definition in_loop (p : dpc) : bool :=
  match p with
  | DLoop _ | DPaused _ | DSkipCheck _ | DSubmit _ | DProgress _ => true
  | _ => false
  end.

(** Between the cancel check of the loop head and the submission. *)
Definition in_body (p : dpc) : bool :=
  match p with
  | DPaused _ | DSkipCheck _ | DSubmit _ => true
  | _ => false
  end.

Definition pool_shut (s : state) : Prop :=
  exists ex, executor (mgr s) = Some ex /\ shutdown ex = true.

Definition quiet_inv (s : state) : Prop :=
  before_loop (pc s) = true -> ledger s = [] /\ futures s = [].

Definition uncancelled_inv (s : state) : Prop :=
  forall k, wait_from (pc s) = Some k ->
  forall k' f, (k <= k')%nat -> futures s !! k' = Some f -> fut_state f <> FCancelled.

Definition counters_inv (s : state) : Prop :=
  pc s <> DEnter ->
  converted_count (mgr s) = count_of Converted (ledger s) /\
  skipped_count (mgr s) = count_of Skipped (ledger s) /\
  error_count (mgr s) = count_of Errored (ledger s).

Definition status_inv (s : state) : Prop :=
  forall j job, jobs (mgr s) !! j = Some job -> job_status job <> pending ->
  job_status job = skipped \/ started s j.

Definition ledger_inv (s : state) : Prop :=
  forall c j, (c, j) ∈ ledger s ->
  (exists job, jobs (mgr s) !! j = Some job /\ job_status job = skipped) \/ started s j.

Definition executor_inv (s : state) : Prop :=
  (in_loop (pc s) = true -> is_Some (executor (mgr s))) /\
  (cancel_returned s -> in_body (pc s) = true -> pool_shut s).


(** Everything the proofs need to know of a state reached by a run. *)
Definition run_inv (s : state) : Prop :=
  quiet_inv s /\ uncancelled_inv s /\ counters_inv s /\ status_inv s /\
  ledger_inv s /\ executor_inv s.

(** The states of a run that ends at discovery, with [last] as the one
    message that follows the scanning log. *)
Definition ends_at_discovery (last : message) (m : ConversionManager)
    (s : state) : Prop :=
  settings (mgr s) = settings m /\ futures s = [] /\ pool_size s = 0 /\
  ledger s = [] /\
  ((pc s = DEnter /\ message_queue s = []) \/
   (pc s = DDiscover /\
    message_queue s = [LogMsg "Scanning for MP3 files..." "info"]) \/
   ((pc s = DFinally \/ pc s = DReturned) /\
    message_queue s = [LogMsg "Scanning for MP3 files..." "info"; last])).

(** Only [future.cancel()] makes a cancelled future. *)
Definition no_new_cancel (l l' : list future) : Prop :=
  forall k f', l' !! k = Some f' -> fut_state f' = FCancelled ->
  exists f, l !! k = Some f /\ fut_state f = FCancelled.

(** Future updates that keep every started future started, for the same job. *)
Definition keeps_started (g : future -> future) : Prop :=
  forall f, future_started f = true ->
            future_started (g f) = true /\ fut_job (g f) = fut_job f.

(** ** Counting the jobs *)

(** Position of the dispatch loop: the jobs from this index on have not
    been looked at. *)
Definition loop_index (p : dpc) : option nat :=
  match p with
  | DEnter | DDiscover => Some 0%nat
  | DLoop i | DPaused i | DSkipCheck i | DSubmit i => Some i
  | DProgress i => Some (S i)
  | _ => None
  end.

(** Jobs for which some counter was incremented. *)
Definition counted (s : state) : list nat := snd <$> ledger s.

Definition frontier_inv (s : state) : Prop :=
  forall i, loop_index (pc s) = Some i ->
  forall j job, (i <= j)%nat -> jobs (mgr s) !! j = Some job ->
    job_status job = pending /\ (j ∉ submitted s) /\ (j ∉ counted s).

(** The pool thread of a future has not yet counted its job. *)
Definition uncounted_phase (st : fstate) : bool :=
  match st with
  | FPending | FCancelled => true
  | FRunning (WFinally _) => false
  | FRunning _ => true
  | FDone _ => false
  end.

(** A job is counted exactly when its pool thread is past the increment. *)
Definition phase_ok (st : fstate) (job : ConversionJob) (j : nat)
    (cnt : list nat) : Prop :=
  if uncounted_phase st
  then job_status job = pending /\ j ∉ cnt
  else job_status job <> pending /\ j ∈ cnt.

Definition phase_inv (s : state) : Prop :=
  forall k f job, futures s !! k = Some f -> jobs (mgr s) !! fut_job f = Some job ->
    phase_ok (fut_state f) job (fut_job f) (counted s).

(** No pool thread went through [except] with [engine] unbound. *)
Definition bound_engine (st : fstate) : bool :=
  match st with
  | FRunning (WExcept _ false) | FRunning (WFinally false) | FDone (Some _) => false
  | _ => true
  end.

Definition no_slip_inv (s : state) : Prop :=
  forall k f, futures s !! k = Some f -> bound_engine (fut_state f) = true.

(** The counted jobs are, without repetition, the jobs that are no longer
    pending. *)
Definition tally_ok (js : list ConversionJob) (cnt : list nat) : Prop :=
  NoDup cnt /\
  (forall j, j ∈ cnt -> exists job, js !! j = Some job /\ job_status job <> pending) /\
  (forall j job, js !! j = Some job -> job_status job <> pending -> j ∈ cnt).

Definition tally_inv (s : state) : Prop := tally_ok (jobs (mgr s)) (counted s).

Definition count_inv (s : state) : Prop :=
  NoDup (submitted s) /\ frontier_inv s /\ phase_inv s /\ no_slip_inv s /\
  tally_inv s.

Definition is_done (f : future) : bool :=
  match fut_state f with FDone _ => true | _ => false end.

(** Every job was skipped or handed to the pool, and every future is
    resolved. *)
Definition all_resolved (s : state) : Prop :=
  (forall j job, jobs (mgr s) !! j = Some job ->
     job_status job = skipped \/ j ∈ submitted s) /\
  (forall k f, futures s !! k = Some f -> is_done f = true).

Definition after_loop (p : dpc) : bool :=
  match p with DWait _ | DResult _ | DComplete => true | _ => false end.

Definition completing (p : dpc) : bool :=
  match p with DFinally | DReturned => true | _ => false end.

(** Number of futures the wait loop has seen resolved. *)
Definition waited (p : dpc) : option nat :=
  match p with
  | DWait k | DResult k => Some k
  | _ => None
  end.

Definition covered (s : state) (j : nat) : Prop :=
  forall job, jobs (mgr s) !! j = Some job ->
  job_status job = skipped \/ j ∈ submitted s.

Definition flag_clear (s : state) : Prop :=
  pc s <> DEnter -> should_cancel (mgr s) = false.

Definition no_complete_yet (s : state) : Prop :=
  completing (pc s) = false -> forall c k r, CompleteMsg c k r ∉ message_queue s.

Definition loop_covered (s : state) : Prop :=
  (forall i, loop_index (pc s) = Some i -> forall j, (j < i)%nat -> covered s j) /\
  (after_loop (pc s) = true -> forall j, covered s j).

Definition wait_resolved (s : state) : Prop :=
  (forall k, waited (pc s) = Some k ->
     forall k' f, (k' < k)%nat -> futures s !! k' = Some f -> is_done f = true) /\
  (pc s = DComplete -> forall k f, futures s !! k = Some f -> is_done f = true).

Definition completed_inv (s : state) : Prop :=
  forall c k r, CompleteMsg c k r ∈ message_queue s ->
  all_resolved s /\
  c = converted_count (mgr s) /\ k = skipped_count (mgr s) /\
  r = error_count (mgr s).

(** A run that is not cancelled: the dispatch loop gets through all jobs,
    the wait loop through all futures, and the Complete message reports
    the final counters. *)
Definition uncancelled_run_inv (s : state) : Prop :=
  flag_clear s /\ no_complete_yet s /\ loop_covered s /\ wait_resolved s /\
  completed_inv s.

(** ** After a cancellation *)





End Invariants.
Import Invariants.

(* ===================================================================== *)
(** * The boost in binary64 *)
(* ===================================================================== *)

(** The bitrate policy computes [int(bitrate * 1.25)] in IEEE binary64.
    This module has that computation on the machine floats, to compare it
    with the integer arithmetic of [Convert.boosted]. *)
Module Binary64.

(** [float(n)] for an [int] of at most 62 bits. *)
Definition float_of_int (n : Z) : float :=
  if n <? 0 then PrimFloat.opp (PrimFloat.of_uint63 (Uint63.of_Z (- n)))
  else PrimFloat.of_uint63 (Uint63.of_Z n).

(** [int(x)]: truncation toward zero; [None] for an infinity or a NaN,
    where Python raises. *)
Definition int_of_float (x : float) : option Z :=
  match Prim2SF x with
  | S754_zero _ => Some 0
  | S754_finite s m e =>
      let magnitude :=
        if 0 <=? e then Z.pos m * 2 ^ e else Z.pos m / 2 ^ (- e) in
      Some (if s then - magnitude else magnitude)
  | S754_infinity _ | S754_nan => None
  end.

(** [min(int(bitrate * 1.25), 320)] *)
Definition boost (bitrate : Z) : option Z :=
  match int_of_float (PrimFloat.mul (float_of_int bitrate) 1.25%float) with
  | Some v => Some (Z.min v 320)
  | None => None
  end.

Definition agrees (bitrate : Z) : bool :=
  match boost bitrate, Convert.boosted bitrate with
  | Some v, Ok v' => v =? v'
  | _, _ => false
  end.

(** [n - 1, ..., 0] *)
Fixpoint below (n : nat) : list Z :=
  match n with
  | O => []
  | S k => Z.of_nat k :: below k
  end.

End Binary64.

(* ===================================================================== *)
(** * Concrete inputs *)
(* ===================================================================== *)

Module Demo.

Definition demo_settings : Settings :=
  {| source_folder := ["music"]; dest_folder := ["out"]; engine := "ffmpeg";
     bitrate := 160; skip_existing := true; genre_bitrate_boost := true;
     max_threads := 4; replaygain_mode := "off" |}.

Definition with_bitrate (b : Z) (s : Settings) : Settings :=
  {| source_folder := source_folder s; dest_folder := dest_folder s;
     engine := engine s; bitrate := b; skip_existing := skip_existing s;
     genre_bitrate_boost := genre_bitrate_boost s;
     max_threads := max_threads s; replaygain_mode := replaygain_mode s |}.

Definition tags_absent : TagHandler.tag_env :=
  {| TagHandler.File := Ok None; TagHandler.OggOpus := Ok ∅;
     TagHandler.save := fun _ => Ok tt |}.

(** One MP3 file below the source folder, the destination folder empty. *)
Definition one_file : node :=
  DirNode [("music", DirNode [("a.mp3", FileNode)]); ("out", DirNode [])].

Definition two_files : node :=
  DirNode [("music", DirNode [("a.mp3", FileNode); ("b.mp3", FileNode)]);
           ("out", DirNode [])].

(** The source folder exists and holds no MP3 file. *)
Definition empty_dir : node :=
  DirNode [("music", DirNode [("notes.txt", FileNode)]); ("out", DirNode [])].

(** The source folder does not exist. *)
Definition no_source_dir : node := DirNode [("out", DirNode [])].

Definition demo_env : env :=
  {| fs := one_file; scan_fault := None; mkdir_fault := fun _ => None;
     read_genre := fun _ => ReadGenre "Classical";
     encode := fun _ _ _ => ([1 # 2; 1]%Q, EncodeReturns true);
     tag_env := fun _ _ => tags_absent;
     opusgain_path := None; run_opusgain := fun _ => None |}.

Definition with_fs (tree : node) (e : env) : env :=
  {| fs := tree; scan_fault := scan_fault e; mkdir_fault := mkdir_fault e;
     read_genre := read_genre e; encode := encode e; tag_env := tag_env e;
     opusgain_path := opusgain_path e; run_opusgain := run_opusgain e |}.

(** As [demo_env], but the destination directory cannot be created. *)
Definition readonly_env : env :=
  {| fs := one_file; scan_fault := None;
     mkdir_fault := fun _ => Some (OSError "[Errno 13] Permission denied: 'out'");
     read_genre := fun _ => ReadGenre "Classical";
     encode := fun _ _ _ => ([1 # 2; 1]%Q, EncodeReturns true);
     tag_env := fun _ _ => tags_absent;
     opusgain_path := None; run_opusgain := fun _ => None |}.

(** As [demo_env], but walking the source tree raises. *)
Definition unreadable_env : env :=
  {| fs := one_file; scan_fault := Some (OSError "[Errno 5] Input/output error");
     mkdir_fault := fun _ => None;
     read_genre := fun _ => ReadGenre "Classical";
     encode := fun _ _ _ => ([1 # 2; 1]%Q, EncodeReturns true);
     tag_env := fun _ _ => tags_absent;
     opusgain_path := None; run_opusgain := fun _ => None |}.

(** A manager on which a run is marked as in progress. *)
Definition busy_manager : ConversionManager :=
  {| settings := demo_settings; is_running := true; is_paused := false;
     should_cancel := false; jobs := []; active_engines := [];
     executor := None; converted_count := 5; skipped_count := 1;
     error_count := 2 |}.

(** A manager with one job half-way through, marked "processing" by hand. *)
Definition half_way_manager : ConversionManager :=
  {| settings := demo_settings; is_running := true; is_paused := false;
     should_cancel := false;
     jobs := [ set_status completed (new_job ["music"; "a.mp3"] ["out"; "a.opus"]);
               set_progress (1 # 2)
                 (set_status processing
                    (new_job ["music"; "b.mp3"] ["out"; "b.opus"])) ];
     active_engines := [1%nat]; executor := None;
     converted_count := 1; skipped_count := 0; error_count := 0 |}.

Definition dispatch (n : nat) : list action := replicate n Dispatch.
Definition work (j n : nat) : list action := replicate n (Work j).

(** A complete run of one job: dispatch up to the wait loop, the pool
    thread, then the wait loop, completion and [finally]. *)
Definition one_job_schedule : list action :=
  dispatch 8 ++ [Spawn] ++ work 0 6 ++ dispatch 5.

(** The same run when [mkdir] raises in the pool thread. *)
Definition failed_mkdir_schedule : list action :=
  dispatch 8 ++ [Spawn] ++ work 0 3 ++ dispatch 5.






Definition demo_frames : gmap string TagHandler.id3_frame :=
  <["TRCK" := TagHandler.TextFrame ["3/12"]]>
    (<["TPOS" := TagHandler.TextFrame ["2"]]> ∅).

Definition demo_source : TagHandler.audio :=
  {| TagHandler.is_mp3 := true;
     TagHandler.tags := Some (TagHandler.ID3Tags demo_frames);
     TagHandler.art := TagHandler.ArtNone |}.

(** A source whose tags load and a destination that opens and saves. *)
Definition tags_present : TagHandler.tag_env :=
  {| TagHandler.File := Ok (Some demo_source); TagHandler.OggOpus := Ok ∅;
     TagHandler.save := fun _ => Ok tt |}.

End Demo.
Import Demo.

(* ===================================================================== *)
(** * More of the conversion core: predicates *)
(* ===================================================================== *)

Module RunFacts.

(** The two messages that end a run for the consumer. *)
Definition is_terminal (msg : message) : bool :=
  match msg with
  | CompleteMsg _ _ _ | ErrorMsg _ => true
  | _ => false
  end.

Definition terminal_count (s : state) : nat :=
  length (List.filter is_terminal (message_queue s)).

(** Terminal messages are put on the way to [finally] only, and once. *)
Definition outcome_inv (s : state) : Prop :=
  (completing (pc s) = false -> terminal_count s = 0%nat) /\
  (completing (pc s) = true ->
     terminal_count s = 1%nat \/ (terminal_count s = 0%nat /\ jobs (mgr s) = [])).

(** [is_running] is set on entry and cleared in [finally], together with
    the reference to the pool. *)
Definition running_inv (s : state) : Prop :=
  match pc s with
  | DEnter => True
  | DReturned => is_running (mgr s) = false /\ executor (mgr s) = None
  | _ => is_running (mgr s) = true
  end.

(** How many more jobs the dispatch loop can let through while the pause
    flag stays set: the pause is looked at once per job, before the skip
    check. *)
Definition past_pause (s : state) : Z :=
  match pc s with
  | DPaused _ => if should_cancel (mgr s) then 1 else 0
  | DSkipCheck _ | DSubmit _ => 1
  | _ => 0
  end.

(** Jobs that went through the loop body: handed to the pool or skipped. *)
Definition let_through (s : state) : Z :=
  Z.of_nat (length (futures s)) + skipped_count (mgr s).

Definition paused_inv (bound : Z) (s : state) : Prop :=
  is_paused (mgr s) = true /\ pc s <> DEnter /\
  let_through s + past_pause s <= bound.

(** A run entered with the pause flag set waits at the first job. *)
Definition held_at_first_job (s : state) : Prop :=
  is_paused (mgr s) = true /\ futures s = [] /\
  (forall c k r, CompleteMsg c k r ∉ message_queue s) /\
  (pc s <> DEnter ->
     should_cancel (mgr s) = false /\
     converted_count (mgr s) = 0 /\ skipped_count (mgr s) = 0 /\
     error_count (mgr s) = 0) /\
  match pc s with
  | DEnter | DDiscover | DFinally | DReturned => True
  | DLoop i | DPaused i => i = 0%nat /\ jobs (mgr s) <> []
  | _ => False
  end.

Definition quiet_action (a : action) : Prop :=
  a <> CallResume /\ a <> CallCancel.

(** The message of the [ValueError] of [ThreadPoolExecutor]. *)
Definition no_workers_message : message :=
  ErrorMsg "Batch conversion failed: max_workers must be greater than 0".

(** A run whose pool could not be created. *)
Definition pool_refused (m : ConversionManager) (s : state) : Prop :=
  settings (mgr s) = settings m /\ futures s = [] /\
  (forall c k r, CompleteMsg c k r ∉ message_queue s) /\
  (pc s <> DEnter -> completed_total (mgr s) = 0) /\
  match pc s with
  | DEnter => True
  | DDiscover => True
  | DFinally | DReturned =>
      no_workers_message ∈ message_queue s /\ fresh_jobs (mgr s)
  | _ => False
  end.

(** The job of the loop iteration in progress. *)
Definition body_index (p : dpc) : option nat :=
  match p with
  | DPaused i | DSkipCheck i | DSubmit i | DProgress i => Some i
  | _ => None
  end.

Definition body_job_inv (s : state) : Prop :=
  forall i, body_index (pc s) = Some i -> is_Some (jobs (mgr s) !! i).

Definition shutdown_message : message :=
  ErrorMsg "Batch conversion failed: cannot schedule new futures after shutdown".

(** The skip policy decides, once per job, between the two ways through
    the loop body. *)
Definition skip_inv (e : env) (s : state) : Prop :=
  (forall i job, pc s = DSubmit i -> jobs (mgr s) !! i = Some job ->
     _should_skip e (mgr s) job = false) /\
  forall j job, jobs (mgr s) !! j = Some job ->
  (j ∈ submitted s -> _should_skip e (mgr s) job = false) /\
  (job_status job = skipped ->
     _should_skip e (mgr s) job = true /\ j ∉ submitted s).

(** The pool thread of a future holds an engine: it is between
    [self.active_engines.append(engine)] and the end of its [finally]. *)
Definition engine_live (st : fstate) : bool :=
  match st with
  | FRunning (WEncode _ _) | FRunning WSuccess
  | FRunning (WExcept _ true) | FRunning (WFinally true) => true
  | _ => false
  end.

Definition live_jobs (fs : list future) : list nat :=
  fut_job <$> List.filter (fun f => engine_live (fut_state f)) fs.

(** The engines held by the pool threads, named by their jobs. *)
Definition engines_in_use (s : state) : list nat := live_jobs (futures s).

End RunFacts.
Import RunFacts.

(* ===================================================================== *)
(** * More of the tag transcription: predicates *)
(* ===================================================================== *)

Module TagFacts.
Import TagHandler.

(** The comment keys [_copy_id3_to_vorbis] can write. *)
Definition written_keys : list string :=
  TAG_MAPPING.*2 ++ ["TRACKTOTAL"; "DISCTOTAL"].



End TagFacts.
Import TagFacts.

(* ===================================================================== *)
(** * tagging/tags.py : the extraction of album art *)
(* ===================================================================== *)

Module AlbumArt.

(** ** tagging/tags.py : [TagHandler._extract_album_art] *)

(** The fields read from an APIC frame or from a picture block. *)
Record picture := {
  pic_data : string;
  pic_mime : string;
  pic_type : Z;
  pic_desc : string
}.

(** [PictureType.COVER_FRONT] *)
Definition COVER_FRONT : Z := 3.

(** A frame of the source: a picture frame, or a frame without the
    attributes of one. *)
Inductive frame :=
| APIC (p : picture)
| OtherFrame.

Record source := {
  is_mp3 : bool;                          (* isinstance(source, MP3) *)
  tags : list (string * frame);           (* source.tags, in key order; [] when falsy *)
  pictures : option (list picture)        (* source.pictures, when the attribute exists *)
}.

(** The loop over the keys of [source.tags]: [None] when it ends without
    returning.  [found_cover] is [hasattr(cls, '_found_cover')]. *)
Fixpoint scan_apic (found_cover : bool) (frames : list (string * frame))
    : option (result picture) :=
  match frames with
  | [] => None
  | (key, fr) :: frames' =>
      if startswith "APIC" key then
        match fr with
        | OtherFrame => Some (Raise AttributeError)      (* apic.type *)
        | APIC p =>
            if (bool_decide (pic_type p = COVER_FRONT) || negb found_cover)%bool
            then Some (Ok p)
            else scan_apic found_cover frames'
        end
      else scan_apic found_cover frames'
  end.

(** [_extract_album_art]: its result, and whether the class attribute
    [_found_cover] exists afterwards. *)
Definition _extract_album_art (found_cover : bool) (s : source)
    : result (option picture) * bool :=
  let fallback :=
    match pictures s with
    | Some (pic :: _) => Ok (Some pic)
    | _ => Ok None
    end in
  if (is_mp3 s && negb (bool_decide (tags s = [])))%bool then
    match scan_apic found_cover (tags s) with
    | Some (Ok p) => (Ok (Some p), true)
    | Some (Raise x) => (Raise x, found_cover)
    | None => (fallback, found_cover)
    end
  else (fallback, found_cover).

(** The first frame under a key that starts with ["APIC"]. *)
Definition first_apic (frames : list (string * frame)) : option frame :=
  snd <$> List.find (fun kv => startswith "APIC" kv.1) frames.

End AlbumArt.

(* ===================================================================== *)
(** * engines : base.py, ffmpeg_engine.py, opusenc_engine.py *)
(* ===================================================================== *)

Module Engine.

(** ** [int(s)] for a string, base 10

    Surrounding whitespace is stripped; an optional sign is followed by
    digits, which single underscores may separate.  More than 4300 digits
    are refused (the default [sys.int_max_str_digits]).  The message of the
    [ValueError] quotes the string in Python; it is only logged by the
    engine, and is shortened here. *)

Definition is_space (c : ascii) : bool :=
  let n := nat_of_ascii c in
  ((9 <=? n)%nat && (n <=? 13)%nat) || ((28 <=? n)%nat && (n <=? 32)%nat)
  || (n =? 133)%nat || (n =? 160)%nat.

Definition digit_of (c : ascii) : option Z :=
  let n := nat_of_ascii c in
  if ((48 <=? n)%nat && (n <=? 57)%nat)%bool then Some (Z.of_nat (n - 48)) else None.

Fixpoint lstrip (s : string) : string :=
  match s with
  | String c s' => if is_space c then lstrip s' else s
  | EmptyString => EmptyString
  end.

(** [s.strip()] *)
Definition strip (s : string) : string :=
  String.rev (lstrip (String.rev (lstrip s))).

(** The digits of a literal, most significant first: [None] when the text
    is not digits separated by single underscores.  [after_digit] tells
    whether the previous character was a digit. *)
Fixpoint digits_of (after_digit : bool) (s : string) : option (list Z) :=
  match s with
  | EmptyString => if after_digit then Some [] else None
  | String c s' =>
      match digit_of c with
      | Some d => cons d <$> digits_of true s'
      | None =>
          if (Ascii.eqb c "_" && after_digit)%bool then digits_of false s' else None
      end
  end.

Definition int_max_str_digits : nat := 4300.

Definition invalid_literal : exn :=
  ValueError "invalid literal for int() with base 10".

Definition py_int (s : string) : result Z :=
  let t := strip s in
  let '(negative, body) :=
    match t with
    | String "-" r => (true, r)
    | String "+" r => (false, r)
    | _ => (false, t)
    end in
  match digits_of false body with
  | None => Raise invalid_literal
  | Some ds =>
      if (int_max_str_digits <? length ds)%nat
      then Raise (ValueError "Exceeds the limit (4300 digits) for integer string conversion")
      else
        let n := foldl (fun acc d => 10 * acc + d) 0 ds in
        Ok (if negative then - n else n)
  end.

(** [s.split(sep)] for a one-character separator. *)
Fixpoint split (sep : ascii) (s : string) : list string :=
  match s with
  | EmptyString => [EmptyString]
  | String c s' =>
      if Ascii.eqb c sep then EmptyString :: split sep s'
      else match split sep s' with
           | piece :: pieces => String c piece :: pieces
           | [] => [String c EmptyString]
           end
  end.

(** [min(x, 1.0)]: the first argument unless the second is smaller. *)
Definition min_one (x : Q) : Q := if Qlt_le_dec 1 x then 1%Q else x.

(** ** engines/base.py : [EncodingEngine._run_command] *)

(** What the encoder process does once started with a command. *)
Record process := {
  popen_fault : option exn;       (* [subprocess.Popen] raises *)
  stdout : list string;           (* the lines of its standard output *)
  communicate_fault : option exn; (* [communicate()] raises *)
  returncode : Z
}.

(** The progress callback: it may raise. *)
Definition callback := Q -> option exn.

(** The loop over the lines of standard output: the calls made to the
    callback so far, and the exception that ended the loop, if any. *)
Fixpoint read_progress (parser : string -> result (option Q)) (cb : callback)
    (lines : list string) : list Q * option exn :=
  match lines with
  | [] => ([], None)
  | line :: lines' =>
      match parser line with
      | Raise x => ([], Some x)
      | Ok None => read_progress parser cb lines'
      | Ok (Some progress) =>
          match cb progress with
          | Some x => ([progress], Some x)
          | None =>
              let '(calls, fault) := read_progress parser cb lines' in
              (progress :: calls, fault)
          end
      end
  end.

(** [_run_command]: the values passed to the callback, in order, and the
    boolean returned.  Every exception is caught and gives [False]. *)
Definition _run_command (p : process)
    (progress_parser : option (string -> result (option Q)))
    (progress_callback : option callback) : list Q * bool :=
  match popen_fault p with
  | Some _ => ([], false)
  | None =>
      let '(calls, fault) :=
        match progress_parser, progress_callback with
        | Some parser, Some cb => read_progress parser cb (stdout p)
        | _, _ => ([], None)
        end in
      match fault with
      | Some _ => (calls, false)
      | None =>
          match communicate_fault p with
          | Some _ => (calls, false)
          | None => (calls, bool_decide (returncode p = 0))
          end
      end
  end.

(** ** engines/ffmpeg_engine.py *)

(** What the outside world answers to an engine. *)
Record world := {
  spawn : list string -> process;   (* the process a command starts *)
  ffprobe : string -> result Q      (* duration read by [ffprobe], or a failure *)
}.

(** [FFmpegEngine.get_duration] *)
Definition ffmpeg_get_duration (w : world) (file_path : string) : Q :=
  match ffprobe w file_path with
  | Ok d => d
  | Raise _ => 0%Q
  end.

(** The local function [parse_progress] of [FFmpegEngine.encode]. *)
Definition parse_progress (duration : Q) (line : string) : result (option Q) :=
  if startswith "out_time_us=" line then
    match split "=" line !! 1%nat with
    | None => Raise IndexError
    | Some text =>
        time_us ← py_int text;
        let time_s := (inject_Z time_us / 1000000)%Q in
        Ok (Some (min_one (time_s / duration)))
    end
  else Ok None.

(** Keyword arguments, each value already converted with [str]. *)
Abbreviation kwargs := (gmap string string).

Definition ffmpeg_command (binary_path : option string) (input_path output_path : string)
    (bitrate : Z) (vbr : bool) (application : string)
    (progress : bool) (kw : kwargs) : list string :=
  [ match binary_path with Some (String c r) => String c r | _ => "ffmpeg" end;
    "-i"; input_path; "-c:a"; "libopus"; "-b:a"; pretty bitrate +:+ "k" ]
  ++ (if vbr then ["-vbr"; "on"] else ["-vbr"; "off"])
  ++ (match application with EmptyString => [] | _ => ["-application"; application] end)
  ++ (match kw !! "frame_size" with Some v => ["-frame_duration"; v] | None => [] end)
  ++ (match kw !! "complexity" with Some v => ["-compression_level"; v] | None => [] end)
  ++ (if progress then ["-progress"; "pipe:1"] else [])
  ++ ["-y"; output_path].

(** [FFmpegEngine.encode] *)
Definition ffmpeg_encode (w : world) (binary_path : option string)
    (input_path output_path : string) (bitrate : Z) (vbr : bool)
    (application : string) (progress_callback : option callback)
    (kw : kwargs) : list Q * bool :=
  let cmd := ffmpeg_command binary_path input_path output_path bitrate vbr
               application (bool_decide (is_Some progress_callback)) kw in
  let duration :=
    match progress_callback with
    | Some _ => ffmpeg_get_duration w input_path
    | None => 0%Q
    end in
  match progress_callback with
  | Some cb =>
      if Qeq_bool duration 0 then _run_command (spawn w cmd) None None
      else _run_command (spawn w cmd) (Some (parse_progress duration)) (Some cb)
  | None => _run_command (spawn w cmd) None None
  end.

(** ** engines/opusenc_engine.py *)

Definition opusenc_command (binary_path : option string) (input_path output_path : string)
    (bitrate : Z) (vbr : bool) (kw : kwargs) : list string :=
  [ match binary_path with Some (String c r) => String c r | _ => "opusenc" end;
    "--bitrate"; pretty bitrate ]
  ++ [ if vbr then "--vbr" else "--hard-cbr" ]
  ++ (match kw !! "complexity" with Some v => ["--comp"; v] | None => [] end)
  ++ (match kw !! "frame_size" with Some v => ["--framesize"; v] | None => [] end)
  ++ [input_path; output_path].

(** [OpusencEngine.encode] *)
Definition opusenc_encode (w : world) (binary_path : option string)
    (input_path output_path : string) (bitrate : Z) (vbr : bool)
    (application : string) (progress_callback : option callback)
    (kw : kwargs) : list Q * bool :=
  _run_command (spawn w (opusenc_command binary_path input_path output_path
                           bitrate vbr kw))
    None progress_callback.

(** A line of progress output whose value [int] refuses. *)
Definition unparsable_progress (line : string) : Prop :=
  startswith "out_time_us=" line = true /\
  forall text, split "=" line !! 1%nat = Some text -> raises (py_int text) = true.

End Engine.

(* ===================================================================== *)
(** * core/settings.py : the settings file *)
(* ===================================================================== *)

Module SettingsFile.

(** ** core/settings.py : [Settings.load] and [Settings.save] *)

(** A JSON value, as [json.load] returns it and [json.dump] writes it. *)
Inductive json :=
| JNull
| JBool (b : bool)
| JInt (n : Z)
| JFloat (x : Q)
| JStr (s : string)
| JArray (items : list json)
| JObject (members : list (string * json)).

(** The attributes of a [Settings] instance: its [__dict__]. *)
Abbreviation instance := (gmap string json).

(** The dataclass fields, in declaration order, with their defaults. *)
Definition defaults : list (string * json) :=
  [ ("source_folder", JStr ""); ("dest_folder", JStr "");
    ("engine", JStr "ffmpeg"); ("bitrate", JInt 160); ("vbr", JBool true);
    ("application_mode", JStr "audio"); ("frame_size", JFloat 20);
    ("complexity", JInt 10); ("skip_existing", JBool true);
    ("overwrite_mode", JStr "skip"); ("genre_bitrate_boost", JBool true);
    ("max_threads", JInt 4); ("buffer_size", JInt 262144);
    ("replaygain_mode", JStr "off"); ("replaygain_reference", JFloat (-18)) ].

Definition field_names : list string := defaults.*1.

(** [Settings()]: the defaults, and [config_file] set by [__post_init__]. *)
Definition new_instance (config_file : json) : instance :=
  <["config_file" := config_file]> (list_to_map defaults).

(** What the configuration file holds. *)
Inductive file_content :=
| Missing                      (* [config_file.exists()] is false *)
| Unreadable (x : exn)         (* [open] or [json.load] raises *)
| Document (data : json).

Section Class.

(** Names defined on the class besides the fields: the three methods and
    what a dataclass and [object] provide. *)
Variable class_names : list string.

(** [hasattr(self, key)] *)
Definition hasattr (self : instance) (key : string) : bool :=
  bool_decide (is_Some (self !! key)) || bool_decide (key ∈ class_names).

(** The names [setattr] does not store in the instance: the data
    descriptors a class without [__slots__] inherits.  Setting
    [__class__] to a JSON value or [__weakref__] to anything raises, and
    setting [__dict__] replaces all attributes or raises. *)
Definition data_descriptors : list string :=
  ["__class__"; "__dict__"; "__weakref__"].

(** The loop [for key, value in data.items(): if hasattr(self, key):
    setattr(self, key, value)], for a member whose name is none of
    [data_descriptors]: [setattr] then stores the value in the instance. *)
Definition update (self : instance) (kv : string * json) : instance :=
  if hasattr self kv.1 then <[kv.1 := kv.2]> self else self.

(** [load]: the boolean returned and the instance afterwards, for a
    document whose members are as [update] takes them. *)
Definition load (self : instance) (file : file_content) : bool * instance :=
  match file with
  | Missing => (false, self)
  | Unreadable _ => (false, self)
  | Document (JObject members) => (true, foldl update self members)
  | Document _ => (false, self)          (* data.items() raises AttributeError *)
  end.

(** [asdict(self)]: the fields, read from the instance. *)
Definition asdict (self : instance) : list (string * json) :=
  omap (fun name => pair name <$> self !! name) field_names.

(** [save]: the boolean returned and the file afterwards.  [write_fault] is
    the failure of [mkdir], [open] or [json.dump], if any. *)
Definition save (self : instance) (write_fault : option exn) (file : file_content)
    : bool * file_content :=
  match write_fault with
  | Some _ => (false, file)
  | None =>
      let data := List.filter (fun kv => negb (String.eqb kv.1 "config_file"))
                    (asdict self) in
      (true, Document (JObject data))
  end.

(** The value the file gives for [key]: that of its last member named
    [key]. *)
Definition file_value (members : list (string * json)) (key : string)
    : option json :=
  snd <$> List.find (fun kv => String.eqb kv.1 key) (List.rev members).

End Class.

(** An instance as the constructor leaves it: every field is set. *)
Definition well_formed (self : instance) : Prop :=
  forall name, name ∈ field_names -> is_Some (self !! name).

End SettingsFile.

(* ===================================================================== *)
(** * ui/app.py : the window *)
(* ===================================================================== *)

Module App.

(** ** ui/app.py and the two panels of ui/widgets.py it drives *)

Inductive dialog :=
| ShowError (title text : string)    (* messagebox.showerror *)
| ShowInfo (title text : string).    (* messagebox.showinfo *)

(** The widgets [OhOpusApp] changes: the state of its three buttons, the
    progress panel, the lines of the log panel and the dialogs shown. *)
Record window := {
  start_enabled : bool;
  pause_enabled : bool;
  cancel_enabled : bool;
  pause_text : string;
  overall_value : Q;             (* overall_progress['value'] *)
  overall_label : string;
  file_value : Q;                (* file_progress['value'] *)
  file_percent_label : string;
  file_label : string;
  log_lines : list (string * string);   (* text and level *)
  dialogs : list dialog
}.

Definition set_buttons (start pause cancel : bool) (w : window) : window :=
  {| start_enabled := start; pause_enabled := pause; cancel_enabled := cancel;
     pause_text := pause_text w;
     overall_value := overall_value w; overall_label := overall_label w;
     file_value := file_value w; file_percent_label := file_percent_label w;
     file_label := file_label w; log_lines := log_lines w; dialogs := dialogs w |}.

Definition set_pause_text (text : string) (w : window) : window :=
  {| start_enabled := start_enabled w; pause_enabled := pause_enabled w;
     cancel_enabled := cancel_enabled w; pause_text := text;
     overall_value := overall_value w; overall_label := overall_label w;
     file_value := file_value w; file_percent_label := file_percent_label w;
     file_label := file_label w; log_lines := log_lines w; dialogs := dialogs w |}.

Definition percent (x : Q) : string := pretty (int_of_float (x * 100)) +:+ "%".

(** [ProgressPanel.update_progress] *)
Definition update_progress (overall current : Q) (w : window) : window :=
  {| start_enabled := start_enabled w; pause_enabled := pause_enabled w;
     cancel_enabled := cancel_enabled w; pause_text := pause_text w;
     overall_value := overall * 100; overall_label := percent overall;
     file_value := current * 100; file_percent_label := percent current;
     file_label := file_label w; log_lines := log_lines w; dialogs := dialogs w |}.

(** [ProgressPanel.set_current_file]: a name of more than 60 characters is
    cut to its last 57, after three dots. *)
Definition set_current_file (filename : string) (w : window) : window :=
  let shown :=
    if (60 <? String.length filename)%nat
    then "..." +:+ String.substring (String.length filename - 57) 57 filename
    else filename in
  {| start_enabled := start_enabled w; pause_enabled := pause_enabled w;
     cancel_enabled := cancel_enabled w; pause_text := pause_text w;
     overall_value := overall_value w; overall_label := overall_label w;
     file_value := file_value w; file_percent_label := file_percent_label w;
     file_label := shown; log_lines := log_lines w; dialogs := dialogs w |}.

(** [ProgressPanel.reset] *)
Definition reset_progress (w : window) : window :=
  {| start_enabled := start_enabled w; pause_enabled := pause_enabled w;
     cancel_enabled := cancel_enabled w; pause_text := pause_text w;
     overall_value := 0; overall_label := "0%";
     file_value := 0; file_percent_label := "0%";
     file_label := ""; log_lines := log_lines w; dialogs := dialogs w |}.

(** [LogPanel.log] *)
Definition log (message level : string) (w : window) : window :=
  {| start_enabled := start_enabled w; pause_enabled := pause_enabled w;
     cancel_enabled := cancel_enabled w; pause_text := pause_text w;
     overall_value := overall_value w; overall_label := overall_label w;
     file_value := file_value w; file_percent_label := file_percent_label w;
     file_label := file_label w; log_lines := log_lines w ++ [(message, level)];
     dialogs := dialogs w |}.

Definition show (d : dialog) (w : window) : window :=
  {| start_enabled := start_enabled w; pause_enabled := pause_enabled w;
     cancel_enabled := cancel_enabled w; pause_text := pause_text w;
     overall_value := overall_value w; overall_label := overall_label w;
     file_value := file_value w; file_percent_label := file_percent_label w;
     file_label := file_label w; log_lines := log_lines w;
     dialogs := dialogs w ++ [d] |}.

(** [_reset_ui_state] *)
Definition _reset_ui_state (w : window) : window :=
  set_pause_text "Pause" (set_buttons true false false w).

(** [_on_conversion_complete] *)
Definition _on_conversion_complete (n_converted n_skipped n_errors : Z)
    (w : window) : window :=
  let msg := "Conversion complete!" +:+ String "010" EmptyString
             +:+ "Files converted: " +:+ pretty n_converted +:+ String "010" EmptyString
             +:+ "Files skipped: " +:+ pretty n_skipped +:+ String "010" EmptyString
             +:+ "Errors: " +:+ pretty n_errors in
  show (ShowInfo "Complete" msg) (log msg "success" (_reset_ui_state w)).

(** The body of the loop of [_process_messages], for one message. *)
Definition handle (w : window) (msg : message) : window :=
  match msg with
  | ProgressMsg overall current file =>
      set_current_file file (update_progress overall current w)
  | LogMsg text level => log text level w
  | CompleteMsg n_converted n_skipped n_errors =>
      _on_conversion_complete n_converted n_skipped n_errors w
  | ErrorMsg text => show (ShowError "Conversion Error" text) w
  end.

(** [_process_messages]: the queue is drained. *)
Definition _process_messages (queue : list message) (w : window) : window :=
  foldl handle w queue.

(** [_start_conversion], after the settings were read from the widgets:
    the window afterwards, and whether the conversion thread is started. *)
Definition _start_conversion (fs : node) (s : Settings) (w : window)
    : window * bool :=
  if (bool_decide (source_folder s = []) || negb (exists_ fs (source_folder s)))%bool
  then (show (ShowError "Error" "Please select a valid source folder") w, false)
  else if bool_decide (dest_folder s = [])
  then (show (ShowError "Error" "Please select a destination folder") w, false)
  else (reset_progress (set_buttons false true true w), true).

(** [_pause_conversion], on the window and the manager. *)
Definition _pause_conversion (w : window) (m : ConversionManager)
    : window * ConversionManager :=
  if is_paused m
  then (log "Conversion resumed" "info" (set_pause_text "Pause" w),
        set_is_paused false m)
  else (log "Conversion paused" "info" (set_pause_text "Resume" w),
        set_is_paused true m).

(** [ConversionManager.cancel], run to its end by the UI thread. *)
Definition cancel (e : env) (s : state) : option state :=
  run e [CallCancel; CancelStep; CancelStep] s.

(** [_cancel_conversion]; [confirm] is the answer to the dialog. *)
Definition _cancel_conversion (e : env) (confirm : bool) (w : window) (s : state)
    : option (window * state) :=
  if confirm then
    s' ← cancel e s;
    Some (_reset_ui_state (log "Conversion cancelled" "warning" w), s')
  else Some (w, s).

(** The fields of the window the buttons make up. *)
Definition buttons (w : window) : bool * bool * bool * string :=
  (start_enabled w, pause_enabled w, cancel_enabled w, pause_text w).

End App.

(* ===================================================================== *)
(** * More concrete inputs *)
(* ===================================================================== *)

Module Inputs.

(** A manager left paused by an earlier run. *)
Definition paused_manager : ConversionManager :=
  set_is_paused true (new_manager demo_settings).

(** Settings with a thread count of zero. *)
Definition no_threads : Settings :=
  {| source_folder := ["music"]; dest_folder := ["out"]; engine := "ffmpeg";
     bitrate := 160; skip_existing := true; genre_bitrate_boost := true;
     max_threads := 0; replaygain_mode := "off" |}.

(** The dispatch loop reaches the submission of the first job, then
    [cancel()] is called and returns. *)
Definition cancel_at_submit : list action :=
  dispatch 5 ++ [CallCancel; CancelStep; CancelStep].

(** Two jobs: the first is past the pause check when [pause()] is called. *)
Definition pause_after_check : list action := dispatch 4 ++ [CallPause].

(** Two jobs, the first skipped, the second converted; the run returns. *)
Definition skip_first_schedule : list action :=
  dispatch 11 ++ [Spawn] ++ work 1 6 ++ dispatch 5.

(** Two jobs: the first is being encoded, the second not yet looked at. *)
Definition encoding_schedule : list action :=
  dispatch 7 ++ [Spawn; Work 0; Work 0].

(** Settings that ask for track gain. *)
Definition gain_settings : Settings :=
  {| source_folder := ["music"]; dest_folder := ["out"]; engine := "ffmpeg";
     bitrate := 160; skip_existing := true; genre_bitrate_boost := true;
     max_threads := 4; replaygain_mode := "track" |}.

(** The source folder holds two MP3 files; the destination of the first
    exists. *)
Definition already_converted : node :=
  DirNode [("music", DirNode [("a.mp3", FileNode); ("b.mp3", FileNode)]);
           ("out", DirNode [("a.opus", FileNode)])].

(** The state of a run of one job whose encode has returned True. *)
Definition encoded_state : state :=
  {| mgr := set_jobs [new_job ["music"; "a.mp3"] ["out"; "a.opus"]]
              (new_manager gain_settings);
     message_queue := []; pc := DWait 0;
     futures := [{| fut_job := 0; fut_state := FRunning WSuccess |}];
     pool_size := 1; ui := UIdle; ledger := [] |}.

(** As [demo_env], but the tags of every source fail to load. *)
Definition tagless_env : env :=
  {| fs := one_file; scan_fault := None; mkdir_fault := fun _ => None;
     read_genre := fun _ => ReadGenre "Classical";
     encode := fun _ _ _ => ([1 # 2; 1]%Q, EncodeReturns true);
     tag_env := fun _ _ =>
       {| TagHandler.File := Raise (Exception "can't sync to MPEG frame");
          TagHandler.OggOpus := Ok ∅;
          TagHandler.save := fun _ => Ok tt |};
     opusgain_path := Some "/usr/bin/opusgain";
     run_opusgain := fun _ => Some (OSError "opusgain failed") |}.

(** An MP3 source with both date frames. *)
Definition two_dates : TagHandler.audio :=
  {| TagHandler.is_mp3 := true;
     TagHandler.tags :=
       Some (TagHandler.ID3Tags
               (<["TDRC" := TagHandler.TextFrame ["2004-05-01"]]>
                  (<["TYER" := TagHandler.TextFrame ["1999"]]> ∅)));
     TagHandler.art := TagHandler.ArtNone |}.

(** An MP3 source with a title and a track frame without values. *)
Definition empty_track : TagHandler.audio :=
  {| TagHandler.is_mp3 := true;
     TagHandler.tags :=
       Some (TagHandler.ID3Tags
               (<["TIT2" := TagHandler.TextFrame ["Song"]]>
                  (<["TRCK" := TagHandler.TextFrame []]> ∅)));
     TagHandler.art := TagHandler.ArtNone |}.

Definition empty_track_env : TagHandler.tag_env :=
  {| TagHandler.File := Ok (Some empty_track); TagHandler.OggOpus := Ok ∅;
     TagHandler.save := fun _ => Ok tt |}.


(** A destination that already carries a comment of its own. *)
Definition commented : TagHandler.vcomment := <["Rating" := ["5"]]> ∅.

(** An MP3 source whose only picture is a back cover (type 4). *)
Definition back_cover : AlbumArt.picture :=
  {| AlbumArt.pic_data := "JFIF"; AlbumArt.pic_mime := "image/jpeg";
     AlbumArt.pic_type := 4; AlbumArt.pic_desc := "back" |}.

Definition front_cover : AlbumArt.picture :=
  {| AlbumArt.pic_data := "JFIF"; AlbumArt.pic_mime := "image/jpeg";
     AlbumArt.pic_type := 3; AlbumArt.pic_desc := "front" |}.

Definition back_then_front : AlbumArt.source :=
  {| AlbumArt.is_mp3 := true;
     AlbumArt.tags := [("TIT2", AlbumArt.OtherFrame);
                       ("APIC:back", AlbumArt.APIC back_cover);
                       ("APIC:front", AlbumArt.APIC front_cover)];
     AlbumArt.pictures := None |}.

(** A world in which ffmpeg prints a progress value that is not a number,
    then a proper one, and exits with code 0. *)
Definition na_world : Engine.world :=
  {| Engine.spawn := fun _ =>
       {| Engine.popen_fault := None;
          Engine.stdout := ["out_time_us=N/A" +:+ String "010" EmptyString;
                            "out_time_us=5000000" +:+ String "010" EmptyString];
          Engine.communicate_fault := None;
          Engine.returncode := 0 |};
     Engine.ffprobe := fun _ => Ok 10%Q |}.

Definition quiet_callback : Engine.callback := fun _ => None.

(** A settings instance changed by the user, and one as constructed. *)
Definition tuned : SettingsFile.instance :=
  <["bitrate" := SettingsFile.JInt 96]>
    (<["engine" := SettingsFile.JStr "opusenc"]>
       (SettingsFile.new_instance (SettingsFile.JStr "/home/u/.config/oh-opus/settings.json"))).

Definition untouched : SettingsFile.instance :=
  SettingsFile.new_instance (SettingsFile.JStr "/tmp/settings.json").

Definition method_names : list string := ["load"; "save"; "reset"].

(** The window as [_setup_ui] leaves it. *)
Definition idle_window : App.window :=
  {| App.start_enabled := true; App.pause_enabled := false;
     App.cancel_enabled := false; App.pause_text := "Pause";
     App.overall_value := 0; App.overall_label := "0%";
     App.file_value := 0; App.file_percent_label := "0%";
     App.file_label := ""; App.log_lines := []; App.dialogs := [] |}.

(** The window while a conversion runs, paused by the user. *)
Definition running_window : App.window :=
  App.reset_progress (App.set_buttons false true true idle_window).

Definition paused_window : App.window :=
  App.set_pause_text "Resume" running_window.

(** A file name of 71 characters. *)
Definition long_name : string :=
  "0123456789012345678901234567890123456789012345678901234567890123456.mp3".

End Inputs.
Import Inputs.

(* ===================================================================== *)
(** * Strings *)
(* ===================================================================== *)

Section StringFacts.

Lemma startswith_spec p s :
  startswith p s = true <-> exists post, s = p +:+ post.
Proof.
  revert s. induction p as [|a p IH]; intros s; simpl.
  - split; eauto.
  - destruct s as [|b s]; simpl.
    + split; [discriminate | intros [post H]; discriminate].
    + destruct (Ascii.eqb_spec a b) as [->|Hne].
      * rewrite IH. split; intros [post H]; exists post; [by rewrite H | by injection H].
      * split; [discriminate | intros [post H]; injection H; congruence].
Qed.

Lemma contains_spec n h :
  contains n h = true <-> exists pre post, h = pre +:+ n +:+ post.
Proof.
  induction h as [|c h IH]; simpl.
  - destruct (startswith n "") eqn:E.
    + apply startswith_spec in E as [post E]. split; [|done].
      intros _. exists "", post. done.
    + split; [discriminate|]. intros (pre & post & H).
      destruct pre; simpl in H; [|discriminate].
      assert (startswith n "" = true) by (apply startswith_spec; eauto).
      congruence.
  - destruct (startswith n (String c h)) eqn:E.
    + apply startswith_spec in E as [post E]. split; [|done].
      intros _. exists "", post. done.
    + rewrite IH. split.
      * intros (pre & post & ->). exists (String c pre), post. done.
      * intros (pre & post & H). destruct pre as [|c' pre]; simpl in H.
        -- assert (startswith n (String c h) = true) by (apply startswith_spec; eauto).
           congruence.
        -- injection H as -> ->. eauto.
Qed.




Lemma contains_char_cons c a s :
  contains (String c "") (String a s) = (Ascii.eqb c a || contains (String c "") s)%bool.
Proof.
  cbn [contains startswith]. destruct (Ascii.eqb c a); [|done].
  by destruct s.
Qed.

Lemma split1_first sep n m :
  contains (String sep "") n = false ->
  split1 sep (n +:+ String sep m) = [n; m].
Proof.
  induction n as [|c n IH]; intros H.
  - simpl. by rewrite Ascii.eqb_refl.
  - rewrite contains_char_cons in H. apply orb_false_elim in H as [Hc Hn].
    change (String c n +:+ String sep m) with (String c (n +:+ String sep m)).
    cbn [split1]. rewrite Ascii.eqb_sym, Hc. by rewrite IH.
Qed.

Lemma contains_char_app sep n m :
  contains (String sep "") (n +:+ String sep m) = true.
Proof. apply contains_spec. by exists n, m. Qed.

Lemma split1_contains sep s :
  contains (String sep "") s = true ->
  exists n m, s = n +:+ String sep m /\ contains (String sep "") n = false
              /\ split1 sep s = [n; m].
Proof.
  induction s as [|c s IH]; intros H; [discriminate|].
  rewrite contains_char_cons in H. cbn [split1].
  destruct (Ascii.eqb_spec c sep) as [->|Hne].
  - exists "", s. done.
  - rewrite Ascii.eqb_sym in H.
    destruct (Ascii.eqb_spec c sep) as [?|_]; [done|]. simpl in H.
    destruct (IH H) as (n & m & -> & Hn & ->).
    exists (String c n), m. split_and!; [done| |done].
    rewrite contains_char_cons, Hn, Ascii.eqb_sym.
    by destruct (Ascii.eqb_spec c sep).
Qed.

End StringFacts.

(* ===================================================================== *)
(** * Tag transcription *)
(* ===================================================================== *)

Import TagHandler.

Lemma parse_number_ok frames key nk tk (dest : vcomment) :
  nk <> tk -> readable (frames !! key) ->
  exists dest',
    parse_number frames key nk tk dest = Ok dest' /\
    (forall k, k <> nk -> k <> tk -> dest' !! k = dest !! k) /\
    (forall t ts, frames !! key = Some (TextFrame (t :: ts)) ->
       number_written t nk tk dest dest').
Proof.
  intros Hne Hr. unfold parse_number.
  destruct (frames !! key) as [[[|t ts]|s]|] eqn:Hk; try done.
  - cbn [first_text mbind result_bind].
    destruct (contains "/" t) eqn:Hc.
    + destruct (split1_contains _ _ Hc) as (n & m & -> & Hn & ->).
      eexists; split_and!; [done| |].
      * intros k ? ?. by rewrite !lookup_insert_ne.
      * intros t' ts' [= <- <-]. split; [|by rewrite contains_char_app].
        intros n' m' Heq Hn'.
        assert (split1 "/" (n +:+ String "/"%char m) = [n'; m']) as Hs.
        { change (n' +:+ "/" +:+ m') with (n' +:+ String "/"%char m') in Heq.
          rewrite Heq. by apply split1_first. }
        rewrite split1_first in Hs by done. injection Hs as <- <-.
        rewrite lookup_insert_eq, lookup_insert_ne, lookup_insert_eq by done. done.
    + eexists; split_and!; [done| |].
      * intros k ? ?. by rewrite lookup_insert_ne.
      * intros t' ts' [= <- <-]. split.
        -- intros n m -> _.
           change (n +:+ "/" +:+ m) with (n +:+ String "/"%char m) in Hc.
           by rewrite contains_char_app in Hc.
        -- intros _. by rewrite lookup_insert_eq, lookup_insert_ne.
  - exists dest. split_and!; [done|done|]. intros; discriminate.
Qed.

Lemma copy_mapped_other frames (l : list (string * string)) (dest : vcomment) key :
  key ∉ l.*2 -> foldl (copy_mapped frames) dest l !! key = dest !! key.
Proof.
  revert dest. induction l as [|[a b] l IH]; intros dest Hk; [done|].
  cbn [fmap list_fmap snd] in Hk. apply not_elem_of_cons in Hk as [Hb Hk].
  cbn [foldl]. rewrite IH by exact Hk.
  assert (b <> key) by congruence. unfold copy_mapped.
  destruct (frames !! a) as [[[|t [|t' ts]]|s]|]; by rewrite ?lookup_insert_ne.
Qed.

(** C8.  For an MP3 source whose frames can be read, [_copy_id3_to_vorbis]
    returns, and the destination then holds: for a track-number text
    [n/m], split at its first "/", TRACKNUMBER = n and TRACKTOTAL = m; for
    a track-number text without "/", TRACKNUMBER = the text, and TRACKTOTAL
    as it was before the call (it is not written); and the same for the
    disc-number text with DISCNUMBER and DISCTOTAL. *)
Theorem C8_track_disc_numbers (source : audio) (dest : vcomment)
    (frames : gmap string id3_frame) :
  tags source = Some (ID3Tags frames) ->
  readable (frames !! "TRCK") -> readable (frames !! "TPOS") ->
  exists dest',
    _copy_id3_to_vorbis source dest = Ok dest' /\
    (forall t ts, frames !! "TRCK" = Some (TextFrame (t :: ts)) ->
       number_written t "TRACKNUMBER" "TRACKTOTAL" dest dest') /\
    (forall d ds, frames !! "TPOS" = Some (TextFrame (d :: ds)) ->
       number_written d "DISCNUMBER" "DISCTOTAL" dest dest').
Proof.
  intros Htags Htr Hdi. unfold _copy_id3_to_vorbis. rewrite Htags.
  cbn [tags_truthy id3_frames].
  destruct (decide (frames = ∅)) as [->|Hne].
  { rewrite bool_decide_eq_true_2 by done. exists dest.
    split_and!; [done| |]; intros ? ?; rewrite lookup_empty; discriminate. }
  rewrite bool_decide_eq_false_2 by done. cbn [negb].
  set (mapped := foldl (copy_mapped frames) dest TAG_MAPPING).
  assert (Htot : mapped !! "TRACKTOTAL" = dest !! "TRACKTOTAL").
  { apply copy_mapped_other. apply (bool_decide_unpack _). by vm_compute. }
  assert (Hdtot : mapped !! "DISCTOTAL" = dest !! "DISCTOTAL").
  { apply copy_mapped_other. apply (bool_decide_unpack _). by vm_compute. }
  unfold _parse_track_disc_numbers.
  destruct (parse_number_ok frames "TRCK" "TRACKNUMBER" "TRACKTOTAL" mapped)
    as (d1 & -> & Hk1 & Hw1); [done|done|].
  cbn [mbind result_bind].
  destruct (parse_number_ok frames "TPOS" "DISCNUMBER" "DISCTOTAL" d1)
    as (d2 & -> & Hk2 & Hw2); [done|done|].
  exists d2. split_and!; [done| |].
  - intros t ts Ht. destruct (Hw1 t ts Ht) as [Hs Hn]. split.
    + intros n m E Hno. rewrite !Hk2 by done. by apply Hs.
    + intros Hno. rewrite !Hk2 by done. rewrite <- Htot. by apply Hn.
  - intros d ds Hd. destruct (Hw2 d ds Hd) as [Hs Hn]. split; [done|].
    intros Hno. destruct (Hn Hno) as [? ->]. split; [done|].
    rewrite Hk1 by done. done.
Qed.

Lemma C8_track_disc_numbers_witness :
  exists dest',
    _copy_id3_to_vorbis demo_source ∅ = Ok dest' /\
    dest' !! "TRACKNUMBER" = Some ["3"] /\ dest' !! "TRACKTOTAL" = Some ["12"] /\
    dest' !! "DISCNUMBER" = Some ["2"] /\ dest' !! "DISCTOTAL" = None.
Proof.
  destruct (C8_track_disc_numbers demo_source ∅ demo_frames eq_refl I I)
    as (dest' & Hrun & Htrack & Hdisc).
  exists dest'. split; [exact Hrun|].
  destruct (Htrack "3/12" [] eq_refl) as [Hsplit _].
  destruct (Hsplit "3" "12" eq_refl eq_refl) as [Hn Ht].
  destruct (Hdisc "2" [] eq_refl) as [_ Hplain].
  destruct (Hplain eq_refl) as [Hd Hdt].
  repeat split; [exact Hn | exact Ht | exact Hd | exact Hdt].
Defined.

Lemma copy_album_art_ok (source : audio) (dest : vcomment) :
  exists dest', _copy_album_art source dest = Ok dest'.
Proof. unfold _copy_album_art. destruct (art source); simpl; eauto. Qed.

(** C9.  [copy_tags] always returns a boolean and never raises: it returns
    True exactly when the source loads (and is truthy), the destination
    opens, the tag copy returns and the save returns; whenever one of these
    steps fails it returns False, and nothing was saved. *)
Theorem C9_copy_tags_total (env : tag_env) :
  exists b saved,
    copy_tags env = Ok (b, saved) /\
    (b = true <-> all_steps_succeed env) /\
    (b = false -> saved = None).
Proof.
  unfold copy_tags, all_steps_succeed.
  destruct (File env) as [[source|]|x] eqn:HF; cbn [mbind result_bind try_except].
  2,3: exists false, None; split_and!; [done| |done];
       split; [done | intros (?&?&?&?&?&?); done].
  destruct (tags_truthy (tags source)) eqn:Htr; cbn [negb].
  2: { exists false, None; split_and!; [done| |done].
       split; [done|]. intros (s&?&?&?&[= <-]&?&?). congruence. }
  destruct (OggOpus env) as [dest|x] eqn:HO; cbn [mbind result_bind try_except].
  2: { exists false, None; split_and!; [done| |done].
       split; [done|]. intros (?&?&?&?&?&?&?&?). done. }
  destruct (if is_mp3 source then _ else _) as [dest1|x] eqn:HC;
    cbn [mbind result_bind try_except].
  2: { exists false, None; split_and!; [done| |done].
       split; [done|]. intros (s&d&?&?&[= <-]&?&[= <-]&?&?). congruence. }
  destruct (copy_album_art_ok source dest1) as [dest2 HA]. rewrite HA.
  cbn [mbind result_bind try_except].
  destruct (save env dest2) as [[]|x] eqn:HS; cbn [mbind result_bind try_except].
  - exists true, (Some dest2). split_and!; [done| |done].
    split; [|done]. intros _. by exists source, dest, dest1, dest2.
  - exists false, None; split_and!; [done| |done].
    split; [done|]. intros (s&d&d1&d2&[= <-]&?&[= <-]&?&?&?). congruence.
Qed.

(** The album-art step cannot make [copy_tags] fail: its exceptions are
    caught inside [_copy_album_art]. *)
Lemma copy_tags_art_failure_absorbed (x : exn) :
  copy_tags
    {| File := Ok (Some {| is_mp3 := true; tags := Some (ID3Tags demo_frames);
                           art := ArtRaises x |});
       OggOpus := Ok ∅; save := fun _ => Ok tt |}
  = Ok (true, Some (<["DISCNUMBER" := ["2"]]>
                      (<["TRACKTOTAL" := ["12"]]>
                         (<["TRACKNUMBER" := ["3"]]>
                            (<["DISCNUMBER" := ["2"]]>
                               (<["TRACKNUMBER" := ["3/12"]]> ∅)))))).
Proof. reflexivity. Qed.

(* ===================================================================== *)
(** * Bitrate policy *)
(* ===================================================================== *)
















(** Base 300 is capped at 320, not raised to 375; and below [- 2 ^ 53]
    the conversion to a float rounds before the product is taken: the
    exact product of this base is 11258999068426241.25 below zero. *)
Lemma adjusted_bitrate_examples :
  _get_adjusted_bitrate demo_env (new_manager (with_bitrate 300 demo_settings))
    (new_job ["music"; "a.mp3"] ["out"; "a.opus"]) = Ok 320 /\
  _get_adjusted_bitrate demo_env
    (new_manager (with_bitrate (- (2 ^ 53 + 1)) demo_settings))
    (new_job ["music"; "a.mp3"] ["out"; "a.opus"]) = Ok (- 11258999068426240).
Proof. split; vm_compute; reflexivity. Qed.

(** Beyond [2 ^ 53] the conversion rounds: ties go to the even
    significand. *)
Lemma round53_examples :
  round53 (2 ^ 53 + 1) = 2 ^ 53 /\ round53 (2 ^ 53 + 3) = 2 ^ 53 + 4 /\
  round53 (- (2 ^ 60 + 2 ^ 7 + 1)) = - (2 ^ 60 + 2 ^ 8).
Proof. split_and!; vm_compute; reflexivity. Qed.

Lemma below_spec (n : nat) (b : Z) : 0 <= b < Z.of_nat n -> In b (Binary64.below n).
Proof.
  induction n as [|n IH]; intros Hb; [lia|]. cbn [Binary64.below].
  destruct (decide (b = Z.of_nat n)) as [->|Hne]; [by left|].
  right. apply IH. lia.
Qed.

(** For every bitrate below 4096 kbps the machine floats and the integer
    arithmetic of the model give the same boost. *)
Lemma boost_binary64_exact (b : Z) :
  0 <= b < 4096 ->
  exists v, Binary64.boost b = Some v /\ boosted b = Ok v.
Proof.
  intros Hb.
  assert (Hall : forallb Binary64.agrees (Binary64.below 4096) = true)
    by (vm_compute; reflexivity).
  rewrite forallb_forall in Hall.
  specialize (Hall b (below_spec 4096 b ltac:(lia))).
  unfold Binary64.agrees in Hall.
  destruct (Binary64.boost b) as [v|]; [|discriminate Hall].
  destruct (boosted b) as [v'|x]; [|discriminate Hall].
  apply Z.eqb_eq in Hall as <-. by exists v.
Qed.

(* ===================================================================== *)
(** * Overall progress *)
(* ===================================================================== *)

Lemma foldl_Qplus (acc : Q) (l : list Q) :
  (foldl Qplus acc l == acc + foldr Qplus 0 l)%Q.
Proof.
  revert acc. induction l as [|x l IH]; intros acc; cbn [foldl foldr].
  - by rewrite Qplus_0_r.
  - rewrite IH. by rewrite Qplus_assoc.
Qed.

Lemma in_progress_sum_spec (js : list ConversionJob) :
  (in_progress_sum js == sum_in_progress js)%Q.
Proof.
  unfold in_progress_sum. rewrite foldl_Qplus, Qplus_0_l.
  induction js as [|j js IH]; cbn [List.filter List.map foldr sum_in_progress]; [done|].
  destruct (bool_decide (job_status j = processing));
    cbn [List.map foldr]; by rewrite IH.
Qed.

Lemma truediv_positive (x : Q) (n : nat) :
  n <> 0%nat ->
  truediv x (float_of_int (Z.of_nat n)) = Ok (x / inject_Z (Z.of_nat n))%Q.
Proof.
  intros Hn. unfold truediv, float_of_int.
  destruct (Qeq_bool (inject_Z (Z.of_nat n)) 0) eqn:E; [|done].
  apply Qeq_bool_eq in E. unfold Qeq in E. cbn in E. lia.
Qed.

(** C10.  [_calculate_overall_progress] returns 0.0 on an empty job list;
    on a non-empty one it returns the completed count plus the sum of the
    fractions of the jobs in progress, divided by the number of jobs; it
    never raises, so it never divides by zero. *)
Theorem C10_overall_progress (m : ConversionManager) :
  (jobs m = [] -> _calculate_overall_progress m = Ok 0%Q) /\
  (jobs m <> [] ->
     exists q,
       _calculate_overall_progress m = Ok q /\
       (q == (inject_Z (converted_count m + skipped_count m + error_count m)
              + sum_in_progress (jobs m))
             / inject_Z (Z.of_nat (length (jobs m))))%Q) /\
  (forall x, _calculate_overall_progress m <> Raise x).
Proof.
  unfold _calculate_overall_progress. destruct (jobs m) as [|j js] eqn:Hj.
  - split_and!; [done|done|done].
  - rewrite truediv_positive by done. split_and!; [done| |done].
    intros _. eexists. split; [done|].
    unfold float_of_int, completed_total. by rewrite in_progress_sum_spec.
Qed.

Lemma C10_overall_progress_witness :
  _calculate_overall_progress (new_manager demo_settings) = Ok 0%Q /\
  exists q, _calculate_overall_progress half_way_manager = Ok q /\ (q == 3 # 4)%Q.
Proof.
  split.
  - apply (proj1 (C10_overall_progress (new_manager demo_settings))). reflexivity.
  - destruct (proj1 (proj2 (C10_overall_progress half_way_manager)))
      as (q & Hq & Heq); [discriminate|].
    exists q. split; [exact Hq|]. rewrite Heq. reflexivity.
Defined.

(* ===================================================================== *)
(** * Runs of the machine *)
(* ===================================================================== *)

Lemma run_invariant (P : state -> Prop) (e : env) :
  (forall a s s', P s -> step e a s = Some s' -> P s') ->
  forall acts s s', P s -> run e acts s = Some s' -> P s'.
Proof.
  intros Hstep acts. induction acts as [|a acts IH]; intros s s' HP Hrun.
  - by injection Hrun as <-.
  - cbn [run] in Hrun. destruct (step e a s) as [s1|] eqn:E; [|done].
    eapply IH; [|done]. by eapply Hstep.
Qed.

Lemma run_app (e : env) (a1 a2 : list action) (s : state) :
  run e (a1 ++ a2) s = match run e a1 s with Some s1 => run e a2 s1 | None => None end.
Proof.
  revert s. induction a1 as [|a a1 IH]; intros s; cbn [run app]; [done|].
  by destruct (step e a s).
Qed.

(** Case analysis of one machine step. *)
Ltac step_cases H :=
  unfold step, dispatch_step, spawn_step, work_step, task_step, fail_batch in H;
  repeat (case_match; try discriminate H);
  try (injection H as <-).

(** Unpack what [list_find] found. *)
Ltac found :=
  repeat match goal with
  | H : list_find _ _ = Some _ |- _ =>
      apply list_find_Some in H as (? & ? & _)
  | H : _ /\ _ |- _ => destruct H
  end; simplify_eq/=.

Lemma discover_settings (e : env) (m m' : ConversionManager) :
  settings m = settings m' -> _discover_files e m = _discover_files e m'.
Proof. unfold _discover_files. by intros ->. Qed.

Lemma discover_pending (e : env) (m : ConversionManager) js :
  _discover_files e m = Ok js -> Forall (fun j => job_status j = pending) js.
Proof.
  unfold _discover_files. destruct (scan_fault e); [done|]. intros [= <-].
  apply Forall_forall. intros j Hj.
  apply list_elem_of_In, in_map_iff in Hj as (? & <- & _). done.
Qed.

Lemma lookup_alter_inv {A} (g : A -> A) (k k' : nat) (l : list A) (x : A) :
  alter g k l !! k' = Some x ->
  exists x0, l !! k' = Some x0 /\ (x = x0 \/ (k = k' /\ x = g x0)).
Proof.
  destruct (decide (k = k')) as [->|Hne].
  - rewrite list_lookup_alter_eq. destruct (l !! k') as [x0|]; [|done].
    intros [= <-]. eauto.
  - rewrite list_lookup_alter_ne by done. eauto.
Qed.

Lemma terminate_state (active : list nat) (f : future) :
  fut_job (terminate active f) = fut_job f /\
  (fut_state (terminate active f) = fut_state f \/
   exists p p', fut_state f = FRunning p /\ fut_state (terminate active f) = FRunning p').
Proof.
  unfold terminate. destruct (fut_state f) as [|[]| |] eqn:E; try (by split; [|left]).
  case_bool_decide; [|by split; [|left]]. split; [done|]. right. eauto.
Qed.

Ltac not_in_list H :=
  repeat (apply elem_of_cons in H as [H|H]; [discriminate H|]);
  by apply elem_of_nil in H.

(** ** Runs that end at discovery *)

Ltac pick_phase :=
  split_and!; try done;
  first [ by left
        | by right; left
        | right; right; split; [first [by left | by right] | done] ].

Lemma ends_at_discovery_step (e : env) (m : ConversionManager) a s s' :
  (_discover_files e m = Ok [] \/ exists x, _discover_files e m = Raise x) ->
  ends_at_discovery (discovery_message (_discover_files e m)) m s ->
  step e a s = Some s' ->
  ends_at_discovery (discovery_message (_discover_files e m)) m s'.
Proof.
  intros Hd (Hset & Hf & Hp & Hl & Hpc) Hstep.
  assert (Hstep' : pc s = DDiscover ->
            dispatch_step e s =
              Some (goto DFinally (put (discovery_message (_discover_files e m))
                      (match _discover_files e m with
                       | Ok js => on_mgr (set_jobs js) s
                       | Raise _ => s
                       end)))).
  { intros Hpc'. unfold dispatch_step. rewrite Hpc'.
    rewrite (discover_settings e _ _ Hset).
    by destruct Hd as [->|[x ->]]. }
  unfold ends_at_discovery.
  destruct a; cbn [step] in Hstep.
  - destruct Hpc as [[Hpc Hq]|[[Hpc Hq]|[[Hpc|Hpc] Hq]]].
    + unfold dispatch_step in Hstep. rewrite Hpc in Hstep.
      injection Hstep as <-. cbn. rewrite Hq. pick_phase.
    + rewrite (Hstep' Hpc) in Hstep. injection Hstep as <-. 
      destruct (_discover_files e m); cbn; rewrite Hq; pick_phase.
    + unfold dispatch_step in Hstep. rewrite Hpc in Hstep.
      injection Hstep as <-. cbn. pick_phase.
    + unfold dispatch_step in Hstep. by rewrite Hpc in Hstep.
  - unfold spawn_step in Hstep. rewrite Hf, Hp in Hstep. done.
  - unfold work_step in Hstep. rewrite Hf in Hstep. done.
  - destruct (ui s); [|done..]. injection Hstep as <-. cbn.
    split_and!; try done.
  - destruct (ui s); [|done..]. injection Hstep as <-. cbn.
    split_and!; try done.
  - destruct (ui s); [|done..]. injection Hstep as <-. cbn.
    split_and!; try done.
  - destruct (ui s); [done| |]; injection Hstep as <-; cbn; rewrite ?Hf;
      split_and!; try done.
Qed.

Lemma ends_at_discovery_run (e : env) (m : ConversionManager) acts s :
  (_discover_files e m = Ok [] \/ exists x, _discover_files e m = Raise x) ->
  run e acts (enter m) = Some s ->
  ends_at_discovery (discovery_message (_discover_files e m)) m s.
Proof.
  intros Hd Hrun.
  eapply run_invariant; [intros ????; by eapply ends_at_discovery_step| |done].
  unfold ends_at_discovery, enter; cbn. pick_phase.
Qed.

Lemma dispatch_discover_empty (e : env) (s : state) :
  pc s = DDiscover -> _discover_files e (mgr s) = Ok [] ->
  dispatch_step e s =
    Some (goto DFinally
            (put (LogMsg "No MP3 files found in source directory" "warning")
               (on_mgr (set_jobs []) s))).
Proof. intros Hpc Hd. unfold dispatch_step. by rewrite Hpc, Hd. Qed.

Lemma dispatch_discover_raise (e : env) (s : state) x :
  pc s = DDiscover -> _discover_files e (mgr s) = Raise x ->
  dispatch_step e s = Some (fail_batch x s).
Proof. intros Hpc Hd. unfold dispatch_step. by rewrite Hpc, Hd. Qed.

(** C2, as the code has it.  When discovery finds no file, the run puts
    the scanning log and the "No MP3 files found" warning and returns: the
    three counters are zero, no pool exists, the running flag is cleared.
    On no schedule does such a run create a pool, submit a job or put a
    Complete or an Error message. *)
Theorem C2_no_files_found (e : env) (m : ConversionManager) :
  _discover_files e m = Ok [] ->
  (exists s',
     run e [Dispatch; Dispatch; Dispatch] (enter m) = Some s' /\
     pc s' = DReturned /\
     message_queue s' =
       [LogMsg "Scanning for MP3 files..." "info";
        LogMsg "No MP3 files found in source directory" "warning"] /\
     converted_count (mgr s') = 0 /\ skipped_count (mgr s') = 0 /\
     error_count (mgr s') = 0 /\
     executor (mgr s') = None /\ is_running (mgr s') = false /\
     pool_size s' = 0 /\ futures s' = []) /\
  (forall acts s',
     run e acts (enter m) = Some s' ->
     pool_size s' = 0 /\ futures s' = [] /\
     (forall c k r, CompleteMsg c k r ∉ message_queue s') /\
     (forall text, ErrorMsg text ∉ message_queue s')).
Proof.
  intros Hd. split.
  - cbn [run step]. change (dispatch_step e (enter m)) with
      (Some (goto DDiscover (put (LogMsg "Scanning for MP3 files..." "info")
                               (on_mgr begin_run (enter m))))).
    cbv match. rewrite dispatch_discover_empty; [|done|].
    2: { rewrite <- Hd. by apply discover_settings. }
    eexists. split; [reflexivity|]. by repeat split.
  - intros acts s' Hrun.
    pose proof (ends_at_discovery_run e m acts s' (or_introl Hd) Hrun)
      as (_ & Hf & Hp & _ & Hpc).
    rewrite Hd in Hpc. cbn in Hpc. split_and!; [done..| |].
    + intros c k r Hin.
      destruct Hpc as [[_ Hq]|[[_ Hq]|[_ Hq]]]; rewrite Hq in Hin; not_in_list Hin.
    + intros text Hin.
      destruct Hpc as [[_ Hq]|[[_ Hq]|[_ Hq]]]; rewrite Hq in Hin; not_in_list Hin.
Qed.

Lemma C2_no_files_found_witness :
  exists s',
    run (with_fs empty_dir demo_env) [Dispatch; Dispatch; Dispatch]
        (enter (new_manager demo_settings)) = Some s' /\
    pc s' = DReturned /\
    message_queue s' =
      [LogMsg "Scanning for MP3 files..." "info";
       LogMsg "No MP3 files found in source directory" "warning"] /\
    pool_size s' = 0.
Proof.
  destruct (proj1 (C2_no_files_found (with_fs empty_dir demo_env)
                     (new_manager demo_settings) eq_refl))
    as (s' & Hrun & Hpc & Hq & _ & _ & _ & _ & _ & Hp & _).
  exists s'. repeat split; assumption.
Defined.

(** The claim as the specification words it fails: with an existing but
    empty source folder the run ends without any Complete message. *)
Lemma C2_counterexample :
  _discover_files (with_fs empty_dir demo_env) (new_manager demo_settings) = Ok [] /\
  exists s,
    run (with_fs empty_dir demo_env) (dispatch 3)
        (enter (new_manager demo_settings)) = Some s /\
    pc s = DReturned /\
    message_queue s =
      [LogMsg "Scanning for MP3 files..." "info";
       LogMsg "No MP3 files found in source directory" "warning"] /\
    CompleteMsg 0 0 0 ∉ message_queue s.
Proof.
  split; [reflexivity|]. eexists. split; [vm_compute; reflexivity|].
  split_and!; try reflexivity. cbn. intros Hin. not_in_list Hin.
Qed.

(** ** Entering a run *)

(** C3, as the code has it.  [convert_batch] has no guard on [is_running]
    and no AlreadyRunningError: whatever the flags and counters of the
    manager are on entry, its first statements set [is_running], clear
    [should_cancel], reset the three counters to zero and put the scanning
    log, and the run goes on to discovery; the job list and the pause flag
    are left as they were. *)
Theorem C3_no_running_guard (e : env) (m : ConversionManager) :
  exists s',
    dispatch_step e (enter m) = Some s' /\
    pc s' = DDiscover /\
    message_queue s' = [LogMsg "Scanning for MP3 files..." "info"] /\
    is_running (mgr s') = true /\ should_cancel (mgr s') = false /\
    converted_count (mgr s') = 0 /\ skipped_count (mgr s') = 0 /\
    error_count (mgr s') = 0 /\
    jobs (mgr s') = jobs m /\ is_paused (mgr s') = is_paused m.
Proof. eexists. split; [reflexivity|]. by repeat split. Qed.

(** The claim as the specification words it fails: entered on a manager
    whose run is in progress, [convert_batch] does not fail and it resets
    the counters. *)
Lemma C3_counterexample :
  is_running busy_manager = true /\
  exists s,
    dispatch_step demo_env (enter busy_manager) = Some s /\
    pc s = DDiscover /\
    message_queue s = [LogMsg "Scanning for MP3 files..." "info"] /\
    mgr s <> busy_manager /\
    converted_count (mgr s) = 0 /\ skipped_count (mgr s) = 0 /\
    error_count (mgr s) = 0.
Proof.
  split; [reflexivity|]. eexists. split; [reflexivity|].
  split_and!; try reflexivity. cbn. intros H. discriminate H.
Qed.

(** ** Discovery *)

(** C4, as the code has it.  A source root that does not exist or is not a
    directory is no error: discovery yields the empty sequence, as it does
    for a directory without matching files, and no schedule of the run puts
    an Error message.  Only an exception raised while walking the tree is
    fatal: the run puts the scanning log and one Error message and returns,
    and on no schedule is a job submitted or counted or a Complete message
    put. *)
Theorem C4_discovery (e : env) (m : ConversionManager) :
  let root := source_folder (settings m) in
  (scan_fault e = None ->
   (lookup_node (fs e) root = None \/ lookup_node (fs e) root = Some FileNode \/
    exists n, lookup_node (fs e) root = Some n /\ rglob_mp3 n = []) ->
   _discover_files e m = Ok [] /\
   forall acts s', run e acts (enter m) = Some s' ->
                   forall text, ErrorMsg text ∉ message_queue s') /\
  (forall x, _discover_files e m = Raise x ->
     (exists s',
        run e [Dispatch; Dispatch; Dispatch] (enter m) = Some s' /\
        pc s' = DReturned /\
        message_queue s' =
          [LogMsg "Scanning for MP3 files..." "info";
           ErrorMsg ("Batch conversion failed: " +:+ str_exn x)]) /\
     forall acts s', run e acts (enter m) = Some s' ->
                     futures s' = [] /\ ledger s' = [] /\
                     forall c k r, CompleteMsg c k r ∉ message_queue s').
Proof.
  intros root. split.
  - intros Hscan Hroot.
    assert (Hd : _discover_files e m = Ok []).
    { unfold _discover_files. rewrite Hscan. fold root. 
      replace (rglob (fs e) root) with (@nil path); [done|].
      unfold rglob. destruct Hroot as [->|[->|(n & -> & ->)]]; done. }
    split; [done|]. intros acts s' Hrun text Hin.
    pose proof (ends_at_discovery_run e m acts s' (or_introl Hd) Hrun)
      as (_ & _ & _ & _ & Hpc).
    rewrite Hd in Hpc. cbn in Hpc.
    destruct Hpc as [[_ Hq]|[[_ Hq]|[_ Hq]]]; rewrite Hq in Hin; not_in_list Hin.
  - intros x Hd. split.
    + cbn [run step]. change (dispatch_step e (enter m)) with
        (Some (goto DDiscover (put (LogMsg "Scanning for MP3 files..." "info")
                                 (on_mgr begin_run (enter m))))).
      cbv match. rewrite (dispatch_discover_raise _ _ x); [|done|].
      2: { rewrite <- Hd. by apply discover_settings. }
      eexists. split; [reflexivity|]. by repeat split.
    + intros acts s' Hrun.
      pose proof (ends_at_discovery_run e m acts s' (or_intror (ex_intro _ x Hd)) Hrun)
        as (_ & Hf & _ & Hl & Hpc).
      rewrite Hd in Hpc. cbn in Hpc. split_and!; [done..|].
      intros c k r Hin.
      destruct Hpc as [[_ Hq]|[[_ Hq]|[_ Hq]]]; rewrite Hq in Hin; not_in_list Hin.
Qed.

Lemma C4_discovery_witness :
  _discover_files (with_fs no_source_dir demo_env) (new_manager demo_settings) = Ok [] /\
  exists s',
    run unreadable_env [Dispatch; Dispatch; Dispatch]
        (enter (new_manager demo_settings)) = Some s' /\
    pc s' = DReturned /\
    message_queue s' =
      [LogMsg "Scanning for MP3 files..." "info";
       ErrorMsg "Batch conversion failed: [Errno 5] Input/output error"].
Proof.
  split.
  - apply (proj1 (C4_discovery (with_fs no_source_dir demo_env)
                    (new_manager demo_settings))); [reflexivity|].
    left. reflexivity.
  - apply (proj2 (C4_discovery unreadable_env (new_manager demo_settings))
             (OSError "[Errno 5] Input/output error")).
    reflexivity.
Defined.

(** The claim as the specification words it fails: with a missing source
    root discovery returns the empty list and the run ends with the "no
    files" warning, without any Error message. *)
Lemma C4_counterexample :
  lookup_node (fs (with_fs no_source_dir demo_env))
              (source_folder (settings (new_manager demo_settings))) = None /\
  _discover_files (with_fs no_source_dir demo_env) (new_manager demo_settings) = Ok [] /\
  exists s,
    run (with_fs no_source_dir demo_env) (dispatch 3)
        (enter (new_manager demo_settings)) = Some s /\
    pc s = DReturned /\
    message_queue s =
      [LogMsg "Scanning for MP3 files..." "info";
       LogMsg "No MP3 files found in source directory" "warning"].
Proof.
  split; [reflexivity|]. split; [reflexivity|].
  eexists. split; [vm_compute; reflexivity|]. by split.
Qed.

(** ** Invariants *)

Lemma quiet_step (e : env) a s s' :
  quiet_inv s -> step e a s = Some s' -> quiet_inv s'.
Proof.
  unfold quiet_inv. intros Hinv Hstep.
  destruct a; step_cases Hstep; cbn; try done.
  all: intros Hb; try (match goal with H : pc _ = _ |- _ => rewrite H in * end);
    try discriminate Hb.
  all: destruct (Hinv Hb) as [Hl Hf]; rewrite ?Hl, ?Hf in *; try done.
Qed.

Lemma count_of_app c l x :
  count_of c (l ++ [x]) = count_of c l + (if bool_decide (x.1 = c) then 1 else 0).
Proof.
  unfold count_of. rewrite List.filter_app, length_app. cbn [List.filter].
  destruct (bool_decide (x.1 = c)); cbn [length]; lia.
Qed.

Lemma counters_step (e : env) a s s' :
  quiet_inv s -> counters_inv s -> step e a s = Some s' -> counters_inv s'.
Proof.
  unfold counters_inv, quiet_inv. intros Hq Hinv Hstep.
  destruct a; step_cases Hstep; cbn; try done.
  all: intros Hne; try (match goal with H : pc _ = _ |- _ => rewrite H in * end).
  all: try (destruct Hq as [-> _]; done).
  all: destruct Hinv as (Hc & Hs & He); [done|].
  all: rewrite ?count_of_app; cbn [fst]; repeat case_bool_decide; try done.
  all: split_and!; lia.
Qed.

Lemma no_new_cancel_refl l : no_new_cancel l l.
Proof. intros k f' ??. eauto. Qed.

Lemma no_new_cancel_alter k st l :
  st <> FCancelled -> no_new_cancel l (alter (set_fstate st) k l).
Proof.
  intros Hst k' f' Hlook Hc.
  apply lookup_alter_inv in Hlook as (f0 & Hl0 & [->|[-> ->]]); [eauto|done].
Qed.

Lemma no_new_cancel_app l j : 
  no_new_cancel l (l ++ [{| fut_job := j; fut_state := FPending |}]).
Proof.
  intros k f' Hlook Hc. apply lookup_app_Some in Hlook as [?|[_ Hlook]]; [eauto|].
  apply list_lookup_singleton_Some in Hlook as [_ <-]. done.
Qed.

Lemma no_new_cancel_terminate active l :
  no_new_cancel l (List.map (terminate active) l).
Proof.
  intros k f' Hlook Hc. change (List.map (terminate active) l) with (terminate active <$> l) in Hlook.
  rewrite list_lookup_fmap in Hlook.
  destruct (l !! k) as [f|]; [|done]. injection Hlook as <-.
  exists f. split; [done|].
  destruct (terminate_state active f) as [_ [<-|(p & p' & _ & E)]]; [done|congruence].
Qed.

Lemma uncancelled_step (e : env) a s s' :
  uncancelled_inv s -> step e a s = Some s' -> uncancelled_inv s'.
Proof.
  unfold uncancelled_inv. intros Hinv Hstep.
  destruct a; step_cases Hstep; cbn; try done.
  all: try (match goal with H : pc _ = _ |- _ => rewrite H in * end); cbn in Hinv.
  all: intros k0 Hk0 k' f' Hle Hlook.
  all: try discriminate Hk0.
  all: try (injection Hk0 as <-).
  all: try (by eapply Hinv; [done | | done]; lia).
  all: try (by eapply (Hinv _ eq_refl); [|done]; lia).
  all: intros Hc.
  all: try (rewrite list_lookup_alter_ne in Hlook by lia;
            by eapply (Hinv _ eq_refl); [|done|done]; lia).
  all: try first
    [ destruct (no_new_cancel_app _ _ _ _ Hlook Hc) as (f0 & ? & ?)
    | (pose proof (fun Hst => no_new_cancel_alter _ _ _ Hst _ _ Hlook Hc) as Hx;
       destruct Hx as (f0 & ? & ?); [done|])
    | destruct (no_new_cancel_terminate _ _ _ _ Hlook Hc) as (f0 & ? & ?) ].
  all: try (by eapply Hinv; eauto).
Qed.

Lemma keeps_started_set st :
  (match st with FRunning _ | FDone _ => True | _ => False end) ->
  keeps_started (set_fstate st).
Proof. intros Hst f _. destruct st; try (by destruct Hst); by split. Qed.

Lemma keeps_started_cancel : keeps_started cancel_future.
Proof.
  intros f Hf. unfold cancel_future. unfold future_started in Hf.
  destruct (fut_state f) eqn:E; try done;
    (split; [unfold future_started; by rewrite E | done]).
Qed.

Lemma keeps_started_terminate active : keeps_started (terminate active).
Proof.
  intros f Hf. destruct (terminate_state active f) as [Hj [Hs|(p & p' & Hs & Hs')]].
  - split; [|done]. unfold future_started in *. by rewrite Hs.
  - split; [|done]. unfold future_started. by rewrite Hs'.
Qed.

Lemma started_in_app l f j : started_in l j -> started_in (l ++ [f]) j.
Proof.
  intros (f0 & ? & ? & ?). exists f0. split; [|done].
  apply elem_of_app. by left.
Qed.

Lemma started_in_alter g k l j :
  keeps_started g -> started_in l j -> started_in (alter g k l) j.
Proof.
  intros Hg (f0 & Hin & Hj & Hs). apply list_elem_of_lookup in Hin as [i Hi].
  destruct (decide (k = i)) as [->|Hne].
  - exists (g f0). destruct (Hg f0 Hs) as [? ?]. split_and!; [|congruence|done].
    apply list_elem_of_lookup. exists i. by rewrite list_lookup_alter_eq, Hi.
  - exists f0. split_and!; [|done|done].
    apply list_elem_of_lookup. exists i. by rewrite list_lookup_alter_ne.
Qed.

Lemma started_in_map g l j :
  keeps_started g -> started_in l j -> started_in (List.map g l) j.
Proof.
  intros Hg (f0 & Hin & Hj & Hs). exists (g f0). destruct (Hg f0 Hs) as [? ?].
  split_and!; [|congruence|done].
  apply list_elem_of_In, in_map, list_elem_of_In, Hin.
Qed.

Lemma started_in_alter_at st k l f :
  l !! k = Some f ->
  (match st with FRunning _ | FDone _ => True | _ => False end) ->
  started_in (alter (set_fstate st) k l) (fut_job f).
Proof.
  intros Hl Hst. exists (set_fstate st f). split_and!; [|done|destruct st; try (by destruct Hst); done].
  apply list_elem_of_lookup. exists k. by rewrite list_lookup_alter_eq, Hl.
Qed.

Ltac started_mono :=
  first
    [ assumption
    | apply started_in_app; assumption
    | apply started_in_alter;
        [ first [ apply keeps_started_cancel | by apply keeps_started_set ]
        | assumption ]
    | apply started_in_map; [ apply keeps_started_terminate | assumption ] ].

(** The future found by [work_step] is started after the step. *)
Ltac started_here :=
  match goal with
  | H : futures _ !! ?n = Some ?f |- started_in (alter (set_fstate ?st) ?n _) _ =>
      exact (started_in_alter_at st n _ f H I)
  end.

Lemma status_step (e : env) a s s' :
  status_inv s -> step e a s = Some s' -> status_inv s'.
Proof.
  unfold status_inv, started. intros Hinv Hstep.
  destruct a; step_cases Hstep; cbn; try done.
  all: found.
  all: intros j0 job0 Hjob Hst.
  all: try (by eapply Hinv).
  all: try (exfalso; apply Hst;
            match goal with
            | Hd : _discover_files _ _ = Ok ?a, Hj : ?a !! _ = Some _ |- _ =>
                pose proof (discover_pending _ _ _ Hd) as Hp;
                rewrite Forall_lookup in Hp; exact (Hp _ _ Hj)
            end).
  all: try (apply lookup_alter_inv in Hjob as (jb & Hjb & [->|[-> ->]]); cbn in Hst |- *).
  all: try (by left).
  all: try (right; started_here).
  all: try (destruct (Hinv _ _ ltac:(eassumption) Hst) as [?|Hs]; [by left|right; started_mono]).
Qed.

Lemma started_in_lookup (l : list future) (k : nat) (f : future) :
  l !! k = Some f -> future_started f = true -> started_in l (fut_job f).
Proof. intros Hl Hs. exists f. split_and!; [|done|done]. by eapply list_elem_of_lookup_2. Qed.

(** A skipped job stays skipped when another job, or only its progress, is
    updated. *)
Lemma skipped_alter (g : ConversionJob -> ConversionJob) (i : nat)
    (l : list ConversionJob) (j : nat) :
  (i <> j \/ forall jb, job_status jb = skipped -> job_status (g jb) = skipped) ->
  (exists job, l !! j = Some job /\ job_status job = skipped) ->
  exists job, alter g i l !! j = Some job /\ job_status job = skipped.
Proof.
  intros Hg (job & Hl & Hs). destruct (decide (i = j)) as [->|Hne].
  - destruct Hg as [?|Hg]; [done|]. exists (g job).
    rewrite list_lookup_alter_eq, Hl. split; [done|]. by apply Hg.
  - exists job. by rewrite list_lookup_alter_ne.
Qed.

Lemma ledger_step (e : env) a s s' :
  quiet_inv s -> uncancelled_inv s -> ledger_inv s ->
  step e a s = Some s' -> ledger_inv s'.
Proof.
  unfold ledger_inv, started. intros Hq Hu Hinv Hstep.
  destruct a; step_cases Hstep; cbn; try done.
  all: found.
  all: intros c0 j0 Hin.
  all: try (by eapply Hinv).
  (* discovery: nothing was counted before *)
  all: try (destruct Hq as [Hl _]; [by rewrite H|]; rewrite Hl in Hin;
            by apply elem_of_nil in Hin).
  (* increments *)
  all: try (apply elem_of_app in Hin as [Hin|Hin];
            [|apply list_elem_of_singleton in Hin; simplify_eq]).
  (* the job the step works for *)
  all: try (right; started_here).
  all: try (left; eexists; rewrite list_lookup_alter_eq;
            match goal with H : jobs _ !! _ = Some _ |- _ => rewrite H end; done).
  (* the result of a future that ran *)
  all: try (right; match goal with
            | H : futures _ !! _ = Some ?f |- _ =>
                apply (started_in_lookup _ _ f H);
                unfold future_started; by destruct (fut_state f)
            end).
  (* a cancelled future is never asked for its result *)
  all: try (exfalso; match goal with
            | Hp : pc _ = DResult ?k, H : futures _ !! ?k = Some ?f,
              E : fut_state ?f = FCancelled |- _ =>
                unfold uncancelled_inv in Hu; rewrite Hp in Hu;
                exact (Hu k eq_refl k f (Nat.le_refl k) H E)
            end).
  (* an earlier increment *)
  all: try (destruct (Hinv _ _ Hin) as [Hsk|Hs];
            [ left; first [ exact Hsk | apply skipped_alter; [|exact Hsk]; by right ]
            | right; started_mono ]).
  all: try (destruct (decide (j = j0)) as [->|Hne]; [right; started_here|]).
  all: try (destruct (Hinv _ _ Hin) as [Hsk|Hs];
            [ left; apply skipped_alter; [|exact Hsk]; by left
            | right; started_mono ]).
Qed.

Lemma executor_step (e : env) a s s' :
  executor_inv s -> step e a s = Some s' -> executor_inv s'.
Proof.
  unfold executor_inv, cancel_returned, pool_shut. intros [Hex Hsh] Hstep.
  destruct a; step_cases Hstep; cbn; try done.
  all: try (match goal with H : pc _ = _ |- _ => rewrite H in * end); cbn in *.
  all: split; [try done; try (intros; by eapply Hex)|].
  all: try (intros (? & ? & ?) ?; done).
  all: try (intros (? & ? & ?) ?; apply Hsh; done).
  all: try (intros (? & ? & ?) ?; congruence).
  - intros Hl. destruct (Hex Hl) as [ex ->]. by eexists.
  - intros (? & ? & _) Hb. destruct Hex as [ex Hx]; [by destruct (pc s)|].
    rewrite Hx. by eexists.
Qed.

Lemma fmap_job_alter (g : future -> future) (k : nat) (l : list future) :
  (forall f, fut_job (g f) = fut_job f) ->
  fut_job <$> alter g k l = fut_job <$> l.
Proof.
  intros Hg. revert k. induction l as [|f l IH]; intros [|k]; cbn; [done..| |].
  - by rewrite Hg.
  - f_equal. apply IH.
Qed.

Lemma fmap_job_terminate active (l : list future) :
  fut_job <$> List.map (terminate active) l = fut_job <$> l.
Proof.
  induction l as [|f l IH]; cbn; [done|].
  f_equal; [apply terminate_state | apply IH].
Qed.

Lemma cancel_future_job f : fut_job (cancel_future f) = fut_job f.
Proof. unfold cancel_future. by destruct (fut_state f). Qed.



Lemma run_inv_enter (m : ConversionManager) :
  fresh_jobs m -> run_inv (enter m).
Proof.
  intros Hfresh. unfold run_inv. split_and!.
  - done.
  - intros k _ k' f _ Hl. done.
  - done.
  - intros j job Hj Hne. unfold fresh_jobs in Hfresh.
    rewrite Forall_lookup in Hfresh. by specialize (Hfresh _ _ Hj).
  - intros c j Hin. cbn in Hin. by apply elem_of_nil in Hin.
  - split; [done|]. intros (? & ? & ?). done.
Qed.

Lemma run_inv_step (e : env) a s s' :
  run_inv s -> step e a s = Some s' -> run_inv s'.
Proof.
  intros (Hq & Hu & Hc & Hs & Hl & Hx) Hstep. unfold run_inv. split_and!.
  - by eapply quiet_step.
  - by eapply uncancelled_step.
  - by eapply counters_step.
  - by eapply status_step.
  - by eapply ledger_step.
  - by eapply executor_step.
Qed.

Lemma run_inv_run (e : env) (m : ConversionManager) acts s :
  fresh_jobs m -> run e acts (enter m) = Some s -> run_inv s.
Proof.
  intros Hfresh Hrun.
  eapply (run_invariant run_inv); [apply run_inv_step|by apply run_inv_enter|done].
Qed.

(** ** The status "processing" *)

Lemma never_processing_step (e : env) a s s' :
  Forall (fun j => job_status j <> processing) (jobs (mgr s)) ->
  step e a s = Some s' ->
  Forall (fun j => job_status j <> processing) (jobs (mgr s')).
Proof.
  intros Hinv Hstep.
  destruct a; step_cases Hstep; cbn; try done.
  all: try (apply Forall_alter; [done|]; cbn; intros; done).
  all: match goal with
       | Hd : _discover_files _ _ = Ok ?a |- _ =>
           eapply Forall_impl; [exact (discover_pending _ _ _ Hd)|];
           cbn; intros ? ->; done
       end.
Qed.

(** No state of any run has a job in status "processing": no statement
    of [convert.py] assigns it. *)
Lemma never_processing (e : env) (m : ConversionManager) acts s :
  Forall (fun j => job_status j <> processing) (jobs m) ->
  run e acts (enter m) = Some s ->
  Forall (fun j => job_status j <> processing) (jobs (mgr s)).
Proof.
  intros Hm Hrun.
  eapply (run_invariant (fun s => Forall (fun j => job_status j <> processing)
                                    (jobs (mgr s))) e);
    [apply never_processing_step| |exact Hrun]; exact Hm.
Qed.

(** C7 (code defect).  The run of one job whose encode succeeds, state by
    state: the status of the job next to the state of its future.  The
    status is still "pending" when the pool thread begins, while the
    encoder reports progress and when it returns, and it jumps to
    "completed": "processing" is never assigned, although
    [_calculate_overall_progress] selects the jobs in that status. *)
Theorem C7_status_skips_processing :
  List.map (fun s => (job_status <$> jobs (mgr s), fut_state <$> futures s))
    (trace demo_env one_job_schedule (enter (new_manager demo_settings)))
  = [ ([], []); ([], []);
      ([pending], []); ([pending], []); ([pending], []); ([pending], []);
      ([pending], [FPending]); ([pending], [FPending]); ([pending], [FPending]);
      ([pending], [FRunning WBegin]);
      ([pending], [FRunning (WEncode [1 # 2; 1]%Q (EncodeReturns true))]);
      ([pending], [FRunning (WEncode [1%Q] (EncodeReturns true))]);
      ([pending], [FRunning (WEncode [] (EncodeReturns true))]);
      ([pending], [FRunning WSuccess]);
      ([completed], [FRunning (WFinally true)]);
      ([completed], [FDone None]); ([completed], [FDone None]);
      ([completed], [FDone None]); ([completed], [FDone None]);
      ([completed], [FDone None]); ([completed], [FDone None]) ].
Proof. vm_compute. reflexivity. Qed.

(** ** The counters *)

(** On the runs where every pool thread binds its [engine] (no [mkdir]
    fails), each job is counted once: the three counters never sum to more
    than the number of jobs, and at the Complete message of a run that was
    not cancelled they sum to exactly that number. *)

(** Where an entry of the updated list of futures comes from. *)
Ltac look H :=
  first
    [ apply lookup_app_Some in H as [H|[_ H]];
        [|apply list_lookup_singleton_Some in H as [_ <-]]
    | apply lookup_alter_inv in H as (?f & H & [->|[-> ->]])
    | apply list_lookup_fmap_Some_1 in H as (?f & -> & H) ].

Lemma lookup_map_Some {A B} (g : A -> B) (l : list A) (k : nat) (y : B) :
  List.map g l !! k = Some y -> exists x, y = g x /\ l !! k = Some x.
Proof.
  change (List.map g l) with (g <$> l). rewrite list_lookup_fmap.
  destruct (l !! k) as [x|]; [|done]. intros [= <-]. eauto.
Qed.

Lemma bound_engine_cancel f :
  bound_engine (fut_state f) = true -> bound_engine (fut_state (cancel_future f)) = true.
Proof. unfold cancel_future. by destruct (fut_state f) eqn:E; cbn; rewrite ?E. Qed.

Lemma bound_engine_terminate active f :
  bound_engine (fut_state f) = true ->
  bound_engine (fut_state (terminate active f)) = true.
Proof.
  unfold terminate. destruct (fut_state f) as [|[]| |] eqn:E; rewrite ?E; try done.
  case_bool_decide; cbn; by rewrite ?E.
Qed.

Lemma no_slip_step (e : env) a s s' :
  (forall p, mkdir_fault e p = None) ->
  no_slip_inv s -> step e a s = Some s' -> no_slip_inv s'.
Proof.
  unfold no_slip_inv. intros Hmk Hinv Hstep.
  destruct a; step_cases Hstep; cbn; try done.
  all: found.
  all: try (match goal with H : mkdir_fault _ _ = Some _ |- _ => by rewrite Hmk in H end).
  all: intros k0 f0 Hl0.
  all: try (by eapply Hinv).
  all: try (apply lookup_map_Some in Hl0 as (f1 & -> & Hl0);
            by eapply bound_engine_terminate, Hinv).
  all: try look Hl0.
  all: try (by eapply Hinv).
  all: try done.
  all: try (by eapply bound_engine_cancel, Hinv).
  all: match goal with
       | H : futures _ !! _ = Some {| fut_state := FRunning _ |} |- _ =>
           apply Hinv in H; cbn in H |- *; by try destruct engine_bound
       end.
Qed.

Lemma submitted_lookup (s : state) (k : nat) (f : future) :
  futures s !! k = Some f -> fut_job f ∈ submitted s.
Proof.
  intros Hl. unfold submitted. apply list_elem_of_fmap. exists f. split; [done|].
  by eapply list_elem_of_lookup_2.
Qed.

(** Rewrite the jobs of an updated list of futures, and the jobs of an
    extended ledger. *)
Ltac norm_lists :=
  unfold submitted, counted in *; cbn [futures ledger set_futures bump put goto on_mgr set_mgr] in *;
  rewrite ?fmap_app, ?fmap_job_terminate in *;
  rewrite ?fmap_job_alter in * by first [apply cancel_future_job | done];
  cbn [fmap list_fmap snd fut_job] in *.

Lemma frontier_step (e : env) a s s' :
  quiet_inv s -> frontier_inv s -> step e a s = Some s' -> frontier_inv s'.
Proof.
  unfold frontier_inv. intros Hq Hinv Hstep.
  destruct a; step_cases Hstep; cbn; try done.
  all: found.
  all: try (match goal with H : pc _ = _ |- _ => rewrite H in * end); cbn in Hinv.
  all: intros i0 Hi0 j0 job0 Hle Hjob; try discriminate Hi0; try (injection Hi0 as <-).
  all: norm_lists.
  all: try (by eapply Hinv).
  all: try (by eapply (Hinv _ eq_refl); [|done]; lia).
  (* discovery *)
  all: try (match goal with
            | Hd : _discover_files _ _ = Ok ?a, Hj : ?a !! _ = Some _ |- _ =>
                destruct Hq as [Hl Hf]; [by rewrite H|]; rewrite Hl, Hf;
                pose proof (discover_pending _ _ _ Hd) as Hp;
                rewrite Forall_lookup in Hp;
                split_and!; [exact (Hp _ _ Hj)|apply not_elem_of_nil..]
            end).
  (* the step changed job [j], which had been submitted *)
  all: try (match goal with
            | Hf : futures _ !! _ = Some {| fut_job := ?j |} |- _ =>
                apply submitted_lookup in Hf; unfold submitted in Hf; cbn in Hf
            end).
  all: try (apply lookup_alter_inv in Hjob as (jb & Hjb & [->|[-> ->]])).
  all: try (by destruct (Hinv _ Hi0 _ _ Hle ltac:(eassumption)) as (_ & ? & _)).
  all: try (destruct (Hinv _ Hi0 _ _ Hle Hjb) as (Hp & Hs & Hc)).
  all: try (destruct (Hinv _ eq_refl j0 jb ltac:(lia) Hjb) as (Hp & Hs & Hc)).
  all: try (destruct (Hinv _ eq_refl j0 job0 ltac:(lia) Hjob) as (Hp & Hs & Hc)).
  all: try lia.
  all: rewrite ?not_elem_of_app, ?list_elem_of_singleton.
  all: try (split_and!; try done; try lia; by intros ->).
Qed.

Lemma nodup_submitted_step (e : env) a s s' :
  frontier_inv s -> NoDup (submitted s) -> step e a s = Some s' ->
  NoDup (submitted s').
Proof.
  intros Hfr Hinv Hstep.
  destruct a; step_cases Hstep; cbn; try done.
  all: norm_lists; try done.
  apply NoDup_app. split_and!; [done| |apply NoDup_singleton].
  intros j Hj ->%list_elem_of_singleton.
  unfold frontier_inv in Hfr. rewrite H in Hfr.
  by destruct (Hfr i eq_refl i _ ltac:(lia) ltac:(eassumption)) as (_ & ? & _).
Qed.

Lemma count_of_total (l : list (counter * nat)) :
  count_of Converted l + count_of Skipped l + count_of Errored l
  = Z.of_nat (length l).
Proof.
  unfold count_of. induction l as [|[[] j] l IH]; cbn [List.filter length fst];
    repeat case_bool_decide; try done; cbn [length]; lia.
Qed.

(** Distinct job indices that all name a job are no more than the jobs. *)
Lemma nodup_bounded (l : list nat) (n : nat) :
  NoDup l -> (forall j, j ∈ l -> (j < n)%nat) -> (length l <= n)%nat.
Proof.
  intros Hnd Hlt.
  assert (l ⊆+ seq 0 n) as Hsub.
  { apply NoDup_submseteq; [done|]. intros j Hj. apply elem_of_seq.
    specialize (Hlt j Hj). lia. }
  apply submseteq_length in Hsub. by rewrite length_seq in Hsub.
Qed.

Lemma nodup_covering (l : list nat) (n : nat) :
  (forall j, (j < n)%nat -> j ∈ l) -> (n <= length l)%nat.
Proof.
  intros Hall.
  assert (seq 0 n ⊆+ l) as Hsub.
  { apply NoDup_submseteq; [apply NoDup_seq|]. intros j Hj.
    apply elem_of_seq in Hj. apply Hall. lia. }
  apply submseteq_length in Hsub. by rewrite length_seq in Hsub.
Qed.

Lemma submitted_unique (l : list future) (k k' : nat) (f f' : future) :
  NoDup (fut_job <$> l) -> l !! k = Some f -> l !! k' = Some f' ->
  fut_job f = fut_job f' -> k = k'.
Proof.
  intros Hnd Hk Hk' Heq.
  eapply (NoDup_lookup _ _ _ _ Hnd); rewrite list_lookup_fmap.
  - by rewrite Hk.
  - rewrite Hk'. cbn. by rewrite Heq.
Qed.

Lemma uncounted_cancel f :
  uncounted_phase (fut_state (cancel_future f)) = uncounted_phase (fut_state f).
Proof. unfold cancel_future. by destruct (fut_state f) eqn:E; cbn; rewrite ?E. Qed.

Lemma uncounted_terminate active f :
  uncounted_phase (fut_state (terminate active f)) = uncounted_phase (fut_state f).
Proof.
  unfold terminate. destruct (fut_state f) as [|[]| |] eqn:E; rewrite ?E; try done.
  case_bool_decide; cbn; by rewrite ?E.
Qed.

Lemma lookup_alter_cases {A} (g : A -> A) (k k' : nat) (l : list A) (x : A) :
  alter g k l !! k' = Some x ->
  exists x0, l !! k' = Some x0 /\ ((k <> k' /\ x = x0) \/ (k = k' /\ x = g x0)).
Proof.
  destruct (decide (k = k')) as [->|Hne].
  - rewrite list_lookup_alter_eq. destruct (l !! k') as [x0|]; [|done].
    intros [= <-]. eauto.
  - rewrite list_lookup_alter_ne by done. eauto.
Qed.

Lemma phase_ok_same st st' job job' j cnt :
  uncounted_phase st' = uncounted_phase st ->
  job_status job' = job_status job ->
  phase_ok st job j cnt -> phase_ok st' job' j cnt.
Proof. unfold phase_ok. by intros -> ->. Qed.

Lemma phase_ok_other st job j cnt j' :
  j <> j' -> phase_ok st job j cnt -> phase_ok st job j (cnt ++ [j']).
Proof.
  unfold phase_ok. intros Hne. destruct (uncounted_phase st); intros [? ?].
  - split; [done|]. rewrite not_elem_of_app, list_elem_of_singleton. done.
  - split; [done|]. apply elem_of_app. by left.
Qed.

Lemma phase_ok_counted st' job' j cnt :
  uncounted_phase st' = false -> job_status job' <> pending ->
  phase_ok st' job' j (cnt ++ [j]).
Proof.
  unfold phase_ok. intros -> ?. split; [done|].
  apply elem_of_app. right. by apply list_elem_of_singleton.
Qed.

Lemma phase_step (e : env) a s s' :
  quiet_inv s -> uncancelled_inv s -> no_slip_inv s -> frontier_inv s ->
  NoDup (submitted s) -> phase_inv s ->
  step e a s = Some s' -> phase_inv s'.
Proof.
  unfold phase_inv. intros Hq Hu Hns Hfr Hnd Hinv Hstep.
  destruct a; step_cases Hstep; cbn; try done.
  all: found.
  all: intros k0 f0 job0 Hl0 Hjob.
  all: try (by eapply Hinv).
  all: norm_lists.
  (* discovery: no future yet *)
  all: try (destruct Hq as [_ Hf]; [by rewrite H|]; by rewrite Hf in Hl0).
  (* the result of a future: never one that raised or was cancelled *)
  all: try (match goal with
            | Hp : pc _ = DResult ?k, Hk : futures _ !! ?k = Some ?f,
              E : fut_state ?f = FDone (Some _) |- _ =>
                apply Hns in Hk; by rewrite E in Hk
            | Hp : pc _ = DResult ?k, Hk : futures _ !! ?k = Some ?f,
              E : fut_state ?f = FCancelled |- _ =>
                unfold uncancelled_inv in Hu; rewrite Hp in Hu;
                by destruct (Hu k eq_refl k f (Nat.le_refl k) Hk E)
            end).
  (* terminated encoders, cancelled futures *)
  all: try (apply lookup_map_Some in Hl0 as (f1 & -> & Hl0);
            destruct (terminate_state (active_engines (mgr s)) f1) as [Hj _];
            rewrite Hj in *;
            by eapply phase_ok_same; [apply uncounted_terminate|done|eapply Hinv]).
  all: try (apply lookup_alter_cases in Hl0 as (f1 & Hl1 & [[Hne ->]|[-> ->]]);
            [by eapply Hinv|];
            rewrite cancel_future_job in *;
            by eapply phase_ok_same; [apply uncounted_cancel|done|eapply Hinv]).
  (* a job is skipped: it was never submitted *)
  all: try (match goal with
            | Hp : pc _ = DSkipCheck ?i, Hi : jobs _ !! ?i = Some _ |- _ =>
                assert (Hne : i <> fut_job f0)
                  by (intros Heq; unfold frontier_inv in Hfr; rewrite Hp in Hfr;
                      destruct (Hfr i eq_refl i _ (Nat.le_refl i) Hi) as (_ & Hs & _);
                      apply Hs; rewrite Heq; by eapply submitted_lookup);
                rewrite list_lookup_alter_ne in Hjob by done;
                apply phase_ok_other; [done|]; by eapply Hinv
            end).
  (* a job is submitted *)
  all: try (match goal with
            | Hp : pc _ = DSubmit ?i |- _ =>
                look Hl0; [by eapply Hinv|];
                unfold frontier_inv in Hfr; rewrite Hp in Hfr;
                destruct (Hfr i eq_refl i _ (Nat.le_refl i) Hjob) as (? & _ & ?);
                by split
            end).
  (* a pool thread moves *)
  all: apply lookup_alter_cases in Hl0 as (f1 & Hl1 & [[Hne ->]|[-> ->]]).
  all: try (match goal with
       | Hn : futures _ !! ?n = Some ?fn, Hl1 : futures _ !! ?k = Some ?f1,
         Hne : ?n <> ?k |- _ =>
             assert (Hj : fut_job fn <> fut_job f1)
               by (intros Heq; apply Hne;
                   exact (submitted_unique _ _ _ _ _ Hnd Hn Hl1 Heq));
             cbn [fut_job] in Hj;
             try rewrite list_lookup_alter_ne in Hjob by done;
             first [ by eapply Hinv
                   | apply phase_ok_other; [congruence|]; by eapply Hinv ]
       end).
  (* the future of the step itself *)
  all: match goal with
       | Hn : futures _ !! ?k = Some _, Hl1 : futures _ !! ?k = Some _ |- _ =>
           rewrite Hn in Hl1; injection Hl1 as <-
       end.
  all: cbn [fut_job set_fstate fut_state] in *.
  all: try rewrite list_lookup_alter_eq in Hjob.
  all: try (match goal with
            | Hc : jobs _ !! ?j = Some _ |- _ => rewrite Hc in Hjob
            end; cbn in Hjob; injection Hjob as <-).
  all: try (apply phase_ok_counted; [reflexivity|cbn; discriminate]).
  all: simplify_eq.
  all: match goal with
       | Hn : futures _ !! _ = Some ?fn, Hc : jobs _ !! _ = Some ?c
         |- phase_ok ?st ?job _ _ =>
           apply (phase_ok_same (fut_state fn) st c job);
             [|reflexivity|exact (Hinv _ _ _ Hn Hc)]
       end.
  all: cbn; first [ reflexivity
                  | unfold is_pending in *; by destruct (fut_state f) ].
Qed.

Lemma tally_ok_fresh (js : list ConversionJob) :
  Forall (fun j => job_status j = pending) js -> tally_ok js [].
Proof.
  intros Hp. rewrite Forall_lookup in Hp. split_and!.
  - apply NoDup_nil_2.
  - intros j Hj. by apply elem_of_nil in Hj.
  - intros j job Hj Hne. by specialize (Hp j job Hj).
Qed.

Lemma tally_ok_progress (g : ConversionJob -> ConversionJob) (i : nat) js cnt :
  (forall jb, job_status (g jb) = job_status jb) ->
  tally_ok js cnt -> tally_ok (alter g i js) cnt.
Proof.
  intros Hg (Hnd & Hin & Hout). split_and!; [done| |].
  - intros j Hj. destruct (Hin j Hj) as (job & Hl & Hs).
    destruct (decide (i = j)) as [->|Hne].
    + exists (g job). rewrite list_lookup_alter_eq, Hl. split; [done|]. by rewrite Hg.
    + exists job. by rewrite list_lookup_alter_ne.
  - intros j job Hl Hs. apply lookup_alter_cases in Hl as (jb & Hl & [[_ ->]|[-> ->]]).
    + by eapply Hout.
    + eapply Hout; [done|]. by rewrite <- Hg.
Qed.

Lemma tally_ok_count (g : ConversionJob -> ConversionJob) (i : nat) js cnt c :
  js !! i = Some c -> i ∉ cnt -> job_status (g c) <> pending ->
  tally_ok js cnt -> tally_ok (alter g i js) (cnt ++ [i]).
Proof.
  intros Hi Hnot Hg (Hnd & Hin & Hout). split_and!.
  - apply NoDup_app. split_and!; [done| |apply NoDup_singleton].
    by intros j Hj ->%list_elem_of_singleton.
  - intros j [Hj| ->%list_elem_of_singleton]%elem_of_app.
    + destruct (Hin j Hj) as (job & Hl & Hs). exists job.
      rewrite list_lookup_alter_ne; [done|]. by intros ->.
    + exists (g c). by rewrite list_lookup_alter_eq, Hi.
  - intros j job Hl Hs. apply elem_of_app.
    apply lookup_alter_cases in Hl as (jb & Hl & [[_ ->]|[-> ->]]).
    + left. by eapply Hout.
    + right. by apply list_elem_of_singleton.
Qed.

Lemma tally_step (e : env) a s s' :
  quiet_inv s -> uncancelled_inv s -> no_slip_inv s -> frontier_inv s ->
  phase_inv s -> tally_inv s ->
  step e a s = Some s' -> tally_inv s'.
Proof.
  unfold tally_inv. intros Hq Hu Hns Hfr Hph Hinv Hstep.
  destruct a; step_cases Hstep; cbn; try done.
  all: found.
  all: norm_lists; try done.
  (* discovery *)
  all: try (match goal with
            | Hd : _discover_files _ _ = Ok ?a |- _ =>
                destruct Hq as [Hl _]; [by rewrite H|]; rewrite Hl;
                exact (tally_ok_fresh _ (discover_pending _ _ _ Hd))
            end).
  (* the result of a future: never one that raised or was cancelled *)
  all: try (match goal with
            | Hp : pc _ = DResult ?k, Hk : futures _ !! ?k = Some ?f,
              E : fut_state ?f = FDone (Some _) |- _ =>
                apply Hns in Hk; by rewrite E in Hk
            | Hp : pc _ = DResult ?k, Hk : futures _ !! ?k = Some ?f,
              E : fut_state ?f = FCancelled |- _ =>
                unfold uncancelled_inv in Hu; rewrite Hp in Hu;
                by destruct (Hu k eq_refl k f (Nat.le_refl k) Hk E)
            end).
  all: try (by apply tally_ok_progress).
  (* the skip policy counts a job the loop had not reached *)
  1: { eapply tally_ok_count; [done| |done|done].
       unfold frontier_inv in Hfr. rewrite H in Hfr.
       by destruct (Hfr i eq_refl i c (Nat.le_refl i) H0) as (_ & _ & ?). }
  (* a pool thread counts its job, once *)
  all: eapply tally_ok_count; [eassumption| |done|done].
  all: match goal with
       | Hn : futures _ !! _ = Some ?fn, Hc : jobs _ !! _ = Some ?c |- _ =>
           by destruct (Hph _ _ _ Hn Hc)
       end.
Qed.

Lemma count_inv_enter (m : ConversionManager) :
  fresh_jobs m -> count_inv (enter m).
Proof.
  intros Hfresh. unfold count_inv. split_and!.
  - apply NoDup_nil_2.
  - intros i _ j job _ Hj. unfold fresh_jobs in Hfresh.
    rewrite Forall_lookup in Hfresh. split_and!; [by eapply Hfresh| |];
      apply not_elem_of_nil.
  - intros k f job Hk. done.
  - intros k f Hk. done.
  - by apply tally_ok_fresh.
Qed.

Lemma count_inv_step (e : env) a s s' :
  (forall p, mkdir_fault e p = None) ->
  run_inv s -> count_inv s -> step e a s = Some s' -> count_inv s'.
Proof.
  intros Hmk (Hq & Hu & _) (Hnd & Hfr & Hph & Hns & Hta) Hstep.
  unfold count_inv. split_and!.
  - by eapply nodup_submitted_step.
  - by eapply frontier_step.
  - by eapply phase_step.
  - by eapply no_slip_step.
  - by eapply tally_step.
Qed.

Lemma count_inv_run (e : env) (m : ConversionManager) acts s :
  (forall p, mkdir_fault e p = None) -> fresh_jobs m ->
  run e acts (enter m) = Some s -> run_inv s /\ count_inv s.
Proof.
  intros Hmk Hfresh Hrun.
  eapply (run_invariant (fun s => run_inv s /\ count_inv s));
    [|split; [by apply run_inv_enter|by apply count_inv_enter]|done].
  intros a s0 s1 [Hr Hc] Hstep. split.
  - by eapply run_inv_step.
  - by eapply count_inv_step.
Qed.

(** On a run whose pool threads all bind their engine, the three counters
    never sum to more than the number of jobs. *)
Lemma counters_bounded (e : env) (m : ConversionManager) acts s :
  (forall p, mkdir_fault e p = None) -> fresh_jobs m ->
  run e acts (enter m) = Some s -> pc s <> DEnter ->
  converted_count (mgr s) + skipped_count (mgr s) + error_count (mgr s)
  <= Z.of_nat (length (jobs (mgr s))).
Proof.
  intros Hmk Hfresh Hrun Hpc.
  destruct (count_inv_run e m acts s Hmk Hfresh Hrun)
    as [(_ & _ & Hc & _) (_ & _ & _ & _ & Hnd & Hin & _)].
  destruct (Hc Hpc) as (-> & -> & ->). rewrite count_of_total.
  apply inj_le. unfold counted in *. rewrite <- (length_fmap snd).
  apply nodup_bounded; [done|]. intros j Hj.
  destruct (Hin j Hj) as (job & Hl & _). by eapply lookup_lt_Some.
Qed.

Lemma run_invariant_on (Q : action -> Prop) (P : state -> Prop) (e : env) :
  (forall a s s', Q a -> P s -> step e a s = Some s' -> P s') ->
  forall acts s s', Forall Q acts -> P s -> run e acts s = Some s' -> P s'.
Proof.
  intros Hstep acts. induction acts as [|a acts IH]; intros s s' HQ HP Hrun.
  - by injection Hrun as <-.
  - cbn [run] in Hrun. destruct (step e a s) as [s1|] eqn:E; [|done].
    apply Forall_cons in HQ as [Ha HQ].
    eapply IH; [done| |done]. by eapply Hstep.
Qed.

Lemma covered_mono (e : env) a s s' j :
  before_loop (pc s) = false -> step e a s = Some s' ->
  covered s j -> covered s' j.
Proof.
  unfold covered. intros Hpc Hstep Hcov job' Hj'.
  destruct a; step_cases Hstep; cbn in *; try done.
  all: found.
  all: try (match goal with H : pc _ = _ |- _ => rewrite H in Hpc end; try discriminate Hpc).
  all: norm_lists.
  all: try (by eapply Hcov).
  all: try (match goal with
            | Hf : futures _ !! _ = Some {| fut_job := ?j |} |- _ =>
                apply submitted_lookup in Hf; unfold submitted in Hf; cbn in Hf
            end).
  all: try (apply lookup_alter_cases in Hj' as (jb & Hjb & [[Hne ->]|[<- ->]])).
  all: try (by eapply Hcov).
  all: try (by right).
  all: try (by left).
  all: rewrite elem_of_app; destruct (Hcov _ Hj') as [?|?]; by auto.
Qed.

Lemma done_terminate active f : is_done f = true -> terminate active f = f.
Proof. unfold is_done, terminate. by destruct (fut_state f). Qed.

Lemma done_cancel f : is_done f = true -> cancel_future f = f.
Proof. unfold is_done, cancel_future. by destruct (fut_state f). Qed.

(** A resolved future does not change any more. *)
Lemma done_stable (e : env) a s s' k f :
  before_loop (pc s) = false -> step e a s = Some s' ->
  futures s !! k = Some f -> is_done f = true ->
  futures s' !! k = Some f.
Proof.
  intros Hpc Hstep Hf Hdone.
  destruct a; step_cases Hstep; cbn in *; try done.
  all: found.
  all: try (match goal with H : pc _ = _ |- _ => rewrite H in Hpc end; try discriminate Hpc).
  all: try (by apply lookup_app_l_Some).
  all: try (change (List.map ?g ?l) with (g <$> l); rewrite list_lookup_fmap, Hf; cbn;
            by rewrite done_terminate).
  all: match goal with
       | |- alter _ ?n _ !! _ = _ => destruct (decide (n = k)) as [->|Hne]
       end.
  all: try (by rewrite list_lookup_alter_ne).
  all: try (by simplify_eq).
  all: try (rewrite list_lookup_alter_eq, Hf; cbn; by rewrite ?done_cancel).
  simplify_eq. unfold is_pending, is_done in *. by destruct (fut_state _).
Qed.

Lemma futures_length_step (e : env) a s s' :
  in_loop (pc s) = false -> step e a s = Some s' ->
  length (futures s') = length (futures s) \/ before_loop (pc s) = true.
Proof.
  intros Hpc Hstep.
  destruct a; step_cases Hstep; cbn in *; try done.
  all: try (match goal with H : pc _ = _ |- _ => rewrite H in * end; try discriminate Hpc).
  all: cbn; rewrite ?length_app, ?length_alter, ?length_map; cbn; auto.
Qed.

Lemma flag_clear_step (e : env) a s s' :
  a <> CallCancel -> flag_clear s -> step e a s = Some s' -> flag_clear s'.
Proof.
  unfold flag_clear. intros Ha Hinv Hstep.
  destruct a; step_cases Hstep; cbn in *; try done.
  all: try (intros _; apply Hinv; congruence).
  all: by discriminate Hinv.
Qed.

Lemma no_complete_yet_step (e : env) a s s' :
  no_complete_yet s -> step e a s = Some s' -> no_complete_yet s'.
Proof.
  unfold no_complete_yet. intros Hinv Hstep.
  destruct a; step_cases Hstep; cbn in *; try done.
  all: try (match goal with H : pc _ = _ |- _ => rewrite H in * end); cbn in Hinv.
  all: intros Hc c0 k0 r0; try (specialize (Hinv eq_refl c0 k0 r0)); try (specialize (Hinv Hc c0 k0 r0)).
  all: rewrite ?not_elem_of_app, ?list_elem_of_singleton; try done.
  all: try (split; [done|]; try done).
Qed.

Lemma loop_covered_step (e : env) a s s' :
  flag_clear s -> loop_covered s -> step e a s = Some s' -> loop_covered s'.
Proof.
  intros Hflag [Hloop Hafter] Hstep.
  destruct (before_loop (pc s)) eqn:Hb.
  { (* nothing to cover before the loop *)
    destruct a; step_cases Hstep; cbn in *; try done.
    all: try (match goal with H : pc _ = _ |- _ => rewrite H in * end); try discriminate Hb.
    all: split; cbn; try done.
    all: try (intros i0 [= <-] j0 Hlt; lia).
    all: intros i0 Hi0 j0 Hlt; exfalso; destruct (pc s); simplify_eq/=; lia. }
  pose proof (fun j => covered_mono e a s s' j Hb Hstep) as Hmono.
  assert (a <> Dispatch -> pc s' = pc s) as Hpc.
  { intros Ha. destruct a; step_cases Hstep; cbn in *; done. }
  assert (a = Dispatch \/ a <> Dispatch) as [->|Ha] by (destruct a; auto).
  2: { unfold loop_covered. rewrite (Hpc Ha). split.
       - intros i Hi j Hlt. by eapply Hmono, Hloop.
       - intros Hal j. by eapply Hmono, Hafter. }
  clear Hpc. unfold flag_clear in Hflag.
  step_cases Hstep; cbn in *; try done.
  all: try (match goal with H : pc _ = _ |- _ => rewrite H in * end); try discriminate Hb.
  all: cbn in *; split; cbn; try done.
  all: try (match goal with H : pc ?s = _ |- context [pc ?s] => rewrite H; cbn end); try done.
  all: try (intros i0 [= <-] j0 Hlt).
  all: try (intros _ j0).
  all: try (by eapply Hmono, Hloop).
  all: try (by eapply Hmono, Hafter).
  all: try (by discriminate Hflag).
  - (* the loop is exhausted *)
    destruct (decide (j0 < i)%nat) as [Hlt|Hge]; [by eapply Hmono, Hloop|].
    intros job Hj. cbn in Hj.
    apply lookup_ge_None_1 in H0. apply lookup_lt_Some in Hj. lia.
  - (* the job is skipped *)
    destruct (decide (j0 < i)%nat) as [Hlt'|Hge]; [by eapply Hmono, Hloop|].
    assert (j0 = i) as -> by lia.
    intros job Hj. cbn in Hj. rewrite list_lookup_alter_eq in Hj.
    destruct (jobs (mgr s) !! i); simplify_eq/=. by left.
  - (* the job is submitted *)
    destruct (decide (j0 < i)%nat) as [Hlt'|Hge]; [by eapply Hmono, Hloop|].
    assert (j0 = i) as -> by lia.
    intros job Hj. right. norm_lists. apply elem_of_app. right.
    by apply list_elem_of_singleton.
Qed.

Lemma resolved_mono (e : env) a s s' k :
  in_loop (pc s) = false -> before_loop (pc s) = false ->
  step e a s = Some s' ->
  (forall f, futures s !! k = Some f -> is_done f = true) ->
  forall f', futures s' !! k = Some f' -> is_done f' = true.
Proof.
  intros Hl Hb Hstep Hdone f' Hf'.
  destruct (futures_length_step e a s s' Hl Hstep) as [Hlen|Hb']; [|congruence].
  pose proof (lookup_lt_Some _ _ _ Hf') as Hlt. rewrite Hlen in Hlt.
  apply lookup_lt_is_Some_2 in Hlt as [f Hf].
  pose proof (done_stable e a s s' k f Hb Hstep Hf (Hdone f Hf)) as Hf2.
  rewrite Hf' in Hf2. injection Hf2 as ->. by apply Hdone.
Qed.

Lemma wait_resolved_step (e : env) a s s' :
  flag_clear s -> uncancelled_inv s -> wait_resolved s ->
  step e a s = Some s' -> wait_resolved s'.
Proof.
  intros Hflag Hunc [Hwait Hall] Hstep.
  assert (a <> Dispatch -> pc s' = pc s) as Hpc.
  { intros Ha. destruct a; step_cases Hstep; cbn in *; done. }
  assert (a = Dispatch \/ a <> Dispatch) as [->|Ha] by (destruct a; auto).
  2: { unfold wait_resolved. rewrite (Hpc Ha). split.
       - intros k Hk k' f' Hlt. eapply (resolved_mono e a s s'); try done.
         + by destruct (pc s).
         + by destruct (pc s).
         + intros f. by eapply Hwait.
       - intros Hc k f'. eapply (resolved_mono e a s s'); try done.
         + by rewrite Hc.
         + by rewrite Hc.
         + intros f. by eapply Hall. }
  clear Hpc. unfold flag_clear in Hflag. unfold uncancelled_inv in Hunc.
  step_cases Hstep; cbn in *; try done.
  all: try (match goal with H : pc _ = _ |- _ => rewrite H in * end).
  all: cbn in *; split; cbn; try done.
  all: try (match goal with H : pc ?s = _ |- context [pc ?s] => rewrite H; cbn end); try done.
  all: try (intros k0 [= <-] k' f' Hlt Hf'); try lia.
  all: try (intros _ k' f' Hf').
  all: try (by discriminate Hflag).
  all: try (by eapply Hwait).
  - (* every future has been waited for *)
    eapply (Hwait _ eq_refl); [|done].
    apply lookup_ge_None_1 in H0. apply lookup_lt_Some in Hf'. lia.
  - by destruct (Hunc _ eq_refl k f ltac:(lia) H0).
  - destruct (decide (k' = k)) as [->|Hne]; [|eapply (Hwait _ eq_refl); [|done]; lia].
    simplify_eq. unfold is_done. by rewrite H1.
  - destruct (decide (k' = k)) as [->|Hne]; [|eapply (Hwait _ eq_refl); [|done]; lia].
    simplify_eq. unfold is_done. by rewrite H1.
Qed.

Lemma counters_frozen (e : env) a s s' :
  all_resolved s -> completing (pc s) = true -> step e a s = Some s' ->
  converted_count (mgr s') = converted_count (mgr s) /\
  skipped_count (mgr s') = skipped_count (mgr s) /\
  error_count (mgr s') = error_count (mgr s).
Proof.
  intros [_ Hdone] Hpc Hstep.
  destruct a; step_cases Hstep; cbn in *; try done.
  all: found.
  all: try (match goal with H : pc _ = _ |- _ => rewrite H in * end); try discriminate Hpc.
  all: try done.
  all: try (match goal with
            | Hf : futures _ !! _ = Some _ |- _ => by apply Hdone in Hf
            end).
Qed.

Lemma all_resolved_step (e : env) a s s' :
  completing (pc s) = true -> step e a s = Some s' ->
  all_resolved s -> all_resolved s'.
Proof.
  intros Hpc Hstep [Hcov Hdone]. split.
  - intros j. eapply (covered_mono e a s s'); [by destruct (pc s)|done|].
    exact (Hcov j).
  - intros k. eapply (resolved_mono e a s s'); try done; try (by destruct (pc s)).
    intros f. apply Hdone.
Qed.

Lemma completing_step (e : env) a s s' :
  completing (pc s) = true -> step e a s = Some s' -> completing (pc s') = true.
Proof.
  intros Hpc Hstep.
  destruct a; step_cases Hstep; cbn in *; try done.
  all: try (match goal with H : pc _ = _ |- _ => rewrite H in * end); done.
Qed.

Lemma queue_step (e : env) a s s' msg :
  step e a s = Some s' -> msg ∈ message_queue s' ->
  msg ∈ message_queue s \/
  (pc s = DComplete /\
   msg = CompleteMsg (converted_count (mgr s)) (skipped_count (mgr s))
                     (error_count (mgr s)) /\
   mgr s' = mgr s /\ futures s' = futures s) \/
  (forall c k r, msg <> CompleteMsg c k r).
Proof.
  intros Hstep Hin.
  destruct a; step_cases Hstep; cbn in *; auto.
  all: repeat (apply elem_of_app in Hin as [Hin| ->%list_elem_of_singleton]; auto).
  all: try (by right; right).
  by right; left.
Qed.

Lemma completed_step (e : env) a s s' :
  no_complete_yet s -> loop_covered s -> wait_resolved s -> completed_inv s ->
  step e a s = Some s' -> completed_inv s'.
Proof.
  intros Hno [_ Hafter] [_ Hall] Hinv Hstep c k r Hin.
  destruct (queue_step e a s s' _ Hstep Hin) as [Hold|[(Hpc & Hmsg & Hm & Hf)|Hne]].
  - destruct (completing (pc s)) eqn:Hc; [|by destruct (Hno Hc c k r)].
    destruct (Hinv c k r Hold) as (Hres & -> & -> & ->).
    destruct (counters_frozen e a s s' Hres Hc Hstep) as (-> & -> & ->).
    split; [|done]. by eapply all_resolved_step.
  - injection Hmsg as -> -> ->. rewrite Hm. split; [|done]. split.
    + intros j job. unfold submitted. rewrite Hm, Hf. apply Hafter. by rewrite Hpc.
    + rewrite Hf. by apply Hall.
  - by destruct (Hne c k r).
Qed.

Lemma uncancelled_run_enter (m : ConversionManager) : uncancelled_run_inv (enter m).
Proof.
  unfold uncancelled_run_inv, flag_clear, no_complete_yet, loop_covered,
    wait_resolved, completed_inv. cbn. split_and!; try done.
  - intros _ c k r Hin. by apply elem_of_nil in Hin.
  - intros i [= <-] j Hlt. lia.
  - intros c k r Hin. by apply elem_of_nil in Hin.
Qed.

Lemma uncancelled_run_step (e : env) a s s' :
  a <> CallCancel -> uncancelled_inv s /\ uncancelled_run_inv s ->
  step e a s = Some s' -> uncancelled_inv s' /\ uncancelled_run_inv s'.
Proof.
  intros Ha (Hunc & Hflag & Hno & Hloop & Hwait & Hcomp) Hstep.
  split; [by eapply uncancelled_step|].
  split_and!.
  - by eapply flag_clear_step.
  - by eapply no_complete_yet_step.
  - by eapply loop_covered_step.
  - by eapply wait_resolved_step.
  - by eapply completed_step.
Qed.

Lemma uncancelled_run (e : env) (m : ConversionManager) acts s :
  CallCancel ∉ acts -> run e acts (enter m) = Some s -> uncancelled_run_inv s.
Proof.
  intros Hno Hrun.
  enough (uncancelled_inv s /\ uncancelled_run_inv s) as [_ H] by done.
  eapply (run_invariant_on (fun a => a <> CallCancel)
            (fun s => uncancelled_inv s /\ uncancelled_run_inv s) e);
    [| |split; [|apply uncancelled_run_enter]|exact Hrun].
  - intros a s0 s1 Ha. by apply uncancelled_run_step.
  - apply Forall_forall. intros a Ha ->. done.
  - intros k _ k' f _ Hf. cbn in Hf. by rewrite lookup_nil in Hf.
Qed.

(** Once everything is resolved, every job has been counted. *)
Lemma resolved_counted (s : state) :
  phase_inv s -> tally_inv s -> all_resolved s ->
  forall j, (j < length (jobs (mgr s)))%nat -> j ∈ counted s.
Proof.
  intros Hphase (_ & _ & Hnp) [Hcov Hdone] j Hlt.
  apply lookup_lt_is_Some_2 in Hlt as [job Hjob].
  destruct (Hcov j job Hjob) as [Hsk|Hsub].
  - apply (Hnp j job Hjob). by rewrite Hsk.
  - unfold submitted in Hsub. apply list_elem_of_fmap in Hsub as (f & -> & Hf).
    apply list_elem_of_lookup in Hf as [k Hk].
    pose proof (Hphase k f job Hk Hjob) as Hok. unfold phase_ok in Hok.
    pose proof (Hdone k f Hk) as Hd. unfold is_done in Hd.
    destruct (fut_state f); try discriminate Hd. cbn in Hok. by destruct Hok.
Qed.

(** On a run that is not cancelled and whose pool threads all bind their
    engine, the Complete message carries the final counters, and they sum
    to the number of jobs. *)
Lemma counters_complete (e : env) (m : ConversionManager) acts s c k r :
  (forall p, mkdir_fault e p = None) -> fresh_jobs m -> CallCancel ∉ acts ->
  run e acts (enter m) = Some s ->
  CompleteMsg c k r ∈ message_queue s ->
  c = converted_count (mgr s) /\ k = skipped_count (mgr s) /\
  r = error_count (mgr s) /\
  c + k + r = Z.of_nat (length (jobs (mgr s))).
Proof.
  intros Hmk Hfresh Hno Hrun Hin.
  destruct (uncancelled_run e m acts s Hno Hrun) as (_ & Hyet & _ & _ & Hcomp).
  destruct (Hcomp c k r Hin) as (Hres & -> & -> & ->). split_and!; try done.
  assert (pc s <> DEnter) as Hpc.
  { intros Hpc. destruct (Hyet ltac:(by rewrite Hpc) _ _ _ Hin). }
  apply Z.le_antisymm; [by eapply counters_bounded|].
  destruct (count_inv_run e m acts s Hmk Hfresh Hrun)
    as [(_ & _ & Hc & _) (_ & _ & Hphase & _ & Htally)].
  destruct (Hc Hpc) as (-> & -> & ->). rewrite count_of_total.
  apply inj_le. rewrite <- (length_fmap snd).
  apply nodup_covering. by apply resolved_counted.
Qed.

(** The run of [one_job_schedule] is such a run: one job, and a Complete
    message with one conversion. *)
Lemma counters_complete_example :
  exists s,
    run demo_env one_job_schedule (enter (new_manager demo_settings)) = Some s /\
    CompleteMsg 1 0 0 ∈ message_queue s /\
    1 + 0 + 0 = Z.of_nat (length (jobs (mgr s))).
Proof.
  assert (exists s,
             run demo_env one_job_schedule (enter (new_manager demo_settings)) = Some s /\
             CompleteMsg 1 0 0 ∈ message_queue s) as (s & Hrun & Hin).
  { eexists. split; [vm_compute; reflexivity|].
    cbn. apply list_elem_of_In. cbn. tauto. }
  assert (CallCancel ∉ one_job_schedule) as Hno.
  { intros H. vm_compute in H. not_in_list H. }
  assert (fresh_jobs (new_manager demo_settings)) as Hfresh by constructor.
  exists s. split_and!; [done|done|].
  by destruct (counters_complete demo_env _ _ s 1 0 0 (fun _ => eq_refl)
                 Hfresh Hno Hrun Hin) as (_ & _ & _ & ?).
Qed.

(** C1 (code defect).  A batch of one job whose destination directory
    cannot be created, run to completion without cancellation: the handler
    of [_process_job] counts the error, its [finally] clause raises
    UnboundLocalError because [engine] was never bound, and the wait loop
    of [convert_batch] counts the job again.  One job, and a Complete
    message with two errors. *)
Theorem C1_failed_mkdir_counted_twice :
  exists s,
    run readonly_env failed_mkdir_schedule (enter (new_manager demo_settings)) = Some s /\
    pc s = DReturned /\
    should_cancel (mgr s) = false /\
    length (jobs (mgr s)) = 1%nat /\
    converted_count (mgr s) = 0 /\ skipped_count (mgr s) = 0 /\
    error_count (mgr s) = 2 /\
    CompleteMsg 0 0 2 ∈ message_queue s.
Proof.
  eexists. split; [vm_compute; reflexivity|].
  split_and!; try reflexivity. cbn. apply list_elem_of_In. cbn. tauto.
Qed.

(** ** Cancellation *)









(* ===================================================================== *)
(** * More on the runs of the machine *)
(* ===================================================================== *)

Lemma outcome_step (e : env) a s s' :
  outcome_inv s -> step e a s = Some s' -> outcome_inv s'.
Proof.
  unfold outcome_inv, terminal_count. intros [Hno Hone] Hstep.
  destruct a; step_cases Hstep; try done.
  all: try (match goal with H : pc _ = _ |- _ => rewrite H in * end).
  all: cbn in *.
  all: rewrite ?List.filter_app, ?length_app; cbn.
  all: split; [intros Hc; try discriminate Hc|intros Hc; try discriminate Hc].
  all: try (rewrite (Hno eq_refl)).
  all: try (rewrite (Hno Hc)).
  all: try done.
  all: try (by left).
  all: try (by right).
  all: try (destruct (Hone eq_refl) as [->|[-> Hj]]; by auto).
  all: try (destruct (Hone Hc) as [->|[-> Hj]]; [by auto|right; split; [done|]]).
  all: try (by rewrite Hj).
  right. by apply Nat.eqb_eq, length_zero_iff_nil in H1.
Qed.

Lemma outcome_run (e : env) (m : ConversionManager) acts s :
  run e acts (enter m) = Some s -> outcome_inv s.
Proof.
  intros Hrun.
  eapply (run_invariant outcome_inv); [apply outcome_step| |done].
  split; [done|]. cbn. discriminate.
Qed.

(** X1.  Every run ends for the consumer at most once: the queue never holds
    more than one Complete or Error message, none before the run is on its
    way out, and a run that has returned without one found no job. *)
Theorem run_outcome_exclusive (e : env) (m : ConversionManager) acts s :
  run e acts (enter m) = Some s ->
  (terminal_count s <= 1)%nat /\
  (completing (pc s) = false -> terminal_count s = 0%nat) /\
  (pc s = DReturned -> terminal_count s = 1%nat \/ jobs (mgr s) = []).
Proof.
  intros Hrun. destruct (outcome_run e m acts s Hrun) as [Hno Hone].
  split_and!; [|done|].
  - destruct (completing (pc s)) eqn:Hc.
    + destruct (Hone eq_refl) as [->|[-> Hj]]; lia.
    + rewrite (Hno eq_refl). lia.
  - intros Hpc. destruct Hone as [?|[_ ?]]; [by rewrite Hpc|by left|by right].
Qed.

Lemma run_outcome_exclusive_witness :
  exists s,
    run demo_env one_job_schedule (enter (new_manager demo_settings)) = Some s /\
    (terminal_count s <= 1)%nat /\
    (completing (pc s) = false -> terminal_count s = 0%nat) /\
    (pc s = DReturned -> terminal_count s = 1%nat \/ jobs (mgr s) = []).
Proof.
  eexists. split; [vm_compute; reflexivity|].
  apply (run_outcome_exclusive demo_env (new_manager demo_settings) one_job_schedule).
  vm_compute; reflexivity.
Defined.

Lemma running_step (e : env) a s s' :
  running_inv s -> step e a s = Some s' -> running_inv s'.
Proof.
  intros Hinv Hstep.
  destruct a; step_cases Hstep; try done.
  all: unfold running_inv in *.
  all: try (match goal with H : pc _ = _ |- _ => rewrite H in * end).
  all: cbn in *; try done.
  all: destruct (pc s); cbn; try done.
  all: destruct Hinv as [? Hx]; split; [done|]; cbn; try done.
  all: by rewrite Hx.
Qed.

(** X2.  [is_running] is true exactly while [convert_batch] executes, whatever
    way the run ends, and the manager holds no pool once it has returned. *)
Theorem finally_always_runs (e : env) (m : ConversionManager) acts s :
  run e acts (enter m) = Some s -> pc s <> DEnter ->
  (is_running (mgr s) = true <-> pc s <> DReturned) /\
  (pc s = DReturned -> executor (mgr s) = None).
Proof.
  intros Hrun Hpc.
  assert (running_inv s) as Hinv.
  { eapply (run_invariant running_inv); [apply running_step| |done]. done. }
  unfold running_inv in Hinv. destruct (pc s); try done.
  all: try (split; [split; [done|by intros _]|done]).
  destruct Hinv as [Hr Hx]. split; [|done]. rewrite Hr. split; [done|]. by intros [].
Qed.

Lemma finally_always_runs_witness :
  exists s,
    run readonly_env failed_mkdir_schedule (enter (new_manager demo_settings)) = Some s /\
    pc s <> DEnter /\
    (is_running (mgr s) = true <-> pc s <> DReturned) /\
    (pc s = DReturned -> executor (mgr s) = None).
Proof.
  eexists. split; [vm_compute; reflexivity|].
  split; [discriminate|].
  apply (finally_always_runs readonly_env (new_manager demo_settings)
           failed_mkdir_schedule); [vm_compute; reflexivity|discriminate].
Defined.

Lemma paused_step (e : env) a s s' bound :
  quiet_action a -> paused_inv bound s -> step e a s = Some s' ->
  paused_inv bound s'.
Proof.
  intros [Hr Hc] Hinv Hstep.
  destruct a; step_cases Hstep; try done.
  all: destruct Hinv as (Hp & Hpc & Hle); unfold paused_inv, let_through, past_pause in *.
  all: try (match goal with H : pc _ = _ |- _ => rewrite H in * end).
  all: cbn in *; rewrite ?length_app, ?length_alter, ?length_map; cbn.
  all: try (split_and!; try done; lia).
  all: try (rewrite Hp in *; cbn in *).
  all: try (split_and!; try done; destruct (should_cancel (mgr s)); cbn in *; try done; lia).
  all: try (split_and!; try done; destruct (pc s); cbn in *; try done; lia).
Qed.

Lemma past_pause_bounds (s : state) : 0 <= past_pause s <= 1.
Proof.
  unfold past_pause. destruct (pc s); try lia. destruct (should_cancel (mgr s)); lia.
Qed.

(** X3.  While the pause flag is set and nobody calls [resume()] or [cancel()],
    the dispatch loop lets at most one more job through: the one whose
    iteration had already passed the pause check. *)
Theorem pause_holds_dispatch (e : env) acts s1 s2 :
  is_paused (mgr s1) = true -> pc s1 <> DEnter ->
  CallResume ∉ acts -> CallCancel ∉ acts ->
  run e acts s1 = Some s2 ->
  let_through s2 <= let_through s1 + 1.
Proof.
  intros Hp Hpc Hr Hc Hrun.
  assert (paused_inv (let_through s1 + past_pause s1) s2) as (_ & _ & Hle).
  { eapply (run_invariant_on quiet_action (paused_inv (let_through s1 + past_pause s1)) e);
      [| | |exact Hrun].
    - intros a s s' Ha. by apply paused_step.
    - apply Forall_forall. intros a Ha. split; by intros ->.
    - split_and!; [done|done|lia]. }
  pose proof (past_pause_bounds s1). pose proof (past_pause_bounds s2). lia.
Qed.

Lemma pause_holds_dispatch_witness :
  exists s1 s2,
    run (with_fs two_files demo_env) pause_after_check
        (enter (new_manager demo_settings)) = Some s1 /\
    is_paused (mgr s1) = true /\ pc s1 = DSkipCheck 0 /\
    run (with_fs two_files demo_env) (dispatch 10) s1 = Some s2 /\
    let_through s2 <= let_through s1 + 1.
Proof.
  eexists. eexists. split; [vm_compute; reflexivity|].
  split; [reflexivity|]. split; [reflexivity|].
  split; [vm_compute; reflexivity|].
  apply (pause_holds_dispatch (with_fs two_files demo_env) (dispatch 10));
    [reflexivity|discriminate| | |vm_compute; reflexivity].
  - intros H. vm_compute in H. not_in_list H.
  - intros H. vm_compute in H. not_in_list H.
Defined.

Lemma held_step (e : env) a s s' :
  quiet_action a -> held_at_first_job s -> step e a s = Some s' ->
  held_at_first_job s'.
Proof.
  intros [Hr Hc] Hinv Hstep.
  destruct a; step_cases Hstep; try done.
  all: destruct Hinv as (Hp & Hf & Hno & Hz & Hpc); unfold held_at_first_job.
  all: try (match goal with H : pc _ = _ |- _ => rewrite H in * end).
  all: cbn in *; rewrite ?Hf in *; cbn in *; try done.
  all: try (by found).
  all: try (match type of Hpc with _ /\ _ => destruct Hpc as [-> Hj] end).
  all: try (destruct (Hz ltac:(done)) as (Hfl & Hz1 & Hz2 & Hz3)).
  all: try (rewrite Hfl in *; try discriminate).
  all: try (rewrite Hp in *; cbn in *; try discriminate).
  all: try (split_and!; try done; intros c0 k0 r0;
            rewrite ?not_elem_of_app, ?list_elem_of_singleton; by split_and!).
  - split_and!; try done.
    + intros c0 k0 r0. rewrite not_elem_of_app, list_elem_of_singleton. by split.
    + intros ->. discriminate H1.
  - (* the job list is not exhausted at the first job *)
    destruct (jobs (mgr s)) eqn:Hjobs; [done|]. discriminate H0.
Qed.

Lemma held_enter (m : ConversionManager) :
  is_paused m = true -> held_at_first_job (enter m).
Proof.
  intros Hp. unfold held_at_first_job; cbn. split_and!; try done.
  intros c k r Hin. by apply elem_of_nil in Hin.
Qed.

(** X4.  [convert_batch] does not clear the pause flag.  A run entered while the
    flag is still set waits at its first job: until [resume()] or
    [cancel()] is called no job is handed to the pool, skipped or counted,
    and no Complete message is put. *)
Theorem stale_pause_blocks_run (e : env) (m : ConversionManager) acts s :
  is_paused m = true -> CallResume ∉ acts -> CallCancel ∉ acts ->
  run e acts (enter m) = Some s ->
  futures s = [] /\
  (forall c k r, CompleteMsg c k r ∉ message_queue s) /\
  (pc s <> DEnter ->
     converted_count (mgr s) = 0 /\ skipped_count (mgr s) = 0 /\
     error_count (mgr s) = 0).
Proof.
  intros Hp Hr Hc Hrun.
  assert (held_at_first_job s) as (_ & Hf & Hno & Hz & _).
  { eapply (run_invariant_on quiet_action held_at_first_job e); [| | |exact Hrun].
    - intros a s0 s1 Ha. by apply held_step.
    - apply Forall_forall. intros a Ha. split; by intros ->.
    - by apply held_enter. }
  split_and!; [done|done|]. intros Hpc. by destruct (Hz Hpc) as (_ & ? & ? & ?).
Qed.

Lemma stale_pause_blocks_run_witness :
  exists s,
    is_paused paused_manager = true /\
    run demo_env (dispatch 10) (enter paused_manager) = Some s /\
    pc s = DPaused 0 /\
    futures s = [] /\
    (forall c k r, CompleteMsg c k r ∉ message_queue s) /\
    (pc s <> DEnter ->
       converted_count (mgr s) = 0 /\ skipped_count (mgr s) = 0 /\
       error_count (mgr s) = 0).
Proof.
  eexists. split; [reflexivity|]. split; [vm_compute; reflexivity|].
  split; [reflexivity|].
  apply (stale_pause_blocks_run demo_env paused_manager (dispatch 10));
    [reflexivity| | |vm_compute; reflexivity].
  - intros H. vm_compute in H. not_in_list H.
  - intros H. vm_compute in H. not_in_list H.
Defined.

Lemma pool_refused_step (e : env) (m : ConversionManager) js a s s' :
  max_threads (settings m) <= 0 -> _discover_files e m = Ok js -> js <> [] ->
  pool_refused m s -> step e a s = Some s' -> pool_refused m s'.
Proof.
  intros Hmax Hd Hjs Hinv Hstep.
  destruct a; step_cases Hstep; try done.
  all: destruct Hinv as (Hset & Hf & Hno & Hz & Hpc); unfold pool_refused.
  all: try (match goal with H : pc _ = _ |- _ => rewrite H in * end).
  all: cbn in *; rewrite ?Hf in *; cbn in *; try done.
  all: try (by found).
  all: try (rewrite (discover_settings e (mgr s) m Hset), Hd in *; simplify_eq).
  all: try (match type of Hpc with _ /\ _ => destruct Hpc as [Hmsg Hfresh] end).
  all: try (split_and!; try done; intros c0 k0 r0;
            rewrite ?not_elem_of_app, ?list_elem_of_singleton; by split_and!).
  - apply Nat.eqb_eq, length_zero_iff_nil in H1. done.
  - split_and!; try done.
    + intros c0 k0 r0. rewrite !not_elem_of_app, !list_elem_of_singleton. by split_and!.
    + intros _. by apply Hz.
    + apply elem_of_app. right. by apply list_elem_of_singleton.
    + by eapply discover_pending.
  - rewrite Hset in *. apply Z.leb_gt in H2. lia.
  - split_and!; try done. intros _. by apply Hz.
Qed.

(** X5.  A thread count of zero or less, with at least one file found: the pool
    cannot be created, the run ends with the Error message of that
    [ValueError], and no job is handed to the pool, counted or changed. *)
Theorem no_threads_no_jobs (e : env) (m : ConversionManager) js acts s :
  max_threads (settings m) <= 0 -> _discover_files e m = Ok js -> js <> [] ->
  run e acts (enter m) = Some s ->
  futures s = [] /\
  (forall c k r, CompleteMsg c k r ∉ message_queue s) /\
  (pc s <> DEnter -> completed_total (mgr s) = 0) /\
  (completing (pc s) = true ->
     no_workers_message ∈ message_queue s /\ fresh_jobs (mgr s)).
Proof.
  intros Hmax Hd Hjs Hrun.
  assert (pool_refused m s) as (_ & Hf & Hno & Hz & Hpc).
  { eapply (run_invariant (pool_refused m) e); [| |exact Hrun].
    - intros a s0 s1. by eapply pool_refused_step.
    - unfold pool_refused; cbn. split_and!; try done.
      intros c k r Hin. by apply elem_of_nil in Hin. }
  split_and!; try done. intros Hc. by destruct (pc s).
Qed.

Lemma no_threads_no_jobs_witness :
  exists s,
    max_threads (settings (new_manager no_threads)) <= 0 /\
    run demo_env (dispatch 3) (enter (new_manager no_threads)) = Some s /\
    pc s = DReturned /\
    futures s = [] /\
    (forall c k r, CompleteMsg c k r ∉ message_queue s) /\
    (pc s <> DEnter -> completed_total (mgr s) = 0) /\
    (completing (pc s) = true ->
       no_workers_message ∈ message_queue s /\ fresh_jobs (mgr s)).
Proof.
  eexists. split; [discriminate|]. split; [vm_compute; reflexivity|].
  split; [reflexivity|].
  apply (no_threads_no_jobs demo_env (new_manager no_threads)
           [new_job ["music"; "a.mp3"] ["out"; "a.opus"]] (dispatch 3));
    [discriminate|vm_compute; reflexivity|discriminate|vm_compute; reflexivity].
Defined.

Lemma body_job_step (e : env) a s s' :
  body_job_inv s -> step e a s = Some s' -> body_job_inv s'.
Proof.
  unfold body_job_inv. intros Hinv Hstep.
  destruct a; step_cases Hstep; try done.
  all: try (match goal with H : pc _ = _ |- _ => rewrite H in * end).
  all: cbn in *; try done.
  all: intros i0 Hi0; simplify_eq; try (specialize (Hinv _ eq_refl)).
  all: try (specialize (Hinv _ Hi0)).
  all: try done.
  all: try (by eexists).
  all: try (apply lookup_lt_is_Some; rewrite length_alter; by apply lookup_lt_is_Some).
Qed.

Lemma body_job_run (e : env) (m : ConversionManager) acts s :
  run e acts (enter m) = Some s -> body_job_inv s.
Proof.
  intros Hrun. eapply (run_invariant body_job_inv); [apply body_job_step| |done].
  intros i Hi. discriminate Hi.
Qed.

Lemma queue_grows_step (e : env) a s s' msg :
  step e a s = Some s' -> msg ∈ message_queue s -> msg ∈ message_queue s'.
Proof.
  intros Hstep Hin.
  destruct a; step_cases Hstep; cbn; try done.
  all: rewrite ?elem_of_app; auto.
Qed.

Lemma queue_grows (e : env) acts s s' msg :
  run e acts s = Some s' -> msg ∈ message_queue s -> msg ∈ message_queue s'.
Proof.
  intros Hrun Hin.
  eapply (run_invariant (fun s => msg ∈ message_queue s)); [|exact Hin|exact Hrun].
  intros a s0 s1 H0 Hstep. by eapply queue_grows_step.
Qed.

Lemma one_terminal (s : state) (x y : message) :
  (terminal_count s <= 1)%nat -> is_terminal x = true -> is_terminal y = true ->
  x ∈ message_queue s -> y ∈ message_queue s -> x = y.
Proof.
  unfold terminal_count. intros Hle Hx Hy Hinx Hiny.
  assert (x ∈ List.filter is_terminal (message_queue s)) as Hfx.
  { apply list_elem_of_In, filter_In. split; [by apply list_elem_of_In|done]. }
  assert (y ∈ List.filter is_terminal (message_queue s)) as Hfy.
  { apply list_elem_of_In, filter_In. split; [by apply list_elem_of_In|done]. }
  destruct (List.filter is_terminal (message_queue s)) as [|z [|z' l]]; cbn in Hle.
  - by apply elem_of_nil in Hfx.
  - apply list_elem_of_singleton in Hfx, Hfy. congruence.
  - lia.
Qed.

(** X6.  A [cancel()] that returns while the dispatch loop is about to submit a
    job (it was past the cancel check, for instance waiting in the pause
    loop): the pool is shut down, [submit] raises, and the run ends with
    the Error message of that [RuntimeError] and never puts Complete. *)
Theorem cancel_before_submit_fails_run (e : env) (m : ConversionManager)
    acts s i acts' s' :
  fresh_jobs m -> run e acts (enter m) = Some s ->
  cancel_returned s -> pc s = DSubmit i ->
  run e (Dispatch :: acts') s = Some s' ->
  step e Dispatch s =
    Some (fail_batch (RuntimeError "cannot schedule new futures after shutdown") s) /\
  shutdown_message ∈ message_queue s' /\
  (forall c k r, CompleteMsg c k r ∉ message_queue s').
Proof.
  intros Hfresh Hrun Hcancel Hpc Hrun'.
  pose proof (run_inv_run e m acts s Hfresh Hrun) as (_ & _ & _ & _ & _ & _ & Hshut).
  destruct (Hshut Hcancel ltac:(by rewrite Hpc)) as (ex & Hex & Hdown).
  destruct (body_job_run e m acts s Hrun i ltac:(by rewrite Hpc)) as [job Hjob].
  assert (step e Dispatch s =
            Some (fail_batch (RuntimeError "cannot schedule new futures after shutdown") s))
    as Hstep.
  { cbn. unfold dispatch_step. by rewrite Hpc, Hjob, Hex, Hdown. }
  split; [done|].
  cbn [run] in Hrun'. rewrite Hstep in Hrun'.
  assert (shutdown_message ∈ message_queue s') as Hmsg.
  { eapply queue_grows; [exact Hrun'|]. cbn. apply elem_of_app. right.
    by apply list_elem_of_singleton. }
  split; [done|]. intros c k r Hin.
  assert (run e (acts ++ Dispatch :: acts') (enter m) = Some s') as Hall.
  { rewrite run_app, Hrun. cbn [run]. by rewrite Hstep. }
  destruct (outcome_run e m _ s' Hall) as [Hno Hone].
  assert (terminal_count s' <= 1)%nat as Hle.
  { destruct (completing (pc s')).
    - destruct (Hone eq_refl) as [->|[-> _]]; lia.
    - rewrite (Hno eq_refl). lia. }
  pose proof (one_terminal s' shutdown_message (CompleteMsg c k r) Hle
                eq_refl eq_refl Hmsg Hin) as Heq.
  discriminate Heq.
Qed.

Lemma cancel_before_submit_fails_run_witness :
  exists s s',
    run demo_env cancel_at_submit (enter (new_manager demo_settings)) = Some s /\
    cancel_returned s /\ pc s = DSubmit 0 /\
    run demo_env (dispatch 2) s = Some s' /\
    pc s' = DReturned /\
    step demo_env Dispatch s =
      Some (fail_batch (RuntimeError "cannot schedule new futures after shutdown") s) /\
    shutdown_message ∈ message_queue s' /\
    (forall c k r, CompleteMsg c k r ∉ message_queue s').
Proof.
  eexists. eexists. split; [vm_compute; reflexivity|].
  split; [repeat split; discriminate|]. split; [reflexivity|].
  split; [vm_compute; reflexivity|]. split; [reflexivity|].
  apply (cancel_before_submit_fails_run demo_env (new_manager demo_settings)
           cancel_at_submit _ 0%nat (dispatch 1));
    [constructor|vm_compute; reflexivity|repeat split; discriminate|reflexivity
    |vm_compute; reflexivity].
Defined.

Lemma live_jobs_alter (l : list future) (k : nat) (f : future) :
  l !! k = Some f ->
  exists rest,
    live_jobs l ≡ₚ (if engine_live (fut_state f) then [fut_job f] else []) ++ rest /\
    forall g, live_jobs (alter g k l) ≡ₚ
              (if engine_live (fut_state (g f)) then [fut_job (g f)] else []) ++ rest.
Proof.
  revert k. induction l as [|x l IH]; intros k Hk; [done|].
  destruct k as [|k]; cbn in Hk.
  - injection Hk as ->. exists (live_jobs l). unfold live_jobs. cbn. split.
    + by destruct (engine_live (fut_state f)).
    + intros g. by destruct (engine_live (fut_state (g f))).
  - destruct (IH k Hk) as (rest & H1 & H2).
    exists ((if engine_live (fut_state x) then [fut_job x] else []) ++ rest).
    unfold live_jobs in *. cbn. split.
    + destruct (engine_live (fut_state x)); cbn; [|done].
      rewrite H1. by rewrite Permutation_middle.
    + intros g. specialize (H2 g).
      destruct (engine_live (fut_state x)); cbn; [|done].
      rewrite H2. by rewrite Permutation_middle.
Qed.

Lemma live_jobs_same (l : list future) (k : nat) (f : future) g :
  l !! k = Some f ->
  engine_live (fut_state (g f)) = engine_live (fut_state f) ->
  fut_job (g f) = fut_job f ->
  live_jobs (alter g k l) ≡ₚ live_jobs l.
Proof.
  intros Hk Hl Hj. destruct (live_jobs_alter l k f Hk) as (rest & H1 & H2).
  rewrite H1, (H2 g), Hl, Hj. done.
Qed.

Lemma live_jobs_begin (l : list future) (k : nat) (f : future) g :
  l !! k = Some f ->
  engine_live (fut_state f) = false -> engine_live (fut_state (g f)) = true ->
  live_jobs (alter g k l) ≡ₚ fut_job (g f) :: live_jobs l.
Proof.
  intros Hk Hl Hg. destruct (live_jobs_alter l k f Hk) as (rest & H1 & H2).
  rewrite H1, (H2 g), Hl, Hg. done.
Qed.

Lemma live_jobs_end (l : list future) (k : nat) (f : future) g :
  l !! k = Some f ->
  engine_live (fut_state f) = true -> engine_live (fut_state (g f)) = false ->
  live_jobs l ≡ₚ fut_job f :: live_jobs (alter g k l).
Proof.
  intros Hk Hl Hg. destruct (live_jobs_alter l k f Hk) as (rest & H1 & H2).
  rewrite H1, (H2 g), Hl, Hg. done.
Qed.

Lemma live_jobs_terminate (active : list nat) (l : list future) :
  live_jobs (List.map (terminate active) l) = live_jobs l.
Proof.
  unfold live_jobs. induction l as [|f l IH]; [done|]. cbn.
  assert (engine_live (fut_state (terminate active f)) = engine_live (fut_state f) /\
          fut_job (terminate active f) = fut_job f) as [-> Hj].
  { unfold terminate. destruct (fut_state f) as [|[]| |] eqn:E; rewrite ?E; try done.
    case_bool_decide; cbn; by rewrite ?E. }
  destruct (engine_live (fut_state f)); cbn; by rewrite ?Hj, IH.
Qed.

Lemma live_jobs_pending (l : list future) (j : nat) :
  live_jobs (l ++ [{| fut_job := j; fut_state := FPending |}]) = live_jobs l.
Proof.
  unfold live_jobs. rewrite List.filter_app. cbn. by rewrite app_nil_r.
Qed.

Lemma remove_first_perm (j : nat) (l : list nat) :
  j ∈ l -> l ≡ₚ j :: remove_first j l.
Proof.
  induction l as [|x l IH]; [by intros ?%elem_of_nil|].
  intros Hin. cbn. destruct (Nat.eqb_spec j x) as [->|Hne]; [done|].
  apply elem_of_cons in Hin as [->|Hin]; [done|].
  rewrite (IH Hin) at 1. apply perm_swap.
Qed.

Lemma engines_step (e : env) a s s' :
  active_engines (mgr s) ≡ₚ engines_in_use s -> step e a s = Some s' ->
  active_engines (mgr s') ≡ₚ engines_in_use s'.
Proof.
  unfold engines_in_use. intros Hinv Hstep.
  destruct a; step_cases Hstep; try done.
  all: found.
  all: cbn in *.
  all: rewrite ?live_jobs_terminate, ?live_jobs_pending; try done.
  all: try match goal with
       | Hf : futures _ !! _ = Some _ |- _ =>
           first
             [ rewrite (live_jobs_same _ _ _ _ Hf); [done| |done];
               first [ done
                     | unfold cancel_future; cbn; by destruct (fut_state _)
                     | by destruct engine_bound ]
             | rewrite (live_jobs_begin _ _ _ _ Hf) by done; cbn;
               rewrite <- Hinv; by rewrite Permutation_app_comm
             | pose proof (live_jobs_end _ _ _ (set_fstate (FDone None)) Hf eq_refl eq_refl)
                 as Hend; cbn in Hend; rewrite <- Hinv in Hend;
               rewrite (remove_first_perm j) in Hend
                 by (rewrite Hend; apply list_elem_of_here);
               by apply Permutation_cons_inv in Hend ]
       end.
  - rewrite (live_jobs_same _ _ _ _ H0); [done| |].
    + unfold cancel_future. destruct (fut_state f) eqn:E; cbn; by rewrite ?E.
    + unfold cancel_future. by destruct (fut_state f).
  - rewrite (live_jobs_same _ _ _ _ H0); [done| |done].
    unfold is_pending in *. cbn. by destruct (fut_state _).
Qed.

(** X9.  [active_engines] lists, up to order, exactly the jobs whose pool
    thread holds an engine, so [cancel()] reaches every running encoder;
    when no pool thread is running the list is empty. *)
Theorem active_engines_are_the_running_ones (e : env) (m : ConversionManager) acts s :
  active_engines m = [] -> run e acts (enter m) = Some s ->
  active_engines (mgr s) ≡ₚ engines_in_use s /\
  (Forall (fun f => is_running_future f = false) (futures s) ->
   active_engines (mgr s) = []).
Proof.
  intros Hm Hrun.
  assert (active_engines (mgr s) ≡ₚ engines_in_use s) as Hinv.
  { eapply (run_invariant (fun s => active_engines (mgr s) ≡ₚ engines_in_use s));
      [apply engines_step| |exact Hrun]. cbn. by rewrite Hm. }
  split; [done|]. intros Hnone.
  apply Permutation_nil_r. rewrite Hinv. unfold engines_in_use, live_jobs.
  assert (List.filter (fun f => engine_live (fut_state f)) (futures s) = []) as ->; [|done].
  induction Hnone as [|f l Hf _ IH]; [done|]. cbn.
  unfold is_running_future in Hf.
  destruct (fut_state f) as [|[]| |]; try done.
Qed.

Lemma active_engines_are_the_running_ones_witness :
  exists s,
    run (with_fs two_files demo_env) encoding_schedule
        (enter (new_manager demo_settings)) = Some s /\
    engines_in_use s = [0%nat] /\
    active_engines (mgr s) ≡ₚ engines_in_use s /\
    (Forall (fun f => is_running_future f = false) (futures s) ->
     active_engines (mgr s) = []).
Proof.
  eexists. split; [vm_compute; reflexivity|]. split; [reflexivity|].
  apply (active_engines_are_the_running_ones (with_fs two_files demo_env)
           (new_manager demo_settings) encoding_schedule);
    [reflexivity|vm_compute; reflexivity].
Defined.

Lemma copy_tags_returns (env : TagHandler.tag_env) :
  exists r, TagHandler.copy_tags env = Ok r.
Proof.
  unfold TagHandler.copy_tags, try_except.
  destruct (_ ≫= _); eauto.
Qed.

Lemma apply_replaygain_returns (e : env) (p : path) : _apply_replaygain e p = Ok tt.
Proof.
  unfold _apply_replaygain, try_except.
  destruct (opusgain_path e) as [[|]|]; try done.
  by destruct (run_opusgain e p).
Qed.

(** X10.  Once [encode] has returned [True] the job is recorded as completed,
    whatever [copy_tags] returns and whatever the ReplayGain tool does: the
    pool thread counts one conversion, counts no error, and goes on to its
    [finally] clause with its engine bound. *)
Theorem tag_failure_never_fails_job (e : env) (s : state) (k j : nat)
    (job : ConversionJob) :
  jobs (mgr s) !! j = Some job ->
  exists s',
    task_step e k j WSuccess s = Some s' /\
    jobs (mgr s') !! j = Some (set_status completed job) /\
    converted_count (mgr s') = converted_count (mgr s) + 1 /\
    error_count (mgr s') = error_count (mgr s) /\
    futures s' = alter (set_fstate (FRunning (WFinally true))) k (futures s) /\
    message_queue s' =
      message_queue s ++ [LogMsg ("Completed: " +:+ name (dest_path job)) "success"].
Proof.
  intros Hjob. unfold task_step. rewrite Hjob.
  destruct (copy_tags_returns (Convert.tag_env e (source_path job) (dest_path job))) as [r ->].
  assert ((if String.eqb (replaygain_mode (settings (mgr s))) "off"
           then Ok tt else _apply_replaygain e (dest_path job)) = Ok tt) as ->.
  { destruct (String.eqb _ _); [done|apply apply_replaygain_returns]. }
  eexists. split; [done|]. cbn. split_and!; try done.
  by rewrite list_lookup_alter_eq, Hjob.
Qed.

Lemma tag_failure_never_fails_job_witness :
  raises (TagHandler.File (Convert.tag_env tagless_env ["music"; "a.mp3"] ["out"; "a.opus"])) = true /\
  exists s',
    task_step tagless_env 0 0 WSuccess encoded_state = Some s' /\
    jobs (mgr s') !! 0%nat =
      Some (set_status completed (new_job ["music"; "a.mp3"] ["out"; "a.opus"])) /\
    converted_count (mgr s') = converted_count (mgr encoded_state) + 1 /\
    error_count (mgr s') = error_count (mgr encoded_state) /\
    futures s' =
      alter (set_fstate (FRunning (WFinally true))) 0%nat (futures encoded_state) /\
    message_queue s' =
      message_queue encoded_state ++ [LogMsg ("Completed: " +:+ "a.opus") "success"].
Proof.
  split; [reflexivity|].
  apply (tag_failure_never_fails_job tagless_env encoded_state 0 0
           (new_job ["music"; "a.mp3"] ["out"; "a.opus"])).
  reflexivity.
Defined.

Lemma no_processing_sum (js : list ConversionJob) :
  Forall (fun j => job_status j <> processing) js -> in_progress_sum js = 0%Q.
Proof.
  intros Hall. unfold in_progress_sum.
  assert (List.filter (fun j => bool_decide (job_status j = processing)) js = []) as ->;
    [|done].
  induction Hall as [|j js Hj _ IH]; [done|]. cbn.
  by rewrite bool_decide_eq_false_2.
Qed.

(** X11.  The overall progress a pool thread reports is the share of the jobs
    already counted: no statement sets the status "processing", so the
    fraction of a job being encoded never enters it. *)
Theorem overall_progress_is_counted_share (e : env) (m : ConversionManager) acts s :
  Forall (fun j => job_status j <> processing) (jobs m) ->
  run e acts (enter m) = Some s -> jobs (mgr s) <> [] ->
  exists q,
    _calculate_overall_progress (mgr s) = Ok q /\
    (q == inject_Z (completed_total (mgr s))
          / inject_Z (Z.of_nat (length (jobs (mgr s)))))%Q.
Proof.
  intros Hm Hrun Hjobs.
  pose proof (never_processing e m acts s Hm Hrun) as Hnp.
  unfold _calculate_overall_progress.
  destruct (jobs (mgr s)) as [|j0 js] eqn:Hj; [done|]. rewrite <- Hj in *.
  rewrite no_processing_sum by done.
  rewrite truediv_positive by (rewrite Hj; done).
  eexists. split; [done|].
  unfold float_of_int. by rewrite Qplus_0_r.
Qed.

Lemma overall_progress_is_counted_share_witness :
  exists s,
    run (with_fs two_files demo_env) encoding_schedule
        (enter (new_manager demo_settings)) = Some s /\
    (exists job, jobs (mgr s) !! 0%nat = Some job /\ progress job = (1 # 2)%Q) /\
    exists q,
      _calculate_overall_progress (mgr s) = Ok q /\
      (q == inject_Z (completed_total (mgr s))
            / inject_Z (Z.of_nat (length (jobs (mgr s)))))%Q.
Proof.
  eexists. split; [vm_compute; reflexivity|].
  split; [eexists; split; reflexivity|].
  apply (overall_progress_is_counted_share (with_fs two_files demo_env)
           (new_manager demo_settings) encoding_schedule);
    [constructor|vm_compute; reflexivity|discriminate].
Defined.

Lemma string_app_cons (c : ascii) (a b : string) :
  String c a +:+ b = String c (a +:+ b).
Proof. done. Qed.

Lemma string_app_nil_r (s : string) : s +:+ "" = s.
Proof. induction s as [|c s IH]; [done|]. by rewrite string_app_cons, IH. Qed.

Lemma string_app_assoc (a b c : string) : (a +:+ b) +:+ c = a +:+ (b +:+ c).
Proof. induction a as [|x a IH]; [done|]. by rewrite !string_app_cons, IH. Qed.

Lemma string_length_app (a b : string) :
  String.length (a +:+ b) = (String.length a + String.length b)%nat.
Proof.
  induction a as [|x a IH]; [done|]. rewrite string_app_cons. cbn. by rewrite IH.
Qed.

Lemma rev_app_spec (s acc : string) : String.rev_app s acc = String.rev s +:+ acc.
Proof.
  unfold String.rev. revert acc. induction s as [|c s IH]; intros acc; [done|].
  cbn. rewrite IH, (IH (String c "")). by rewrite string_app_assoc.
Qed.

Lemma string_rev_cons (c : ascii) (s : string) :
  String.rev (String c s) = String.rev s +:+ String c "".
Proof. unfold String.rev at 1. cbn. apply rev_app_spec. Qed.

Lemma string_rev_app (a b : string) :
  String.rev (a +:+ b) = String.rev b +:+ String.rev a.
Proof.
  induction a as [|c a IH].
  - change ("" +:+ b) with b. change (String.rev "") with "".
    by rewrite string_app_nil_r.
  - change (String c a +:+ b) with (String c (a +:+ b)).
    rewrite !string_rev_cons, IH. by rewrite string_app_assoc.
Qed.

Lemma string_rev_involutive (s : string) : String.rev (String.rev s) = s.
Proof.
  induction s as [|c s IH]; [done|].
  rewrite string_rev_cons, string_rev_app, IH. done.
Qed.

Lemma string_app_inv_tail (a b t : string) : a +:+ t = b +:+ t -> a = b.
Proof.
  intros H. apply (f_equal String.rev) in H. rewrite !string_rev_app in H.
  apply String.app_inj in H. apply (f_equal String.rev) in H.
  by rewrite !string_rev_involutive in H.
Qed.

Lemma endswith_spec (suffix s : string) :
  endswith suffix s = true <-> exists pre, s = pre +:+ suffix.
Proof.
  unfold endswith. rewrite startswith_spec. split.
  - intros [post H]. exists (String.rev post).
    apply (f_equal String.rev) in H.
    rewrite string_rev_involutive, string_rev_app, string_rev_involutive in H. done.
  - intros [pre ->]. exists (String.rev pre). by rewrite string_rev_app.
Qed.

Lemma rfind_app_some (c : ascii) (a b : string) (i : nat) :
  rfind c b = Some i -> rfind c (a +:+ b) = Some (String.length a + i)%nat.
Proof.
  intros Hb. induction a as [|x a IH]; [done|].
  rewrite string_app_cons. cbn. by rewrite IH.
Qed.

Lemma substring_app_prefix (a b : string) :
  String.substring 0 (String.length a) (a +:+ b) = a.
Proof.
  induction a as [|x a IH].
  - cbn. by destruct b.
  - rewrite string_app_cons. cbn. by rewrite IH.
Qed.

(** The name that replaces ["stem.mp3"]. *)
Lemma name_with_suffix_mp3 (stem : string) :
  stem <> "" ->
  name_with_suffix ".opus" (stem +:+ ".mp3") = stem +:+ ".opus".
Proof.
  intros Hne. unfold name_with_suffix.
  rewrite (rfind_app_some _ stem ".mp3" 0) by done.
  rewrite Nat.add_0_r, string_length_app. cbn [String.length].
  assert ((0 <? String.length stem)%nat = true) as ->.
  { apply Nat.ltb_lt. destruct stem; [done|cbn; lia]. }
  assert ((String.length stem <? String.length stem + 4 - 1)%nat = true) as ->.
  { apply Nat.ltb_lt. lia. }
  cbn [andb]. by rewrite substring_app_prefix.
Qed.

(** A name matched by ["*.mp3"] other than [".mp3"] itself has a stem. *)
Lemma mp3_name_stem (nm : string) :
  endswith ".mp3" nm = true -> nm <> ".mp3" ->
  exists stem, stem <> "" /\ nm = stem +:+ ".mp3".
Proof.
  intros [stem ->]%endswith_spec Hne. exists stem. split; [|done].
  intros ->. done.
Qed.

Lemma with_suffix_snoc (suffix : string) (front : path) (nm : string) :
  with_suffix suffix (front ++ [nm]) = front ++ [name_with_suffix suffix nm].
Proof.
  unfold with_suffix. rewrite rev_app_distr. cbn. by rewrite rev_involutive.
Qed.

Lemma name_snoc (front : path) (nm : string) : name (front ++ [nm]) = nm.
Proof. unfold name. apply last_last. Qed.

Lemma node_rect_nested (P : node -> Prop) :
  P FileNode ->
  (forall es, Forall (fun kv => P kv.2) es -> P (DirNode es)) ->
  forall n, P n.
Proof.
  intros Hf Hd. fix IH 1. intros [|es]; [exact Hf|]. apply Hd.
  induction es as [|[k sub] es IHes]; constructor; [apply IH|exact IHes].
Qed.

(** What ["*.mp3"] matches: a path below the directory whose last
    component ends in [".mp3"]. *)
Lemma rglob_mp3_names (n : node) (rel : path) :
  rel ∈ rglob_mp3 n ->
  exists front nm, rel = front ++ [nm] /\ endswith ".mp3" nm = true.
Proof.
  revert rel. induction n as [|es IH] using node_rect_nested; intros rel Hin.
  - by apply elem_of_nil in Hin.
  - cbn -[endswith] in Hin. apply elem_of_app in Hin as [Hin|Hin].
    + clear IH. induction es as [|[k sub] es IHes]; [by apply elem_of_nil in Hin|].
      cbn -[endswith] in Hin.
      destruct (endswith ".mp3" k) eqn:Hk; [|by apply IHes].
      apply elem_of_cons in Hin as [->|Hin]; [|by apply IHes].
      by exists [], k.
    + induction es as [|[k sub] es IHes]; [by apply elem_of_nil in Hin|].
      cbn -[endswith] in Hin.
      apply Forall_cons in IH as [Hsub IH].
      apply elem_of_app in Hin as [Hin|Hin]; [|by apply IHes].
      apply list_elem_of_In, in_map_iff in Hin as (rel' & <- & Hin).
      apply list_elem_of_In in Hin.
      destruct (Hsub rel' Hin) as (front & nm & -> & Hnm).
      by exists (k :: front), nm.
Qed.

Lemma discovered_job_paths (e : env) (m : ConversionManager) js job :
  _discover_files e m = Ok js -> job ∈ js ->
  exists dir nm,
    endswith ".mp3" nm = true /\
    source_path job = source_folder (settings m) ++ dir ++ [nm] /\
    dest_path job = dest_folder (settings m) ++ dir ++ [name_with_suffix ".opus" nm] /\
    job_status job = pending /\ progress job = 0%Q /\ job_error job = None.
Proof.
  unfold _discover_files. destruct (scan_fault e); [done|]. intros [= <-] Hin.
  apply list_elem_of_In, in_map_iff in Hin as (rel & <- & Hin).
  apply list_elem_of_In in Hin. unfold rglob in Hin.
  destruct (lookup_node _ _) as [n|]; [|by apply elem_of_nil in Hin].
  destruct (rglob_mp3_names n rel Hin) as (dir & nm & -> & Hnm).
  exists dir, nm. cbn -[endswith name_with_suffix]. by rewrite with_suffix_snoc.
Qed.

(** X12.  Discovery mirrors the source tree below the destination folder and
    swaps the extension: a job's source is a path below the source folder
    whose name ends in [".mp3"], its destination is the same relative
    directory below the destination folder, and a name ["stem.mp3"]
    becomes ["stem.opus"].  Every job starts pending, at progress 0. *)
Theorem discovered_jobs_mirror_tree (e : env) (m : ConversionManager) js job :
  _discover_files e m = Ok js -> job ∈ js ->
  exists dir nm,
    endswith ".mp3" nm = true /\
    source_path job = source_folder (settings m) ++ dir ++ [nm] /\
    dest_path job = dest_folder (settings m) ++ dir ++ [name_with_suffix ".opus" nm] /\
    (forall stem, stem <> "" -> nm = stem +:+ ".mp3" ->
       name (dest_path job) = stem +:+ ".opus") /\
    job_status job = pending /\ progress job = 0%Q /\ job_error job = None.
Proof.
  intros Hd Hin.
  destruct (discovered_job_paths e m js job Hd Hin)
    as (dir & nm & Hnm & Hs & Hdst & Hst & Hp & He).
  exists dir, nm. split_and!; try done.
  intros stem Hne ->. rewrite Hdst, !app_assoc, name_snoc.
  by apply name_with_suffix_mp3.
Qed.

Lemma discovered_jobs_mirror_tree_witness :
  _discover_files (with_fs two_files demo_env) (new_manager demo_settings)
  = Ok [new_job ["music"; "a.mp3"] ["out"; "a.opus"];
        new_job ["music"; "b.mp3"] ["out"; "b.opus"]] /\
  exists dir nm,
    endswith ".mp3" nm = true /\
    ["music"; "b.mp3"] = ["music"] ++ dir ++ [nm] /\
    ["out"; "b.opus"] = ["out"] ++ dir ++ [name_with_suffix ".opus" nm] /\
    (forall stem, stem <> "" -> nm = stem +:+ ".mp3" ->
       name ["out"; "b.opus"] = stem +:+ ".opus") /\
    pending = pending /\ 0%Q = 0%Q /\ @None string = None.
Proof.
  split; [vm_compute; reflexivity|].
  apply (discovered_jobs_mirror_tree (with_fs two_files demo_env)
           (new_manager demo_settings)
           [new_job ["music"; "a.mp3"] ["out"; "a.opus"];
            new_job ["music"; "b.mp3"] ["out"; "b.opus"]]
           (new_job ["music"; "b.mp3"] ["out"; "b.opus"]));
    [vm_compute; reflexivity|].
  apply list_elem_of_In. cbn. tauto.
Defined.

(** X13.  Two discovered jobs with different sources, neither of them named
    exactly [".mp3"], have different destinations: no two pool threads
    write the same file. *)
Theorem discovered_destinations_distinct (e : env) (m : ConversionManager)
    js job1 job2 :
  _discover_files e m = Ok js -> job1 ∈ js -> job2 ∈ js ->
  name (source_path job1) <> ".mp3" -> name (source_path job2) <> ".mp3" ->
  source_path job1 <> source_path job2 ->
  dest_path job1 <> dest_path job2.
Proof.
  intros Hd H1 H2 Hn1 Hn2 Hne Heq.
  destruct (discovered_job_paths e m js job1 Hd H1)
    as (d1 & n1 & He1 & Hs1 & Hd1 & _).
  destruct (discovered_job_paths e m js job2 Hd H2)
    as (d2 & n2 & He2 & Hs2 & Hd2 & _).
  rewrite Hs1, !app_assoc, name_snoc in Hn1.
  rewrite Hs2, !app_assoc, name_snoc in Hn2.
  destruct (mp3_name_stem n1 He1 Hn1) as (st1 & Hst1 & ->).
  destruct (mp3_name_stem n2 He2 Hn2) as (st2 & Hst2 & ->).
  rewrite Hd1, Hd2, !name_with_suffix_mp3 in Heq by done.
  apply app_inv_head, app_inj_tail in Heq as [-> Hst].
  apply string_app_inv_tail in Hst as ->.
  apply Hne. by rewrite Hs1, Hs2.
Qed.

Lemma discovered_destinations_distinct_witness :
  _discover_files (with_fs two_files demo_env) (new_manager demo_settings)
  = Ok [new_job ["music"; "a.mp3"] ["out"; "a.opus"];
        new_job ["music"; "b.mp3"] ["out"; "b.opus"]] /\
  dest_path (new_job ["music"; "a.mp3"] ["out"; "a.opus"])
  <> dest_path (new_job ["music"; "b.mp3"] ["out"; "b.opus"]).
Proof.
  split; [vm_compute; reflexivity|].
  apply (discovered_destinations_distinct (with_fs two_files demo_env)
           (new_manager demo_settings)
           [new_job ["music"; "a.mp3"] ["out"; "a.opus"];
            new_job ["music"; "b.mp3"] ["out"; "b.opus"]]);
    [vm_compute; reflexivity| | |vm_compute; discriminate|vm_compute; discriminate
    |discriminate].
  - apply list_elem_of_In. cbn. tauto.
  - apply list_elem_of_In. cbn. tauto.
Defined.

Lemma should_skip_ext (e : env) (m m' : ConversionManager) (job job' : ConversionJob) :
  settings m' = settings m -> dest_path job' = dest_path job ->
  _should_skip e m' job' = _should_skip e m job.
Proof. unfold _should_skip. by intros -> ->. Qed.

Lemma skip_step (e : env) a s s' :
  quiet_inv s -> frontier_inv s -> skip_inv e s -> step e a s = Some s' ->
  skip_inv e s'.
Proof.
  intros Hq Hfront [Hsub Hinv] Hstep. unfold skip_inv, quiet_inv, frontier_inv in *.
  destruct a; step_cases Hstep; try done.
  all: found.
  all: try (match goal with H : pc _ = _ |- _ => rewrite H in * end).
  all: cbn in *.
  all: split; [intros i0 job0 Hpc0 Hj0; try discriminate Hpc0|intros j0 job0 Hj0].
  all: try (by apply Hinv).
  all: try (by eapply Hsub).
  all: norm_lists.
  all: unfold _should_skip in *; cbn in *.
  all: try (by apply Hinv).
  all: try (by eapply Hsub).
  (* discovery: nothing is submitted yet, and the jobs are pending *)
  all: try (match goal with
            | Hd : _discover_files _ _ = Ok ?a, Hj : ?a !! _ = Some _ |- _ =>
                destruct (Hq eq_refl) as [_ Hf]; rewrite Hf;
                pose proof (discover_pending _ _ _ Hd) as Hp;
                rewrite Forall_lookup in Hp; specialize (Hp _ _ Hj);
                split; [by intros ?%elem_of_nil|by rewrite Hp]
            end).
  all: try (apply lookup_alter_cases in Hj0 as (jb & Hjb & [[Hne ->]|[<- ->]]); cbn).
  all: try (by apply Hinv).
  all: try (by eapply Hsub).
  all: try (split; [by apply Hinv|discriminate]).
  - (* the job is skipped: it was not submitted *)
    destruct (Hfront _ eq_refl i jb ltac:(lia) Hjb) as (_ & Hns & _).
    simplify_eq. split; [by intros ?|by intros _].
  - (* the job goes on to be submitted: the policy said no *)
    simplify_eq. by destruct (if negb _ then _ else _).
  - (* the job is submitted *)
    destruct (Hinv _ _ Hj0) as [Hin Hsk].
    destruct (decide (j0 = i)) as [->|Hne].
    + destruct (Hfront _ eq_refl i job0 ltac:(lia) Hj0) as (Hp & _ & _).
      split; [intros _; by eapply Hsub|]. rewrite Hp. discriminate.
    + split.
      * intros [?| ->%list_elem_of_singleton]%elem_of_app; [by apply Hin|done].
      * intros Hst. destruct (Hsk Hst) as [? ?]. split; [done|].
        rewrite not_elem_of_app, list_elem_of_singleton. by split.
Qed.

Lemma skip_run (e : env) (m : ConversionManager) acts s :
  fresh_jobs m -> run e acts (enter m) = Some s -> skip_inv e s.
Proof.
  intros Hfresh Hrun.
  enough (quiet_inv s /\ frontier_inv s /\ skip_inv e s) as (_ & _ & ?) by done.
  eapply (run_invariant (fun s => quiet_inv s /\ frontier_inv s /\ skip_inv e s));
    [| |exact Hrun].
  - intros a s0 s1 (Hq & Hf & Hs) Hstep. split_and!.
    + by eapply quiet_step.
    + by eapply frontier_step.
    + by eapply skip_step.
  - destruct (run_inv_enter m Hfresh) as (Hq & _).
    destruct (count_inv_enter m Hfresh) as (_ & Hf & _).
    split_and!; [done|done|]. split; [done|].
    intros j job Hj. cbn. unfold fresh_jobs in Hfresh.
    rewrite Forall_lookup in Hfresh. rewrite (Hfresh _ _ Hj).
    split; [by intros ?%elem_of_nil|done].
Qed.

(** X14.  The skip policy is applied once to every job and is final: a job is
    handed to the pool only if the policy rejects it, and a job marked
    skipped satisfies the policy and is never handed to the pool, so it is
    never encoded. *)
Theorem skipped_jobs_never_submitted (e : env) (m : ConversionManager) acts s j job :
  fresh_jobs m -> run e acts (enter m) = Some s ->
  jobs (mgr s) !! j = Some job ->
  (j ∈ submitted s -> _should_skip e (mgr s) job = false) /\
  (job_status job = skipped ->
     _should_skip e (mgr s) job = true /\ j ∉ submitted s).
Proof.
  intros Hfresh Hrun Hj. destruct (skip_run e m acts s Hfresh Hrun) as [_ Hinv].
  by apply Hinv.
Qed.

Lemma skipped_jobs_never_submitted_witness :
  exists s job,
    run (with_fs already_converted demo_env) skip_first_schedule
        (enter (new_manager demo_settings)) = Some s /\
    jobs (mgr s) !! 0%nat = Some job /\ job_status job = skipped /\
    (0%nat ∈ submitted s ->
       _should_skip (with_fs already_converted demo_env) (mgr s) job = false) /\
    (job_status job = skipped ->
       _should_skip (with_fs already_converted demo_env) (mgr s) job = true /\
       0%nat ∉ submitted s).
Proof.
  eexists. eexists. split; [vm_compute; reflexivity|].
  split; [reflexivity|]. split; [reflexivity|].
  apply (skipped_jobs_never_submitted (with_fs already_converted demo_env)
           (new_manager demo_settings) skip_first_schedule);
    [constructor|vm_compute; reflexivity|reflexivity].
Defined.

(* ===================================================================== *)
(** * More on the tag transcription *)
(* ===================================================================== *)

(** One step of the mapping loop overlays at most one comment. *)
Lemma copy_mapped_overlay frames (dest : vcomment) kv :
  copy_mapped frames dest kv = copy_mapped frames ∅ kv ∪ dest.
Proof.
  unfold copy_mapped. destruct kv as [a b].
  destruct (frames !! a) as [[[|t [|t' ts]]|s]|];
    rewrite <- ?insert_union_l, ?(left_id ∅ (∪)); done.
Qed.

Lemma mapping_loop_overlay frames (l : list (string * string)) (dest : vcomment) :
  foldl (copy_mapped frames) dest l = foldl (copy_mapped frames) ∅ l ∪ dest.
Proof.
  revert dest. induction l as [|kv l IH]; intros dest; cbn [foldl].
  - by rewrite (left_id ∅ (∪)).
  - rewrite IH, (IH (copy_mapped frames ∅ kv)), (copy_mapped_overlay frames dest).
    by rewrite (assoc (∪)).
Qed.

Lemma parse_number_overlay frames (a nk tk : string) :
  (exists o, forall dest, parse_number frames a nk tk dest = Ok (o ∪ dest) /\
             forall k, k <> nk -> k <> tk -> o !! k = None) \/
  (exists x, forall dest, parse_number frames a nk tk dest = Raise x).
Proof.
  unfold parse_number. destruct (frames !! a) as [f|].
  2: { left. exists ∅. intros dest. by rewrite (left_id ∅ (∪)). }
  destruct (first_text f) as [track|x]; cbn [mbind result_bind].
  2: { right. by exists x. }
  destruct (contains "/" track).
  - destruct (split1 "/" track) as [|num [|total [|]]].
    1,2,4: right; by eexists.
    left. exists (<[tk := [total]]> (<[nk := [num]]> ∅)). intros dest. split.
    + by rewrite <- !insert_union_l, (left_id ∅ (∪)).
    + intros k Hn Ht. by rewrite !lookup_insert_ne.
  - left. exists (<[nk := [track]]> ∅). intros dest. split.
    + by rewrite <- !insert_union_l, (left_id ∅ (∪)).
    + intros k Hn Ht. by rewrite !lookup_insert_ne.
Qed.

(** [_copy_id3_to_vorbis] overlays the destination with comments that
    depend on the source only, under the written keys only. *)
Lemma id3_copy_overlay (source : audio) :
  (exists o, forall dest, _copy_id3_to_vorbis source dest = Ok (o ∪ dest) /\
             forall k, k ∉ written_keys -> o !! k = None) \/
  (exists x, forall dest, _copy_id3_to_vorbis source dest = Raise x).
Proof.
  unfold _copy_id3_to_vorbis. destruct (tags_truthy (tags source)); cbn [negb].
  2: { left. exists ∅. intros dest. by rewrite (left_id ∅ (∪)). }
  set (frames := id3_frames (tags source)).
  unfold _parse_track_disc_numbers.
  destruct (parse_number_overlay frames "TRCK" "TRACKNUMBER" "TRACKTOTAL")
    as [(o1 & H1)|(x & H1)].
  2: { right. exists x. intros dest. by rewrite H1. }
  destruct (parse_number_overlay frames "TPOS" "DISCNUMBER" "DISCTOTAL")
    as [(o2 & H2)|(x & H2)].
  2: { right. exists x. intros dest. destruct (H1 (foldl (copy_mapped frames) dest TAG_MAPPING)) as [-> _].
       cbn [mbind result_bind]. by rewrite H2. }
  left. exists (o2 ∪ (o1 ∪ foldl (copy_mapped frames) ∅ TAG_MAPPING)).
  intros dest. split.
  - destruct (H1 (foldl (copy_mapped frames) dest TAG_MAPPING)) as [-> _].
    cbn [mbind result_bind].
    destruct (H2 (o1 ∪ foldl (copy_mapped frames) dest TAG_MAPPING)) as [-> _].
    rewrite (mapping_loop_overlay frames TAG_MAPPING dest).
    by rewrite !(assoc (∪)).
  - intros k Hk. unfold written_keys in Hk.
    apply not_elem_of_app in Hk as [Hmap Htot].
    destruct (H1 ∅) as [_ Ho1]. destruct (H2 ∅) as [_ Ho2].
    rewrite !lookup_union_None. split_and!.
    + apply Ho2.
      * intros ->. apply Hmap. apply (bool_decide_unpack _). by vm_compute.
      * intros ->. apply Htot. apply (bool_decide_unpack _). by vm_compute.
    + apply Ho1.
      * intros ->. apply Hmap. apply (bool_decide_unpack _). by vm_compute.
      * intros ->. apply Htot. apply (bool_decide_unpack _). by vm_compute.
    + rewrite copy_mapped_other by done. apply lookup_empty.
Qed.



(** The written keys are upper-case. *)
Lemma written_keys_upper (key : string) : key ∈ written_keys -> upper key = key.
Proof.
  intros Hin. vm_compute in Hin.
  repeat (apply elem_of_cons in Hin as [->|Hin]; [reflexivity|]).
  by apply elem_of_nil in Hin.
Qed.

(** X15.  A comment of the destination whose key is, in any letter case, none of
    the keys the ID3 copy writes, a custom comment or one left by an
    earlier tool, is kept as it is. *)
Theorem unmapped_comments_kept (source : audio) (dest dest' : vcomment) (key : string) :
  _copy_id3_to_vorbis source dest = Ok dest' -> upper key ∉ written_keys ->
  dest' !! key = dest !! key.
Proof.
  intros Hcopy Hkey.
  assert (key ∉ written_keys) as Hkey'.
  { intros Hin. apply Hkey. by rewrite (written_keys_upper key Hin). }
  destruct (id3_copy_overlay source) as [(o & Ho)|(x & Hx)].
  - destruct (Ho dest) as [Heq Hdom]. rewrite Heq in Hcopy. injection Hcopy as <-.
    rewrite lookup_union_r; [done|]. by apply Hdom.
  - by rewrite Hx in Hcopy.
Qed.

Lemma unmapped_comments_kept_witness :
  match _copy_id3_to_vorbis demo_source commented with
  | Ok dest' => dest' !! "Rating" = Some ["5"]
  | Raise _ => False
  end.
Proof.
  assert (upper "Rating" ∉ written_keys) as Hkey.
  { intros H. vm_compute in H. not_in_list H. }
  assert (raises (_copy_id3_to_vorbis demo_source commented) = false) as Hok
    by (vm_compute; reflexivity).
  destruct (_copy_id3_to_vorbis demo_source commented) as [dest'|x] eqn:E;
    [|discriminate Hok].
  rewrite (unmapped_comments_kept demo_source commented dest' "Rating" E Hkey).
  reflexivity.
Defined.

(** X16.  Copying the tags of the same source a second time changes nothing. *)
Theorem id3_copy_idempotent (source : audio) (dest dest' : vcomment) :
  _copy_id3_to_vorbis source dest = Ok dest' ->
  _copy_id3_to_vorbis source dest' = Ok dest'.
Proof.
  intros Hcopy. destruct (id3_copy_overlay source) as [(o & Ho)|(x & Hx)].
  - destruct (Ho dest) as [Heq _]. rewrite Heq in Hcopy. injection Hcopy as <-.
    destruct (Ho (o ∪ dest)) as [-> _]. f_equal.
    by rewrite (assoc (∪)), (idemp (∪)).
  - by rewrite Hx in Hcopy.
Qed.

Lemma id3_copy_idempotent_witness :
  match _copy_id3_to_vorbis demo_source commented with
  | Ok dest' => _copy_id3_to_vorbis demo_source dest' = Ok dest'
  | Raise _ => False
  end.
Proof.
  assert (raises (_copy_id3_to_vorbis demo_source commented) = false) as Hok
    by (vm_compute; reflexivity).
  destruct (_copy_id3_to_vorbis demo_source commented) as [dest'|x] eqn:E;
    [|discriminate Hok].
  exact (id3_copy_idempotent demo_source commented dest' E).
Defined.

Lemma parse_number_other frames (a nk tk : string) (dest dest' : vcomment) key :
  parse_number frames a nk tk dest = Ok dest' -> key <> nk -> key <> tk ->
  dest' !! key = dest !! key.
Proof.
  intros Hp Hn Ht.
  destruct (parse_number_overlay frames a nk tk) as [(o & Ho)|(x & Hx)].
  - destruct (Ho dest) as [Heq Hdom]. rewrite Heq in Hp. injection Hp as <-.
    rewrite lookup_union_r; [done|]. by apply Hdom.
  - by rewrite Hx in Hp.
Qed.

(** What the mapping loop leaves under DATE when the source has a TYER
    frame with at least one value: TYER comes after TDRC in the mapping,
    so its values replace those of TDRC. *)
Lemma mapping_loop_date frames (dest : vcomment) (text : list string) :
  frames !! "TYER" = Some (TextFrame text) -> text <> [] ->
  foldl (copy_mapped frames) dest TAG_MAPPING !! "DATE" = Some text.
Proof.
  intros Hy Hne.
  change TAG_MAPPING with
    ([ ("TIT2", "TITLE"); ("TPE1", "ARTIST"); ("TPE2", "ALBUMARTIST");
       ("TALB", "ALBUM"); ("TDRC", "DATE"); ("TYER", "DATE") ] ++
     [ ("TCON", "GENRE");
       ("TRCK", "TRACKNUMBER"); ("TPOS", "DISCNUMBER"); ("TPE3", "CONDUCTOR");
       ("TPE4", "REMIXER"); ("TCOM", "COMPOSER"); ("TEXT", "LYRICIST");
       ("TIT1", "GROUPING"); ("TIT3", "SUBTITLE"); ("TPUB", "PUBLISHER");
       ("TCOP", "COPYRIGHT"); ("TENC", "ENCODEDBY"); ("TBPM", "BPM");
       ("TMOO", "MOOD"); ("TSRC", "ISRC"); ("COMM", "COMMENT") ]).
  rewrite foldl_app.
  rewrite copy_mapped_other by (apply (bool_decide_unpack _); by vm_compute).
  cbn [foldl]. unfold copy_mapped at 1. rewrite Hy.
  destruct text as [|t [|t' ts]]; [done| |]; by rewrite lookup_insert_eq.
Qed.

(** X17.  When an MP3 source carries both a TDRC and a TYER frame, the DATE
    comment of the destination is taken from TYER: its values replace the
    ones just written from TDRC, whatever they were. *)
Theorem date_comes_from_tyer (source : audio) (frames : gmap string id3_frame)
    (dest dest' : vcomment) (text : list string) :
  tags source = Some (ID3Tags frames) ->
  frames !! "TYER" = Some (TextFrame text) -> text <> [] ->
  _copy_id3_to_vorbis source dest = Ok dest' ->
  dest' !! "DATE" = Some text.
Proof.
  intros Htags Hy Hne. unfold _copy_id3_to_vorbis. rewrite Htags.
  cbn [tags_truthy id3_frames].
  rewrite bool_decide_eq_false_2 by (intros ->; by rewrite lookup_empty in Hy).
  cbn [negb]. unfold _parse_track_disc_numbers.
  destruct (parse_number frames "TRCK" _ _ _) as [d1|] eqn:H1; [|done].
  cbn [mbind result_bind]. intros H2.
  rewrite (parse_number_other _ _ _ _ _ _ "DATE" H2) by done.
  rewrite (parse_number_other _ _ _ _ _ _ "DATE" H1) by done.
  by apply mapping_loop_date.
Qed.

Lemma date_comes_from_tyer_witness :
  match _copy_id3_to_vorbis two_dates ∅ with
  | Ok dest' => dest' !! "DATE" = Some ["1999"]
  | Raise _ => False
  end.
Proof.
  assert (raises (_copy_id3_to_vorbis two_dates ∅) = false) as Hok
    by (vm_compute; reflexivity).
  destruct (_copy_id3_to_vorbis two_dates ∅) as [dest'|x] eqn:E;
    [|discriminate Hok].
  apply (date_comes_from_tyer two_dates
           (<["TDRC" := TextFrame ["2004-05-01"]]> (<["TYER" := TextFrame ["1999"]]> ∅))
           ∅ dest' ["1999"]);
    [reflexivity|vm_compute; reflexivity|discriminate|exact E].
Defined.

(** X18.  An MP3 source whose TRCK or TPOS frame has no first text value (an
    empty value list, or a frame without text): the read of [.text[0]]
    raises inside [copy_tags], which returns False without saving, so none
    of the source's tags reaches the destination. *)
Theorem unreadable_number_drops_all_tags (env : tag_env) (source : audio)
    (frames : gmap string id3_frame) :
  File env = Ok (Some source) -> is_mp3 source = true ->
  tags source = Some (ID3Tags frames) ->
  ~ readable (frames !! "TRCK") \/ ~ readable (frames !! "TPOS") ->
  copy_tags env = Ok (false, None).
Proof.
  intros HF Hmp3 Htags Hbad. unfold copy_tags. rewrite HF.
  cbn [mbind result_bind].
  destruct (tags_truthy (tags source)) eqn:Htr; cbn [negb]; [|done].
  destruct (OggOpus env) as [dest|x]; cbn [mbind result_bind try_except]; [|done].
  rewrite Hmp3.
  assert (exists x, _copy_id3_to_vorbis source dest = Raise x) as [x ->]; [|done].
  unfold _copy_id3_to_vorbis. rewrite Htr, Htags. cbn [negb id3_frames].
  unfold _parse_track_disc_numbers.
  set (mapped := foldl _ _ _). clearbody mapped.
  assert (forall a nk tk d, ~ readable (frames !! a) ->
            exists x, parse_number frames a nk tk d = Raise x) as Hraise.
  { intros a nk tk d Hr. unfold parse_number.
    destruct (frames !! a) as [[[|t ts]|s]|]; cbn in *; try done; by eexists. }
  destruct Hbad as [Hbad|Hbad].
  - destruct (Hraise "TRCK" "TRACKNUMBER" "TRACKTOTAL" mapped Hbad) as [x ->].
    by exists x.
  - destruct (parse_number frames "TRCK" _ _ _) as [d1|x]; [|by exists x].
    cbn [mbind result_bind]. by apply Hraise.
Qed.

Lemma unreadable_number_drops_all_tags_witness :
  ~ readable (Some (TextFrame [])) /\
  copy_tags empty_track_env = Ok (false, None).
Proof.
  split; [intros H; exact H|].
  apply (unreadable_number_drops_all_tags empty_track_env empty_track
           (<["TIT2" := TextFrame ["Song"]]> (<["TRCK" := TextFrame []]> ∅)));
    [reflexivity|reflexivity|reflexivity|].
  left. intros H. vm_compute in H. exact H.
Defined.





(* ===================================================================== *)
(** * Album art *)
(* ===================================================================== *)

Section AlbumArtFacts.
Import AlbumArt.

(** X20.  The first extraction of a process takes the first picture frame of an
    MP3 source whatever its type: the preference for the front cover does
    not apply while the class attribute is not set. *)
Theorem first_extraction_takes_any_cover (s : source) (p : picture) :
  is_mp3 s = true -> first_apic (tags s) = Some (APIC p) ->
  _extract_album_art false s = (Ok (Some p), true).
Proof.
  intros Hmp3 Hfirst. unfold _extract_album_art. rewrite Hmp3.
  assert (tags s <> []) as Hne by (intros E; by rewrite E in Hfirst).
  rewrite bool_decide_eq_false_2 by done. cbn [andb negb].
  assert (scan_apic false (tags s) = Some (Ok p)) as ->; [|done].
  unfold first_apic in Hfirst. clear Hne.
  induction (tags s) as [|[key fr] frames IH]; [done|].
  cbn [scan_apic List.find fst] in *.
  destruct (startswith "APIC" key).
  - cbn in Hfirst. injection Hfirst as ->. by rewrite orb_true_r.
  - by apply IH.
Qed.

Lemma scan_apic_found (frames : list (string * frame)) (p : picture) :
  scan_apic true frames = Some (Ok p) -> pic_type p = COVER_FRONT.
Proof.
  induction frames as [|[key fr] frames IH]; [done|]. cbn [scan_apic].
  destruct (startswith "APIC" key); [|done].
  destruct fr as [q|]; [|done]. rewrite orb_false_r.
  case_bool_decide; [|done]. by intros [= <-].
Qed.

(** X21.  Once the class attribute is set, by any earlier extraction of the
    process, a picture frame that is not a front cover is never taken: the
    result is a front cover frame, the first picture block of a source
    that has picture blocks, or nothing. *)
Theorem later_extractions_want_front_cover (s : source) (p : picture) found :
  _extract_album_art true s = (Ok (Some p), found) ->
  pic_type p = COVER_FRONT \/ exists rest, pictures s = Some (p :: rest).
Proof.
  unfold _extract_album_art.
  assert ((match pictures s with Some (pic :: _) => Ok (Some pic) | _ => Ok None end
           = Ok (Some p)) -> exists rest, pictures s = Some (p :: rest)) as Hfall.
  { destruct (pictures s) as [[|pic rest]|]; try done. intros [= <-]. by exists rest. }
  destruct (_ && _).
  - destruct (scan_apic true (tags s)) as [[q|x]|] eqn:Hscan.
    + intros [= <- _]. left. by eapply scan_apic_found.
    + done.
    + intros [= Hf _]. right. by apply Hfall.
  - intros [= Hf _]. right. by apply Hfall.
Qed.

Lemma first_extraction_takes_any_cover_witness :
  pic_type back_cover <> COVER_FRONT /\
  _extract_album_art false back_then_front = (Ok (Some back_cover), true).
Proof.
  split; [discriminate|].
  apply (first_extraction_takes_any_cover back_then_front back_cover); reflexivity.
Defined.

Lemma later_extractions_want_front_cover_witness :
  _extract_album_art true back_then_front = (Ok (Some front_cover), true) /\
  (pic_type front_cover = COVER_FRONT \/
   exists rest, pictures back_then_front = Some (front_cover :: rest)).
Proof.
  split; [reflexivity|].
  apply (later_extractions_want_front_cover back_then_front front_cover true).
  reflexivity.
Defined.

End AlbumArtFacts.

(* ===================================================================== *)
(** * Encoding engines *)
(* ===================================================================== *)

Section EngineFacts.
Import Engine.

(** X22.  [opusenc] gives no progress: the callback handed to
    [OpusencEngine.encode] is never called, whatever the process prints,
    and the result is True exactly when the process starts, is waited for
    and exits with code 0. *)
Theorem opusenc_reports_no_progress (w : world) (binary_path : option string)
    (input_path output_path : string) (bitrate : Z) (vbr : bool)
    (application : string) (progress_callback : option callback) (kw : kwargs) :
  let p := spawn w (opusenc_command binary_path input_path output_path bitrate vbr kw) in
  (opusenc_encode w binary_path input_path output_path bitrate vbr application
     progress_callback kw).1 = [] /\
  ((opusenc_encode w binary_path input_path output_path bitrate vbr application
      progress_callback kw).2 = true <->
   popen_fault p = None /\ communicate_fault p = None /\ returncode p = 0).
Proof.
  intros p. unfold opusenc_encode, _run_command. fold p.
  destruct (popen_fault p); cbn; [split; [done|]; split; [done|by intros (?&?&?)]|].
  destruct (communicate_fault p); cbn; [split; [done|]; split; [done|by intros (?&?&?)]|].
  split; [done|]. rewrite bool_decide_eq_true. by split; [|intros (_&_&?)].
Qed.

Lemma min_one_le (x : Q) : (min_one x <= 1)%Q.
Proof.
  unfold min_one. destruct (Qlt_le_dec 1 x); [apply Qle_refl|done].
Qed.

Lemma read_progress_bounded (duration : Q) (cb : callback) (lines : list string) q :
  q ∈ (read_progress (parse_progress duration) cb lines).1 -> (q <= 1)%Q.
Proof.
  induction lines as [|line lines IH]; cbn [read_progress].
  - by intros ?%elem_of_nil.
  - destruct (parse_progress duration line) as [[progress|]|x] eqn:Hp; cbn [fst].
    + assert (progress <= 1)%Q as Hle.
      { unfold parse_progress in Hp. destruct (startswith _ _); [|done].
        destruct (_ !! _); [|done]. destruct (py_int _); [|done].
        cbn in Hp. injection Hp as <-. apply min_one_le. }
      destruct (cb progress).
      * cbn. by intros ->%list_elem_of_singleton.
      * destruct (read_progress _ _ lines) as [calls fault]. cbn in *.
        intros [->|Hin]%elem_of_cons; [done|by apply IH].
    + exact IH.
    + by intros ?%elem_of_nil.
Qed.

(** X23.  Every progress value [FFmpegEngine.encode] hands to its callback is at
    most 1, however far [out_time_us] runs past the probed duration; and
    when the duration could not be probed no progress is reported at all. *)
Theorem ffmpeg_progress_at_most_one (w : world) (binary_path : option string)
    (input_path output_path : string) (bitrate : Z) (vbr : bool)
    (application : string) (progress_callback : option callback) (kw : kwargs) :
  let calls := (ffmpeg_encode w binary_path input_path output_path bitrate vbr
                  application progress_callback kw).1 in
  (forall q, q ∈ calls -> (q <= 1)%Q) /\
  (raises (ffprobe w input_path) = true -> calls = []).
Proof.
  cbn zeta. unfold ffmpeg_encode, ffmpeg_get_duration. split.
  - intros q. destruct progress_callback as [cb|].
    2: { unfold _run_command. destruct (popen_fault _); [by intros ?%elem_of_nil|].
         destruct (communicate_fault _); by intros ?%elem_of_nil. }
    destruct (Qeq_bool _ 0).
    { unfold _run_command. destruct (popen_fault _); [by intros ?%elem_of_nil|].
      destruct (communicate_fault _); by intros ?%elem_of_nil. }
    unfold _run_command. destruct (popen_fault _); [by intros ?%elem_of_nil|].
    destruct (read_progress _ _ _) as [calls fault] eqn:Hr.
    assert (q ∈ calls -> (q <= 1)%Q) as Hb.
    { intros Hin. eapply read_progress_bounded. by rewrite Hr. }
    destruct fault; [done|]. by destruct (communicate_fault _).
  - destruct (ffprobe w input_path); [done|]. intros _.
    destruct progress_callback as [cb|]; cbn.
    all: unfold _run_command; destruct (popen_fault _); [done|].
    all: by destruct (communicate_fault _).
Qed.

Lemma read_progress_fault (parser : string -> result (option Q)) (cb : callback)
    (lines : list string) (line : string) :
  line ∈ lines -> raises (parser line) = true ->
  is_Some (read_progress parser cb lines).2.
Proof.
  intros Hin Hr. induction lines as [|l lines IH]; [by apply elem_of_nil in Hin|].
  cbn [read_progress]. apply elem_of_cons in Hin as [<-|Hin].
  - destruct (parser line); [done|]. by eexists.
  - destruct (parser l) as [[progress|]|x]; [| |by eexists].
    + destruct (cb progress); [by eexists|].
      destruct (read_progress parser cb lines) as [calls fault]. by apply IH.
    + by apply IH.
Qed.

(** X24.  A progress line whose value is not an integer literal makes the encode
    fail: [int] raises inside the reader loop of [_run_command], so
    [FFmpegEngine.encode] returns False even if the process goes on to exit
    with code 0. *)
Theorem ffmpeg_unparsable_progress_fails (w : world) (binary_path : option string)
    (input_path output_path : string) (bitrate : Z) (vbr : bool)
    (application : string) (cb : callback) (kw : kwargs) (line : string) :
  let p := spawn w (ffmpeg_command binary_path input_path output_path bitrate vbr
                      application true kw) in
  Qeq_bool (ffmpeg_get_duration w input_path) 0 = false ->
  line ∈ stdout p -> unparsable_progress line ->
  (ffmpeg_encode w binary_path input_path output_path bitrate vbr application
     (Some cb) kw).2 = false.
Proof.
  intros p Hd Hin [Hstart Hint]. unfold ffmpeg_encode.
  rewrite bool_decide_eq_true_2 by done. fold p. rewrite Hd.
  unfold _run_command. destruct (popen_fault p); [done|].
  assert (raises (parse_progress (ffmpeg_get_duration w input_path) line) = true) as Hr.
  { unfold parse_progress. rewrite Hstart.
    destruct (split "=" line !! 1%nat) as [text|] eqn:Ht; [|done].
    specialize (Hint text eq_refl). by destruct (py_int text). }
  destruct (read_progress_fault _ cb _ _ Hin Hr) as [x Hx].
  destruct (read_progress _ _ _) as [calls fault]. cbn in Hx. by rewrite Hx.
Qed.

Lemma ffmpeg_unparsable_progress_fails_witness :
  returncode (spawn na_world []) = 0 /\
  (ffmpeg_encode na_world None "a.mp3" "a.opus" 160 true "audio"
     (Some quiet_callback) ∅).2 = false.
Proof.
  split; [reflexivity|].
  apply (ffmpeg_unparsable_progress_fails na_world None "a.mp3" "a.opus" 160 true
           "audio" quiet_callback ∅ ("out_time_us=N/A" +:+ String "010" EmptyString)).
  - reflexivity.
  - cbn. apply list_elem_of_here.
  - split; [reflexivity|]. intros text Ht. vm_compute in Ht.
    injection Ht as <-. reflexivity.
Defined.

End EngineFacts.

(* ===================================================================== *)
(** * The settings file *)
(* ===================================================================== *)

Section SettingsFacts.
Import SettingsFile.
Variable class_names : list string.

Lemma hasattr_update (self : instance) (kv : string * json) (key : string) :
  hasattr class_names (update class_names self kv) key = hasattr class_names self key.
Proof.
  unfold update. destruct (hasattr class_names self kv.1) eqn:Hkv; [|done].
  unfold hasattr in *. destruct (decide (key = kv.1)) as [->|Hne].
  - rewrite lookup_insert_eq. rewrite Hkv.
    by rewrite (bool_decide_eq_true_2 (is_Some (Some kv.2))) by by eexists.
  - by rewrite lookup_insert_ne.
Qed.

Lemma hasattr_foldl (self : instance) (members : list (string * json)) (key : string) :
  hasattr class_names (foldl (update class_names) self members) key
  = hasattr class_names self key.
Proof.
  revert self. induction members as [|kv members IH]; intros self; [done|].
  cbn [foldl]. by rewrite IH, hasattr_update.
Qed.

Lemma load_loop_lookup (self : instance) (members : list (string * json))
    (key : string) :
  foldl (update class_names) self members !! key =
  match file_value members key with
  | Some v => if hasattr class_names self key then Some v else self !! key
  | None => self !! key
  end.
Proof.
  unfold file_value.
  induction members as [|[k v] members IH] using rev_ind; [done|].
  rewrite foldl_app, rev_app_distr. cbn [foldl List.rev app List.find fst].
  unfold update at 1. cbn [fst snd]. rewrite hasattr_foldl.
  destruct (String.eqb_spec k key) as [->|Hne].
  - cbn. destruct (hasattr class_names self key) eqn:Hk.
    + by rewrite lookup_insert_eq.
    + rewrite IH. destruct (List.find _ _); cbn; by rewrite ?Hk.
  - destruct (hasattr class_names self k); [rewrite lookup_insert_ne by done|];
      exact IH.
Qed.

(** X25.  [load] changes the attributes the file names, and only those that
    exist.  For a JSON object none of whose members is named as a data
    descriptor, [load] returns True, an attribute the file does not
    mention keeps its current value (not its default), a member of the
    file that names no attribute is ignored, and of two members with the
    same name the later one wins.  A file that is missing, unreadable or
    not a JSON object leaves the instance as it was, and [load] returns
    False. *)
Theorem load_changes_named_attributes_only (self : instance)
    (members : list (string * json)) :
  Forall (fun kv => kv.1 ∉ data_descriptors) members ->
  (load class_names self (Document (JObject members))).1 = true /\
  (forall key,
     (load class_names self (Document (JObject members))).2 !! key =
     match file_value members key with
     | Some v => if hasattr class_names self key then Some v else self !! key
     | None => self !! key
     end) /\
  (forall file,
     (forall ms, file <> Document (JObject ms)) ->
     load class_names self file = (false, self)).
Proof.
  intros _. split_and!; [done| |].
  - intros key. apply load_loop_lookup.
  - intros file Hno. destruct file as [|x|[| | | | | |ms]]; try done.
    by destruct (Hno ms).
Qed.

Lemma find_app {A} (f : A -> bool) (l1 l2 : list A) :
  List.find f (l1 ++ l2) =
  match List.find f l1 with Some x => Some x | None => List.find f l2 end.
Proof. induction l1 as [|x l1 IH]; [done|]. cbn. by destruct (f x). Qed.

Lemma file_value_asdict (self : instance) (names : list string) (key : string) :
  NoDup names ->
  file_value (omap (fun name => pair name <$> self !! name) names) key =
  if bool_decide (key ∈ names) then self !! key else None.
Proof.
  unfold file_value. induction names as [|n names IH]; intros Hnd; [done|].
  apply NoDup_cons in Hnd as [Hn Hnd]. specialize (IH Hnd).
  cbn [omap list_omap].
  assert (bool_decide (key ∈ n :: names) =
          (bool_decide (key = n) || bool_decide (key ∈ names))) as ->.
  { apply eq_true_iff_eq. rewrite orb_true_iff, !bool_decide_eq_true, elem_of_cons. done. }
  destruct (self !! n) as [v|] eqn:Hv; cbn [fmap option_fmap option_map].
  - cbn [List.rev]. rewrite find_app.
    destruct (List.find _ (List.rev _)) as [x|] eqn:Hfind.
    + (* found further on: the key is one of [names], not [n] *)
      destruct (decide (key = n)) as [->|Hne].
      * rewrite bool_decide_eq_false_2 in IH by done. done.
      * rewrite (bool_decide_eq_false_2 (key = n)) by done. exact IH.
    + cbn [List.find fst]. destruct (decide (key = n)) as [->|Hne].
      * rewrite String.eqb_refl, (bool_decide_eq_true_2 (n = n)) by done.
        cbn. by rewrite Hv.
      * rewrite (proj2 (String.eqb_neq n key)) by done.
        rewrite (bool_decide_eq_false_2 (key = n)) by done. exact IH.
  - rewrite IH. destruct (decide (key = n)) as [->|Hne].
    + rewrite (bool_decide_eq_true_2 (n = n)) by done.
      rewrite bool_decide_eq_false_2 by done. cbn. by rewrite Hv.
    + by rewrite (bool_decide_eq_false_2 (key = n)) by done.
Qed.

Lemma saved_members (self : instance) :
  List.filter (fun kv : string * json => negb (String.eqb kv.1 "config_file"))
    (asdict self) = asdict self.
Proof.
  unfold asdict. apply forallb_filter_id, forallb_forall.
  intros [k v] Hin. apply list_elem_of_In, list_elem_of_omap in Hin as (n & Hn & Hv).
  destruct (self !! n); [|done]. cbn in Hv. injection Hv as <- <-.
  cbn. apply negb_true_iff, String.eqb_neq. intros ->.
  revert Hn. apply (bool_decide_unpack _). by vm_compute.
Qed.

(** X26.  A saved file restores the settings: loading what [save] wrote, into
    any instance, gives every field the value it had in the saved
    instance and leaves the other attributes, [config_file] among them, as
    they are. *)
Theorem save_then_load_restores (saved self : instance) (file : file_content) :
  well_formed saved -> well_formed self ->
  (save saved None file).1 = true /\
  (load class_names self (save saved None file).2).1 = true /\
  forall key,
    (load class_names self (save saved None file).2).2 !! key =
    if bool_decide (key ∈ field_names) then saved !! key else self !! key.
Proof.
  intros Hsaved Hself. unfold save. cbn [fst snd]. rewrite saved_members.
  split; [done|]. split; [done|]. intros key. cbn [load snd].
  rewrite load_loop_lookup. unfold asdict.
  rewrite file_value_asdict by (apply (bool_decide_unpack _); by vm_compute).
  case_bool_decide as Hkey; [|done].
  destruct (Hsaved key Hkey) as [v ->].
  unfold hasattr. destruct (Hself key Hkey) as [v' Hv'].
  by rewrite (bool_decide_eq_true_2 (is_Some (self !! key))) by by eexists.
Qed.

End SettingsFacts.

Lemma save_then_load_restores_witness :
  (SettingsFile.save tuned None SettingsFile.Missing).1 = true /\
  (SettingsFile.load method_names untouched
     (SettingsFile.save tuned None SettingsFile.Missing).2).1 = true /\
  forall key,
    (SettingsFile.load method_names untouched
       (SettingsFile.save tuned None SettingsFile.Missing).2).2 !! key =
    if bool_decide (key ∈ SettingsFile.field_names) then tuned !! key else untouched !! key.
Proof.
  apply (save_then_load_restores method_names tuned untouched SettingsFile.Missing).
  - intros name Hin. vm_compute in Hin.
    repeat (apply elem_of_cons in Hin as [->|Hin]; [eexists; vm_compute; reflexivity|]).
    by apply elem_of_nil in Hin.
  - intros name Hin. vm_compute in Hin.
    repeat (apply elem_of_cons in Hin as [->|Hin]; [eexists; vm_compute; reflexivity|]).
    by apply elem_of_nil in Hin.
Defined.

Lemma load_changes_named_attributes_only_witness :
  (SettingsFile.load method_names untouched
     (SettingsFile.Document
        (SettingsFile.JObject
           [("bitrate", SettingsFile.JInt 96); ("theme", SettingsFile.JStr "dark");
            ("bitrate", SettingsFile.JInt 128)]))).1 = true /\
  (forall key,
     (SettingsFile.load method_names untouched
        (SettingsFile.Document
           (SettingsFile.JObject
              [("bitrate", SettingsFile.JInt 96); ("theme", SettingsFile.JStr "dark");
               ("bitrate", SettingsFile.JInt 128)]))).2 !! key =
     match SettingsFile.file_value
             [("bitrate", SettingsFile.JInt 96); ("theme", SettingsFile.JStr "dark");
              ("bitrate", SettingsFile.JInt 128)] key with
     | Some v => if SettingsFile.hasattr method_names untouched key
                 then Some v else untouched !! key
     | None => untouched !! key
     end) /\
  (forall file,
     (forall ms, file <> SettingsFile.Document (SettingsFile.JObject ms)) ->
     SettingsFile.load method_names untouched file = (false, untouched)).
Proof.
  apply (load_changes_named_attributes_only method_names untouched
           [("bitrate", SettingsFile.JInt 96); ("theme", SettingsFile.JStr "dark");
            ("bitrate", SettingsFile.JInt 128)]).
  repeat (apply Forall_cons; split;
          [intros H; vm_compute in H; not_in_list H|]).
  apply Forall_nil_2.
Defined.

(* ===================================================================== *)
(** * The window *)
(* ===================================================================== *)

Section AppFacts.
Import App.

Lemma handle_buttons (w : window) (msg : message) :
  (forall c k r, msg <> CompleteMsg c k r) -> buttons (handle w msg) = buttons w.
Proof.
  intros Hne. destruct msg as [| |c k r|]; try done. by destruct (Hne c k r).
Qed.

Lemma process_messages_buttons (queue : list message) (w : window) :
  (forall c k r, CompleteMsg c k r ∉ queue) ->
  buttons (_process_messages queue w) = buttons w.
Proof.
  unfold _process_messages. revert w.
  induction queue as [|msg queue IH]; intros w Hno; [done|].
  cbn [foldl]. rewrite IH.
  - apply handle_buttons. intros c k r ->. apply (Hno c k r), list_elem_of_here.
  - intros c k r Hin. apply (Hno c k r). by apply list_elem_of_further.
Qed.

(** X27.  Only a Complete message gives the buttons back: whatever else the queue
    holds, Error messages included, the Start, Pause and Cancel buttons
    are after [_process_messages] as they were before. *)
Theorem only_complete_resets_buttons (queue : list message) (w : window) :
  (forall c k r, CompleteMsg c k r ∉ queue) ->
  buttons (_process_messages queue w) = buttons w.
Proof.
  unfold _process_messages. revert w.
  induction queue as [|msg queue IH]; intros w Hno; [done|].
  cbn [foldl]. rewrite IH.
  - apply handle_buttons. intros c k r ->. apply (Hno c k r), list_elem_of_here.
  - intros c k r Hin. apply (Hno c k r). by apply list_elem_of_further.
Qed.

Lemma held_queue (last : message) (m : ConversionManager) (s : state) :
  (forall c k r, last <> CompleteMsg c k r) ->
  ends_at_discovery last m s ->
  forall c k r, CompleteMsg c k r ∉ message_queue s.
Proof.
  intros Hlast (_ & _ & _ & _ & [[_ ->]|[[_ ->]|[_ ->]]]) c k r Hin.
  - by apply elem_of_nil in Hin.
  - by apply list_elem_of_singleton in Hin.
  - apply elem_of_cons in Hin as [Hin|Hin%list_elem_of_singleton]; [done|].
    by destruct (Hlast c k r).
Qed.

(** X28.  A run that finds no file, or whose discovery fails, puts no Complete
    message, and nothing else re-enables the buttons: once its messages
    are handled the Start button is still disabled and Pause and Cancel are
    still enabled, although the conversion thread has returned. *)
Theorem run_without_files_leaves_start_disabled (e : env) (m : ConversionManager)
    acts s (w w0 : window) :
  (_discover_files e m = Ok [] \/ exists x, _discover_files e m = Raise x) ->
  _start_conversion (fs e) (settings m) w = (w0, true) ->
  run e acts (enter m) = Some s ->
  buttons (_process_messages (message_queue s) w0) = (false, true, true, pause_text w).
Proof.
  intros Hd Hstart Hrun.
  rewrite process_messages_buttons.
  - unfold _start_conversion in Hstart.
    destruct (_ || _); [done|]. destruct (bool_decide _); [done|].
    by injection Hstart as <-.
  - eapply held_queue; [|by eapply ends_at_discovery_run].
    intros c k r. by destruct Hd as [->|[x ->]].
Qed.

Lemma substring_length (n m : nat) (s : string) :
  (n + m <= String.length s)%nat -> String.length (String.substring n m s) = m.
Proof.
  revert n m. induction s as [|c s IH]; intros n m Hle; cbn in Hle.
  - assert (n = 0 /\ m = 0)%nat as [-> ->] by lia. done.
  - destruct n as [|n]; cbn.
    + destruct m as [|m]; [done|]. cbn. rewrite IH by lia. done.
    + apply IH. lia.
Qed.

Lemma set_current_file_length (filename : string) (w : window) :
  (String.length (file_label (set_current_file filename w)) <= 60)%nat.
Proof.
  unfold set_current_file. cbn [file_label].
  destruct (Nat.ltb_spec 60 (String.length filename)) as [Hlt|Hle]; [|done].
  change ("..." +:+ ?s) with (String "." (String "." (String "." s))).
  cbn [String.length]. rewrite substring_length by lia. lia.
Qed.

(** X29.  The file label never holds more than 60 characters, however long the
    names in the Progress messages are; a name of at most 60 characters is
    shown as it is. *)
Theorem file_label_fits (queue : list message) (w : window) :
  (String.length (file_label w) <= 60)%nat ->
  (String.length (file_label (_process_messages queue w)) <= 60)%nat /\
  forall overall current file,
    (String.length file <= 60)%nat ->
    file_label (_process_messages (queue ++ [ProgressMsg overall current file]) w)
    = file.
Proof.
  intros Hw. split.
  - unfold _process_messages. revert w Hw.
    induction queue as [|msg queue IH]; intros w Hw; [done|].
    cbn [foldl]. apply IH. destruct msg; try done.
    apply set_current_file_length.
  - intros overall current file Hlen. unfold _process_messages.
    rewrite foldl_app. cbn [foldl handle]. unfold set_current_file. cbn [file_label].
    destruct (Nat.ltb_spec 60 (String.length file)) as [Hlt|Hle]; [lia|done].
Qed.

(** X30.  Cancelling while paused: [cancel()] does not clear the pause flag and
    [_reset_ui_state] sets the button back to "Pause".  The manager is then
    still paused under a button that reads "Pause": a batch started now
    hands no job to the pool until that button is clicked, and that click
    resumes instead of pausing. *)
Theorem cancel_while_paused_leaves_pause_set (e : env) (w : window) (s : state) :
  is_paused (mgr s) = true -> ui s = UIdle ->
  exists w' s',
    _cancel_conversion e true w s = Some (w', s') /\
    buttons w' = (true, false, false, "Pause") /\
    is_paused (mgr s') = true /\
    (forall acts s2,
       CallResume ∉ acts -> CallCancel ∉ acts ->
       run e acts (enter (mgr s')) = Some s2 -> futures s2 = []) /\
    is_paused (_pause_conversion w' (mgr s')).2 = false /\
    pause_text (_pause_conversion w' (mgr s')).1 = "Pause".
Proof.
  intros Hp Hui. unfold _cancel_conversion, cancel. cbn [run step].
  rewrite Hui. cbn. eexists _, _. split; [done|]. cbn.
  split_and!; try done.
  - intros acts s2 Hr Hc Hrun.
    assert (held_at_first_job s2) as (_ & Hf & _).
    { eapply (run_invariant_on quiet_action held_at_first_job e); [| | |exact Hrun].
      - intros a s0 s1 Ha. by apply held_step.
      - apply Forall_forall. intros a Ha. split; by intros ->.
      - by apply held_enter. }
    done.
  - unfold _pause_conversion. cbn. by rewrite Hp.
  - unfold _pause_conversion. cbn. by rewrite Hp.
Qed.

Lemma only_complete_resets_buttons_witness :
  buttons (_process_messages
             [LogMsg "Scanning for MP3 files..." "info";
              ErrorMsg "Batch conversion failed: [Errno 5] Input/output error"]
             running_window)
  = (false, true, true, "Pause").
Proof.
  apply (only_complete_resets_buttons
           [LogMsg "Scanning for MP3 files..." "info";
            ErrorMsg "Batch conversion failed: [Errno 5] Input/output error"]
           running_window).
  intros c k r H. not_in_list H.
Defined.

Lemma run_without_files_leaves_start_disabled_witness :
  exists s,
    run (with_fs empty_dir demo_env) (dispatch 3)
        (enter (new_manager demo_settings)) = Some s /\
    pc s = DReturned /\
    buttons (_process_messages (message_queue s) running_window)
    = (false, true, true, "Pause").
Proof.
  eexists. split; [vm_compute; reflexivity|]. split; [reflexivity|].
  apply (run_without_files_leaves_start_disabled (with_fs empty_dir demo_env)
           (new_manager demo_settings) (dispatch 3) _ idle_window running_window);
    [left; vm_compute; reflexivity|vm_compute; reflexivity|vm_compute; reflexivity].
Defined.

Lemma file_label_fits_witness :
  (String.length long_name = 71)%nat /\
  (String.length
     (file_label (_process_messages [ProgressMsg 0 (1 # 2) long_name] idle_window))
   <= 60)%nat /\
  forall overall current file,
    (String.length file <= 60)%nat ->
    file_label (_process_messages
                  ([ProgressMsg 0 (1 # 2) long_name]
                   ++ [ProgressMsg overall current file]) idle_window)
    = file.
Proof.
  split; [reflexivity|].
  apply (file_label_fits [ProgressMsg 0 (1 # 2) long_name] idle_window).
  cbn. lia.
Defined.

Lemma cancel_while_paused_leaves_pause_set_witness :
  exists s,
    run (with_fs two_files demo_env) pause_after_check
        (enter (new_manager demo_settings)) = Some s /\
    exists w' s',
      _cancel_conversion (with_fs two_files demo_env) true paused_window s
      = Some (w', s') /\
      buttons w' = (true, false, false, "Pause") /\
      is_paused (mgr s') = true /\
      (forall acts s2,
         CallResume ∉ acts -> CallCancel ∉ acts ->
         run (with_fs two_files demo_env) acts (enter (mgr s')) = Some s2 ->
         futures s2 = []) /\
      is_paused (_pause_conversion w' (mgr s')).2 = false /\
      pause_text (_pause_conversion w' (mgr s')).1 = "Pause".
Proof.
  eexists. split; [vm_compute; reflexivity|].
  apply (cancel_while_paused_leaves_pause_set (with_fs two_files demo_env)
           paused_window); reflexivity.
Defined.

End AppFacts.
